(** * uev: a micro event loop for FreeRTOS targets

    A shallow embedding of the dispatch engine of the library (the watcher
    registry of [uev.c], the timers of [timer.c], the software events of
    [event.c] and the second pass of the selector task of [iothread.c]),
    followed by the properties of the engine that the specification
    states.

    Memory is explicit: watchers and contexts live in two finite maps from
    addresses to records, a C pointer is [option nat] ([None] is [NULL]),
    and every function of the library is a computation in a small
    state-and-fault monad.  Dereferencing [NULL] or an address that holds
    no object is a [Fault]. *)

From Stdlib Require Import ZArith Lia Bool List.
From stdpp Require Import base option list gmap.

Local Open Scope Z_scope.

(** ** Constants of [uev.h] and [private.h] *)

Definition UEV_NONE  : Z := 0.
Definition UEV_ERROR : Z := 1.
Definition UEV_READ  : Z := 2.
Definition UEV_WRITE : Z := 4.

Definition UEV_ONCE     : Z := 1.
Definition UEV_NONBLOCK : Z := 2.

Definition UEV_EVENT_MASK : Z := Z.lor (Z.lor UEV_ERROR UEV_READ) UEV_WRITE.

Definition UEV_EG_BIT_IO    : Z := Z.shiftl 1 0.
Definition UEV_EG_BIT_EVENT : Z := Z.shiftl 1 1.
Definition UEV_EG_BIT_TIMER : Z := Z.shiftl 1 2.
Definition UEV_EG_MASK : Z :=
  Z.lor (Z.lor UEV_EG_BIT_IO UEV_EG_BIT_EVENT) UEV_EG_BIT_TIMER.

(** [errno.h] of the C library (newlib numbering). *)
Definition EINVAL : Z := 22.
Definition ERANGE : Z := 34.

(** The initial value of [next_deadline] in [uev_run]:
    [0xffffffffffffffff]. *)
Definition DEADLINE_MAX : Z := 2 ^ 64 - 1.

(** Arithmetic of [uint64_t] and the value range of [int64_t]. *)
Definition wrap64 (z : Z) : Z := z mod 2 ^ 64.
Definition sint64 (z : Z) : Z := (z + 2 ^ 63) mod 2 ^ 64 - 2 ^ 63.
(** Arithmetic of [unsigned int]. *)
Definition wrap32 (z : Z) : Z := z mod 2 ^ 32.

(** ** Data model *)

Abbreviation ptr := (option nat).

Inductive uev_type_t : Set :=
| UEV_IO_TYPE
| UEV_TIMER_TYPE
| UEV_TIMER_TS_TYPE
| UEV_EVENT_TYPE.

#[global] Instance uev_type_eq_dec : EqDecision uev_type_t.
Proof. solve_decision. Defined.

(** [struct uev]: the private members of [uev_private_t] followed by the
    public [fd] and [ctx].  The members of the union [u] are kept side by
    side ([u.t.timeout] is [t_timeout], [u.e.posted] is [e_posted]); a
    watcher only uses the member of its own [type].  [cb] is a function
    pointer, [arg] an opaque pointer value. *)
Record uev_t : Type := mk_uev {
  next : ptr;
  prev : ptr;
  iot_events : Z;
  active : Z;
  events : Z;
  cb : ptr;
  arg : Z;
  t_timeout : Z;
  t_period : Z;
  t_deadline : Z;
  e_posted : Z;
  type : uev_type_t;
  fd : Z;
  ctx : ptr
}.

(** [uev_ctx_t].  [egh] is the handle of the FreeRTOS event group: [None]
    for a [NULL] handle, [Some bits] for a group whose bits are [bits]. *)
Record uev_ctx_t : Type := mk_ctx {
  running : Z;
  egh : option Z;
  watchers : ptr;
  watchers_changed : Z
}.

(** One invocation of a user callback: [cb(w, arg, events)]. *)
Record cb_call : Type := mk_call {
  call_cb : nat;
  call_w : nat;
  call_arg : Z;
  call_events : Z
}.

(** The machine state.  [clock n] is what the [n]-th reading of the
    platform timer returns and [ticks] counts the readings made so far;
    [calls] is the trace of callback invocations (user callbacks are
    opaque to the library: an invocation is recorded and leaves the state
    of the loop as it is); [iolist] is the selector's list of I/O
    watchers, [wakes] the number of wake bytes sent to the selector,
    [waits] the [tickstowait] arguments of the bit-group waits made so
    far, and [in_isr] what [xPortInIsrContext()] returns. *)
Record state : Type := mk_state {
  uevs : gmap nat uev_t;
  ctxs : gmap nat uev_ctx_t;
  errno : Z;
  clock : nat -> Z;
  ticks : nat;
  calls : list cb_call;
  iolist : list nat;
  wakes : nat;
  waits : list Z;
  in_isr : bool
}.

(** *** Field updates *)

Definition set_next (v : ptr) (w : uev_t) : uev_t :=
  mk_uev v (prev w) (iot_events w) (active w) (events w) (cb w) (arg w)
         (t_timeout w) (t_period w) (t_deadline w) (e_posted w) (type w)
         (fd w) (ctx w).
Definition set_prev (v : ptr) (w : uev_t) : uev_t :=
  mk_uev (next w) v (iot_events w) (active w) (events w) (cb w) (arg w)
         (t_timeout w) (t_period w) (t_deadline w) (e_posted w) (type w)
         (fd w) (ctx w).
Definition set_iot_events (v : Z) (w : uev_t) : uev_t :=
  mk_uev (next w) (prev w) v (active w) (events w) (cb w) (arg w)
         (t_timeout w) (t_period w) (t_deadline w) (e_posted w) (type w)
         (fd w) (ctx w).
Definition set_active (v : Z) (w : uev_t) : uev_t :=
  mk_uev (next w) (prev w) (iot_events w) v (events w) (cb w) (arg w)
         (t_timeout w) (t_period w) (t_deadline w) (e_posted w) (type w)
         (fd w) (ctx w).
Definition set_timeout (v : Z) (w : uev_t) : uev_t :=
  mk_uev (next w) (prev w) (iot_events w) (active w) (events w) (cb w) (arg w)
         v (t_period w) (t_deadline w) (e_posted w) (type w)
         (fd w) (ctx w).
Definition set_period (v : Z) (w : uev_t) : uev_t :=
  mk_uev (next w) (prev w) (iot_events w) (active w) (events w) (cb w) (arg w)
         (t_timeout w) v (t_deadline w) (e_posted w) (type w)
         (fd w) (ctx w).
Definition set_deadline (v : Z) (w : uev_t) : uev_t :=
  mk_uev (next w) (prev w) (iot_events w) (active w) (events w) (cb w) (arg w)
         (t_timeout w) (t_period w) v (e_posted w) (type w)
         (fd w) (ctx w).
Definition set_posted (v : Z) (w : uev_t) : uev_t :=
  mk_uev (next w) (prev w) (iot_events w) (active w) (events w) (cb w) (arg w)
         (t_timeout w) (t_period w) (t_deadline w) v (type w)
         (fd w) (ctx w).

Definition set_running (v : Z) (c : uev_ctx_t) : uev_ctx_t :=
  mk_ctx v (egh c) (watchers c) (watchers_changed c).
Definition set_egh (v : option Z) (c : uev_ctx_t) : uev_ctx_t :=
  mk_ctx (running c) v (watchers c) (watchers_changed c).
Definition set_watchers (v : ptr) (c : uev_ctx_t) : uev_ctx_t :=
  mk_ctx (running c) (egh c) v (watchers_changed c).

Definition with_uevs (m : gmap nat uev_t) (s : state) : state :=
  mk_state m (ctxs s) (errno s) (clock s) (ticks s) (calls s) (iolist s)
           (wakes s) (waits s) (in_isr s).
Definition with_ctxs (m : gmap nat uev_ctx_t) (s : state) : state :=
  mk_state (uevs s) m (errno s) (clock s) (ticks s) (calls s) (iolist s)
           (wakes s) (waits s) (in_isr s).
Definition with_errno (e : Z) (s : state) : state :=
  mk_state (uevs s) (ctxs s) e (clock s) (ticks s) (calls s) (iolist s)
           (wakes s) (waits s) (in_isr s).
Definition with_ticks (n : nat) (s : state) : state :=
  mk_state (uevs s) (ctxs s) (errno s) (clock s) n (calls s) (iolist s)
           (wakes s) (waits s) (in_isr s).
Definition with_calls (l : list cb_call) (s : state) : state :=
  mk_state (uevs s) (ctxs s) (errno s) (clock s) (ticks s) l (iolist s)
           (wakes s) (waits s) (in_isr s).
Definition with_iolist (l : list nat) (s : state) : state :=
  mk_state (uevs s) (ctxs s) (errno s) (clock s) (ticks s) (calls s) l
           (wakes s) (waits s) (in_isr s).
Definition with_wakes (n : nat) (s : state) : state :=
  mk_state (uevs s) (ctxs s) (errno s) (clock s) (ticks s) (calls s) (iolist s)
           n (waits s) (in_isr s).
Definition with_waits (l : list Z) (s : state) : state :=
  mk_state (uevs s) (ctxs s) (errno s) (clock s) (ticks s) (calls s) (iolist s)
           (wakes s) l (in_isr s).

(** ** The monad of library calls *)

Inductive res (A : Type) : Type :=
| Ok (a : A) (s : state)
| Fault
| OutOfFuel.
Arguments Ok {A} a s.
Arguments Fault {A}.
Arguments OutOfFuel {A}.

Definition M (A : Type) : Type := state -> res A.

Definition ret {A} (a : A) : M A := fun s => Ok a s.
Definition bind {A B} (m : M A) (k : A -> M B) : M B :=
  fun s => match m s with
           | Ok a s' => k a s'
           | Fault => Fault
           | OutOfFuel => OutOfFuel
           end.
Definition fault {A} : M A := fun _ => Fault.
Definition out_of_fuel {A} : M A := fun _ => OutOfFuel.

#[global] Instance M_ret : MRet M := @ret.
#[global] Instance M_bind : MBind M := fun A B k m => bind m k.

Definition when (b : bool) (m : M unit) : M unit := if b then m else ret tt.

(** Memory accesses. *)
Definition load (w : nat) : M uev_t :=
  fun s => match uevs s !! w with Some r => Ok r s | None => Fault end.
Definition modify (w : nat) (f : uev_t -> uev_t) : M unit :=
  fun s => match uevs s !! w with
           | Some r => Ok tt (with_uevs (<[w := f r]> (uevs s)) s)
           | None => Fault
           end.
Definition load_ctx (c : nat) : M uev_ctx_t :=
  fun s => match ctxs s !! c with Some r => Ok r s | None => Fault end.
Definition modify_ctx (c : nat) (f : uev_ctx_t -> uev_ctx_t) : M unit :=
  fun s => match ctxs s !! c with
           | Some r => Ok tt (with_ctxs (<[c := f r]> (ctxs s)) s)
           | None => Fault
           end.
Definition deref (p : ptr) : M nat :=
  match p with Some a => ret a | None => fault end.
Definition set_errno (e : Z) : M unit := fun s => Ok tt (with_errno e s).

(** ** Platform primitives *)

(** [esp_timer_get_time()]: the next reading of the clock, an [int64_t]. *)
Definition esp_timer_get_time : M Z :=
  fun s => Ok (sint64 (clock s (ticks s))) (with_ticks (S (ticks s)) s).

(** Modelled from the spec: the bit-group primitives of FreeRTOS, which are
    not part of the sources.  [xEventGroupSetBits] and
    [xEventGroupSetBitsFromISR] set bits of the group; a [NULL] handle is a
    fault. *)
Definition xEventGroupSetBits (c : nat) (bits : Z) : M unit :=
  cr ← load_ctx c;
  match egh cr with
  | Some b => modify_ctx c (set_egh (Some (Z.lor b bits)))
  | None => fault
  end.
Definition xEventGroupSetBitsFromISR (c : nat) (bits : Z) : M unit :=
  xEventGroupSetBits c bits.

(** Modelled from the spec: [xEventGroupWaitBits(egh, mask, pdTRUE, pdFALSE,
    ticks)] returns the bits of the group and clears those of [mask].  The
    model is sequential: what other tasks do while the caller sleeps
    happens between two library calls, and the wait itself only records
    its [tickstowait]. *)
Definition log_wait (tickstowait : Z) : M unit :=
  fun s => Ok tt (with_waits (waits s ++ [tickstowait]) s).
Definition xEventGroupWaitBits (c : nat) (mask : Z) (tickstowait : Z) : M Z :=
  cr ← load_ctx c;
  match egh cr with
  | Some b =>
      modify_ctx c (set_egh (Some (Z.ldiff b mask)));;
      log_wait tickstowait;;
      mret b
  | None => fault
  end.

(** The critical sections and the per-timer lock have no effect on a
    sequential run.  The lock word is not a field of [uev_t]:
    [_uev_lock_init] is the use of its argument only, and what the call
    stores in the lock, at the start of the union [u], is not modelled. *)
Definition _uev_critical_enter : M unit := mret tt.
Definition _uev_critical_exit : M unit := mret tt.
Definition _uev_lock (w : nat) : M unit := mret tt.
Definition _uev_unlock (w : nat) : M unit := mret tt.
Definition _uev_lock_init (w : ptr) : M unit := _ ← deref w; mret tt.

(** ** [iothread.c]: registration with the selector *)

Definition _uev_iothread_interrupt : M unit :=
  fun s => Ok tt (with_wakes (S (wakes s)) s).

(** Modelled from the spec: [list_add_tail] and [list_delete] of [list.h],
    which is not part of the sources, on the selector's list. *)
Definition list_add_tail (w : nat) : M unit :=
  fun s => Ok tt (with_iolist (iolist s ++ [w]) s).
Definition list_delete (w : nat) : M unit :=
  fun s => Ok tt (with_iolist (filter (fun x => x ≠ w) (iolist s)) s).

Definition _uev_iothread_watcher_add (w : nat) : M unit :=
  _uev_critical_enter;;
  list_add_tail w;;
  _uev_critical_exit;;
  _uev_iothread_interrupt.
Definition _uev_iothread_watcher_remove (w : nat) : M unit :=
  _uev_critical_enter;;
  list_delete w;;
  _uev_critical_exit;;
  _uev_iothread_interrupt.

(** ** [private.h]: the intrusive list of watchers

    The [list] argument of the macros is always [ctx->watchers] for some
    context, here the address [c] of that context. *)

Definition _UEV_INSERT (node : nat) (c : nat) : M unit :=
  cr ← load_ctx c;
  let nxt := watchers cr in
  modify_ctx c (set_watchers (Some node));;
  match nxt with
  | Some n => modify n (set_prev (Some node))
  | None => mret tt
  end;;
  modify node (set_next nxt);;
  modify node (set_prev None).

Definition _UEV_REMOVE (node : nat) (c : nat) : M unit :=
  wr ← load node;
  let prv := prev wr in
  let nxt := next wr in
  match prv with
  | Some p => modify p (set_next nxt)
  | None => mret tt
  end;;
  match nxt with
  | Some n => modify n (set_prev prv)
  | None => mret tt
  end;;
  modify node (set_prev None);;
  modify node (set_next None);;
  cr ← load_ctx c;
  when (bool_decide (watchers cr = Some node))
       (modify_ctx c (set_watchers nxt)).

(** [_UEV_FOREACH(node, list)]: [next] is read before the body runs, so
    the body may unlink [node].  [fuel] bounds the number of nodes
    visited. *)
Fixpoint _UEV_FOREACH {A} (fuel : nat) (node : ptr)
         (body : nat -> A -> M A) (acc : A) : M A :=
  match node with
  | None => mret acc
  | Some w =>
      match fuel with
      | O => out_of_fuel
      | S k =>
          wr ← load w;
          let nxt := next wr in
          acc' ← body w acc;
          _UEV_FOREACH k nxt body acc'
      end
  end.

(** ** [uev.c]: generic watchers *)

Definition _uev_set_flags (c : nat) (bits : Z) : M unit :=
  fun s => if in_isr s then xEventGroupSetBitsFromISR c bits s
           else xEventGroupSetBits c bits s.

Definition _uev_watcher_active (w : ptr) : M Z :=
  match w with
  | None => mret 0
  | Some a => wr ← load a; mret (if 0 <? active wr then 1 else 0)
  end.

Definition _uev_watcher_init (c : ptr) (w : ptr) (ty : uev_type_t)
           (f : ptr) (a : Z) (fd_ : Z) (ev : Z) : M Z :=
  match c, w with
  | Some c, Some w =>
      modify w (fun wr =>
        mk_uev (next wr) (prev wr) 0 0 ev f a
               (t_timeout wr) (t_period wr) (t_deadline wr) (e_posted wr)
               ty fd_ (Some c));;
      when (bool_decide (ty = UEV_TIMER_TS_TYPE)) (_UEV_INSERT w c);;
      mret 0
  | _, _ => set_errno EINVAL;; mret (-1)
  end.

Definition _uev_watcher_start (w : ptr) : M Z :=
  match w with
  | None => set_errno EINVAL;; mret (-1)
  | Some a =>
      wr ← load a;
      match ctx wr with
      | None => set_errno EINVAL;; mret (-1)
      | Some c =>
          if bool_decide (type wr = UEV_IO_TYPE) && (fd wr <? 0)
          then set_errno EINVAL;; mret (-1)
          else
            act ← _uev_watcher_active w;
            if negb (act =? 0) then mret 0
            else
              modify a (set_active 1);;
              when (bool_decide (type wr = UEV_IO_TYPE))
                   (_uev_iothread_watcher_add a);;
              when (negb (bool_decide (type wr = UEV_TIMER_TS_TYPE)))
                   (_UEV_INSERT a c);;
              mret 0
      end
  end.

Definition _uev_watcher_stop (w : ptr) : M Z :=
  match w with
  | None => set_errno EINVAL;; mret (-1)
  | Some a =>
      act ← _uev_watcher_active w;
      if act =? 0 then mret 0
      else
        modify a (set_active 0);;
        wr ← load a;
        when (bool_decide (type wr = UEV_IO_TYPE))
             (_uev_iothread_watcher_remove a);;
        when (negb (bool_decide (type wr = UEV_TIMER_TS_TYPE)))
             (c ← deref (ctx wr); _UEV_REMOVE a c);;
        mret 0
  end.

(** [uev_init]: [memset], a fresh event group, [running = 0]. *)
Definition uev_init (c : ptr) : M Z :=
  match c with
  | None => set_errno EINVAL;; mret (-1)
  | Some c =>
      modify_ctx c (fun _ => mk_ctx 0 (Some 0) None 0);;
      mret 0
  end.

(** ** [timer.c] *)

Definition _uev_timer_now : M Z :=
  now ← esp_timer_get_time;
  if now <=? 0 then mret 0 else mret now.

Definition is_timer (ty : uev_type_t) : bool :=
  bool_decide (ty = UEV_TIMER_TYPE) || bool_decide (ty = UEV_TIMER_TS_TYPE).

Definition uev_timer_set (w : ptr) (timeout period : Z) : M Z :=
  match w with
  | None => set_errno EINVAL;; mret (-1)
  | Some a =>
      wr ← load a;
      match ctx wr with
      | None => set_errno EINVAL;; mret (-1)
      | Some c =>
          if (timeout <? 0) || (period <? 0)
          then set_errno ERANGE;; mret (-1)
          else
            now ← _uev_timer_now;
            when (bool_decide (type wr = UEV_TIMER_TS_TYPE)) (_uev_lock a);;
            modify a (set_timeout timeout);;
            modify a (set_period period);;
            cr ← load_ctx c;
            wr' ← load a;
            (if negb (running cr =? 0) && negb (t_timeout wr' =? 0)
             then modify a (set_deadline (wrap64 (now / 1000 + timeout)))
             else modify a (set_deadline 0));;
            when (bool_decide (type wr = UEV_TIMER_TS_TYPE)) (_uev_unlock a);;
            _uev_set_flags c UEV_EG_BIT_TIMER;;
            _uev_watcher_start w
      end
  end.

Definition uev_timer_init2 (c : ptr) (w : ptr) (f : ptr) (a : Z)
           (timeout period : Z) (threadsafe : Z) : M Z :=
  if (timeout <? 0) || (period <? 0)
  then set_errno ERANGE;; mret (-1)
  else
    _uev_lock_init w;;
    rc ← _uev_watcher_init c w
           (if threadsafe =? 0 then UEV_TIMER_TYPE else UEV_TIMER_TS_TYPE)
           f a (-1) UEV_READ;
    if negb (rc =? 0) then mret (-1)
    else
      rc ← uev_timer_set w timeout period;
      if negb (rc =? 0) then _ ← _uev_watcher_stop w; mret (-1)
      else mret 0.

Definition uev_timer_init (c : ptr) (w : ptr) (f : ptr) (a : Z)
           (timeout period : Z) : M Z :=
  uev_timer_init2 c w f a timeout period 0.

Definition uev_timer_start (w : ptr) : M Z :=
  match w with
  | None => set_errno EINVAL;; mret (-1)
  | Some a =>
      wr ← load a;
      (if negb (fd wr =? -1) then _ ← _uev_watcher_stop w; mret tt
       else mret tt);;
      wr ← load a;
      uev_timer_set w (t_timeout wr) (t_period wr)
  end.

Definition _uev_timer_stop (w : ptr) : M Z :=
  act ← _uev_watcher_active w;
  if act =? 0 then mret 0
  else
    rc ← _uev_watcher_stop w;
    if negb (rc =? 0) then mret (-1) else mret 0.

Definition uev_timer_stop (w : ptr) : M Z :=
  rc ← _uev_timer_stop w;
  if negb (rc =? 0) then mret rc
  else
    a ← deref w;
    wr ← load a;
    c ← deref (ctx wr);
    _UEV_REMOVE a c;;
    mret 0.

(** ** [event.c] *)

Definition uev_event_init (c : ptr) (w : ptr) (f : ptr) (a : Z) : M Z :=
  match w, c with
  | Some wa, Some _ =>
      modify wa (set_posted 0);;
      rc ← _uev_watcher_init c w UEV_EVENT_TYPE f a (-1) UEV_READ;
      if negb (rc =? 0) then mret 1
      else rc ← _uev_watcher_start w; mret (if rc =? 0 then 0 else 1)
  | _, _ => set_errno EINVAL;; mret (-1)
  end.

Definition uev_event_post (w : ptr) : M Z :=
  match w with
  | None => set_errno EINVAL;; mret (-1)
  | Some a =>
      modify a (set_posted 1);;
      wr ← load a;
      c ← deref (ctx wr);
      _uev_set_flags c UEV_EG_BIT_EVENT;;
      mret 0
  end.

Definition uev_event_stop (w : ptr) : M Z :=
  act ← _uev_watcher_active w;
  if act =? 0 then mret 0
  else
    rc ← _uev_watcher_stop w;
    if negb (rc =? 0) then mret (-1) else mret 0.

(** ** [iothread.c]: the second pass of [task_fn]

    After [select] has returned, the selector walks its list and pushes
    the readiness found in the three descriptor sets into the watchers.
    A descriptor set is the predicate [FD_ISSET]. *)

(** The events of one watcher found in the sets: the three tests of the
    pass. *)
Definition task_fn_events (readfds writefds exceptfds : Z -> bool)
           (wr : uev_t) : Z :=
  let ev := 0 in
  let ev := if readfds (fd wr) && negb (Z.land (events wr) UEV_READ =? 0)
            then Z.lor ev UEV_READ else ev in
  let ev := if writefds (fd wr) && negb (Z.land (events wr) UEV_WRITE =? 0)
            then Z.lor ev UEV_WRITE else ev in
  let ev := if exceptfds (fd wr) && negb (Z.land (events wr) UEV_ERROR =? 0)
            then Z.lor ev UEV_ERROR else ev in
  ev.

Definition task_fn_watcher (readfds writefds exceptfds : Z -> bool)
           (w : nat) : M unit :=
  act ← _uev_watcher_active (Some w);
  if act =? 0 then mret tt
  else
    wr ← load w;
    if fd wr <? 0 then mret tt
    else
      let ev := task_fn_events readfds writefds exceptfds wr in
      if negb (ev =? 0) then
        modify w (fun r => set_iot_events (Z.lor (iot_events r) ev) r);;
        c ← deref (ctx wr);
        _uev_set_flags c UEV_EG_BIT_IO
      else mret tt.

Fixpoint list_for_every_entry (l : list nat) (body : nat -> M unit) : M unit :=
  match l with
  | [] => mret tt
  | w :: l' => body w;; list_for_every_entry l' body
  end.

Definition task_fn_collect (readfds writefds exceptfds : Z -> bool) : M unit :=
  _uev_critical_enter;;
  (fun s => list_for_every_entry (iolist s)
              (task_fn_watcher readfds writefds exceptfds) s);;
  _uev_critical_exit.

(** ** [iothread.c]: the first pass of [task_fn]

    Before [select], the selector walks its list and builds the three
    descriptor sets and [maxfd].  The sets start empty but for the
    descriptor [fd_local] of the wake-up socket in [readfds]. *)
Record fd_request : Type := mk_request {
  req_read : gset Z;
  req_write : gset Z;
  req_except : gset Z;
  req_maxfd : Z
}.

(** [FD_ISSET] on a set built by [FD_SET]. *)
Definition fd_isset (set : gset Z) (fd_ : Z) : bool := bool_decide (fd_ ∈ set).

Definition task_fn_request_watcher (w : nat) (rq : fd_request)
  : M fd_request :=
  act ← _uev_watcher_active (Some w);
  if act =? 0 then mret rq
  else
    wr ← load w;
    if fd wr <? 0 then mret rq
    else if negb (iot_events wr =? 0) then mret rq
    else
      let maxfd := if req_maxfd rq <? fd wr then fd wr else req_maxfd rq in
      let readfds := if negb (Z.land (events wr) UEV_READ =? 0)
                     then {[ fd wr ]} ∪ req_read rq else req_read rq in
      let writefds := if negb (Z.land (events wr) UEV_WRITE =? 0)
                      then {[ fd wr ]} ∪ req_write rq else req_write rq in
      let exceptfds := if negb (Z.land (events wr) UEV_ERROR =? 0)
                       then {[ fd wr ]} ∪ req_except rq else req_except rq in
      mret (mk_request readfds writefds exceptfds maxfd).

(** [list_for_every_entry] with the local variables that its body
    updates. *)
Fixpoint list_for_every_entry_acc {A} (l : list nat) (body : nat -> A -> M A)
         (acc : A) : M A :=
  match l with
  | [] => mret acc
  | w :: l' => acc' ← body w acc; list_for_every_entry_acc l' body acc'
  end.

Definition task_fn_request (fd_local : Z) : M fd_request :=
  let rq := mk_request {[ fd_local ]} ∅ ∅ fd_local in
  _uev_critical_enter;;
  rq' ← (fun s => list_for_every_entry_acc (iolist s)
                    task_fn_request_watcher rq s);
  _uev_critical_exit;;
  mret rq'.

(** ** [uev.c]: the dispatch loop *)

(** The timer case of the sweep; returns [runcb], [events] and the updated
    [next_deadline]. *)
Definition uev_run_timer (w : nat) (next_deadline : Z) : M (bool * Z * Z) :=
  t ← _uev_timer_now;
  let now := t / 1000 in
  wr ← load w;
  when (bool_decide (type wr = UEV_TIMER_TS_TYPE)) _uev_critical_enter;;
  r ← (if (0 <? now) && negb (t_deadline wr =? 0) && (t_deadline wr <? now)
       then
         when (t_period wr =? 0) (modify w (set_timeout 0));;
         wr1 ← load w;
         (if t_timeout wr1 =? 0
          then _ ← _uev_timer_stop (Some w); mret tt
          else modify w (set_deadline (wrap64 (now + t_period wr1))));;
         mret (true, UEV_READ)
       else mret (false, 0));
  wr2 ← load w;
  let nd := if negb (t_deadline wr2 =? 0) && (t_deadline wr2 <? next_deadline)
            then t_deadline wr2 else next_deadline in
  when (bool_decide (type wr = UEV_TIMER_TS_TYPE)) _uev_critical_exit;;
  mret (r, nd).

(** The event case: [atomic_exchange(&w->u.e.posted, false)]. *)
Definition uev_run_event (bits : Z) (w : nat) : M (bool * Z) :=
  if Z.land bits UEV_EG_BIT_EVENT =? 0 then mret (false, 0)
  else
    wr ← load w;
    modify w (set_posted 0);;
    if negb (e_posted wr =? 0) then mret (true, UEV_READ)
    else mret (false, 0).

(** The I/O case. *)
Definition uev_run_io (bits : Z) (w : nat) : M (bool * Z) :=
  if Z.land bits UEV_EG_BIT_IO =? 0 then mret (false, 0)
  else
    wr ← load w;
    let ioevents := iot_events wr in
    if negb (ioevents =? 0) then mret (true, Z.lor 0 ioevents)
    else mret (false, 0).

Definition invoke (f : nat) (w : nat) (a : Z) (ev : Z) : M unit :=
  fun s => Ok tt (with_calls (calls s ++ [mk_call f w a ev]) s).

(** The end of the body: [if (runcb && w->cb) ...]. *)
Definition uev_run_deliver (w : nat) (runcb : bool) (ev : Z) : M unit :=
  wr ← load w;
  match cb wr with
  | Some f =>
      if runcb then
        invoke f w (arg wr) (Z.land ev UEV_EVENT_MASK);;
        wr' ← load w;
        when (bool_decide (type wr' = UEV_IO_TYPE))
             (modify w (fun r =>
                set_iot_events
                  (Z.land (iot_events r) (wrap32 (Z.lnot (wrap32 ev)))) r);;
              _uev_iothread_interrupt)
      else mret tt
  | None => mret tt
  end.

(** The body of the sweep for the watcher at [w]. *)
Definition uev_run_watcher (bits : Z) (w : nat) (next_deadline : Z) : M Z :=
  wr ← load w;
  if active wr =? 0 then mret next_deadline
  else
    match type wr with
    | UEV_EVENT_TYPE =>
        '(runcb, ev) ← uev_run_event bits w;
        uev_run_deliver w runcb ev;;
        mret next_deadline
    | UEV_TIMER_TS_TYPE | UEV_TIMER_TYPE =>
        '(runcb, ev, nd) ← uev_run_timer w next_deadline;
        uev_run_deliver w runcb ev;;
        mret nd
    | UEV_IO_TYPE =>
        '(runcb, ev) ← uev_run_io bits w;
        uev_run_deliver w runcb ev;;
        mret next_deadline
    end.

(** The body of the pass that starts the dormant timers on entry. *)
Definition uev_run_rearm (w : nat) (next_deadline : Z) : M Z :=
  wr ← load w;
  if is_timer (type wr) then
    _ ← uev_timer_set (Some w) (t_timeout wr) (t_period wr);
    wr' ← load w;
    if t_deadline wr' <? next_deadline then mret (t_deadline wr')
    else mret next_deadline
  else mret next_deadline.

Section Platform.

(** [portMAX_DELAY] and [portTICK_PERIOD_MS] of the FreeRTOS port. *)
Variables portMAX_DELAY portTICK_PERIOD_MS : Z.

Definition tickstowait (now next_deadline : Z) : Z :=
  if next_deadline =? DEADLINE_MAX then portMAX_DELAY
  else if next_deadline <=? now then 0
  else if negb (next_deadline =? 0)
       then wrap32 ((next_deadline - now) / portTICK_PERIOD_MS)
       else 0.

(** One iteration of the [while] loop, up to the test of [UEV_ONCE]. *)
Definition uev_run_iteration (fuel : nat) (c : nat) (next_deadline : Z)
  : M Z :=
  t ← _uev_timer_now;
  let now := t / 1000 in
  bits ← xEventGroupWaitBits c UEV_EG_MASK (tickstowait now next_deadline);
  cr ← load_ctx c;
  _UEV_FOREACH fuel (watchers cr) (uev_run_watcher bits) DEADLINE_MAX.

Fixpoint uev_run_loop (iters fuel : nat) (c : nat) (flags : Z)
         (next_deadline : Z) : M unit :=
  cr ← load_ctx c;
  if running cr =? 0 then mret tt
  else
    match iters with
    | O => out_of_fuel
    | S k =>
        nd ← uev_run_iteration fuel c next_deadline;
        if negb (Z.land flags UEV_ONCE =? 0) then mret tt
        else uev_run_loop k fuel c flags nd
    end.

(** The entry of [uev_run], up to the [while] loop: the result is the
    [next_deadline] the loop starts with. *)
Definition uev_run_entry (fuel : nat) (c : nat) (flags : Z) : M Z :=
  let next_deadline :=
    if negb (Z.land flags UEV_NONBLOCK =? 0) then 0 else DEADLINE_MAX in
  modify_ctx c (set_running 1);;
  cr ← load_ctx c;
  _UEV_FOREACH fuel (watchers cr) uev_run_rearm next_deadline.

Definition uev_run (iters fuel : nat) (c : ptr) (flags : Z) : M Z :=
  match c with
  | None => set_errno EINVAL;; mret (-1)
  | Some c =>
      cr ← load_ctx c;
      match egh cr with
      | None => set_errno EINVAL;; mret (-1)
      | Some _ =>
          nd ← uev_run_entry fuel c flags;
          uev_run_loop iters fuel c flags nd;;
          mret 0
      end
  end.

End Platform.

(** ** [uev.c]: leaving the loop *)

(** Modelled from the spec: [vEventGroupDelete] of FreeRTOS frees the
    group; a [NULL] handle is a fault.  [uev_exit] leaves the handle in
    the context as it is, and so does the model, which keeps no heap of
    groups. *)
Definition vEventGroupDelete (c : nat) : M unit :=
  cr ← load_ctx c;
  match egh cr with
  | Some _ => mret tt
  | None => fault
  end.

Section Exit.

(** [uev_io_stop] of [io.c], which is not among the sources: [uev_exit]
    calls it on the active I/O watchers. *)
Variable uev_io_stop : ptr -> M Z.

(** The body of the walk of [uev_exit]. *)
Definition uev_exit_watcher (c : nat) (w : nat) (_ : unit) : M unit :=
  _UEV_REMOVE w c;;
  act ← _uev_watcher_active (Some w);
  if act =? 0 then mret tt
  else
    wr ← load w;
    match type wr with
    | UEV_IO_TYPE => _ ← uev_io_stop (Some w); mret tt
    | UEV_TIMER_TYPE | UEV_TIMER_TS_TYPE => _ ← uev_timer_stop (Some w); mret tt
    | UEV_EVENT_TYPE => _ ← uev_event_stop (Some w); mret tt
    end.

Definition uev_exit (fuel : nat) (c : ptr) : M Z :=
  match c with
  | None => set_errno EINVAL;; mret (-1)
  | Some c =>
      cr ← load_ctx c;
      _UEV_FOREACH fuel (watchers cr) (uev_exit_watcher c) tt;;
      modify_ctx c (set_watchers None);;
      modify_ctx c (set_running 0);;
      vEventGroupDelete c;;
      mret 0
  end.

End Exit.

(** * Specification vocabulary *)

(** [wp m Q s]: from [s], the call [m] returns (no fault, enough fuel) and
    its result and final state satisfy [Q]. *)
Definition wp {A} (m : M A) (Q : A -> state -> Prop) (s : state) : Prop :=
  match m s with
  | Ok a s' => Q a s'
  | Fault | OutOfFuel => False
  end.

(** The failure cases of [uev_timer_set] and the [errno] of each: a null
    watcher, a watcher without a context, a negative argument. *)
Inductive timer_set_failure (s : state) : ptr -> Z -> Z -> Z -> Prop :=
| failure_null timeout period :
    timer_set_failure s None timeout period EINVAL
| failure_unowned a wr timeout period :
    uevs s !! a = Some wr -> ctx wr = None ->
    timer_set_failure s (Some a) timeout period EINVAL
| failure_range a wr c timeout period :
    uevs s !! a = Some wr -> ctx wr = Some c ->
    timeout < 0 \/ period < 0 ->
    timer_set_failure s (Some a) timeout period ERANGE.

(** *** The registry as a list

    [dseg m p hd l q tl]: in the memory [m], following [next] from the
    pointer [hd] visits exactly the addresses [l] and arrives at [tl];
    the [prev] of each node is its predecessor, [p] for the first one;
    [q] is the last node visited ([p] when [l] is empty). *)
Fixpoint dseg (m : gmap nat uev_t) (p hd : ptr) (l : list nat) (q tl : ptr)
  : Prop :=
  match l with
  | [] => hd = tl /\ q = p
  | a :: l' =>
      hd = Some a /\
      exists w, m !! a = Some w /\ prev w = p /\
                dseg m (Some a) (next w) l' q tl
  end.

(** [registry s c l]: the watcher list of the context at [c] is [l], from
    the head on, and every watcher on it is owned by [c]. *)
Definition registry (s : state) (c : nat) (l : list nat) : Prop :=
  exists cr q,
    ctxs s !! c = Some cr /\
    dseg (uevs s) None (watchers cr) l q None /\
    NoDup l /\
    forall a, a ∈ l -> exists w, uevs s !! a = Some w /\ ctx w = Some c.

(** What a watcher is apart from its place in the list. *)
Definition core (w : uev_t) : uev_t := set_prev None (set_next None w).

(** What a call leaves alone outside the two memories. *)
Definition same_env (s s' : state) : Prop :=
  errno s' = errno s /\ clock s' = clock s /\ ticks s' = ticks s /\
  calls s' = calls s /\ iolist s' = iolist s /\ wakes s' = wakes s /\
  waits s' = waits s /\ in_isr s' = in_isr s.

(** Every watcher is what it was, apart from its place in the list. *)
Definition same_cores (s s' : state) : Prop :=
  forall k, core <$> uevs s' !! k = core <$> uevs s !! k.

(** The [next] and [prev] of the watcher at [a]. *)
Definition links (m : gmap nat uev_t) (a : nat) : option (ptr * ptr) :=
  (fun w => (next w, prev w)) <$> m !! a.

(** The effect of [_UEV_REMOVE] on the node [a] that sits between the
    nodes [pre] and the nodes [rest] of the list of [c]. *)
Definition removed (c : nat) (cr : uev_ctx_t) (a : nat) (wa : uev_t)
           (pre rest : list nat) (s s' : state) : Prop :=
  same_env s s' /\ same_cores s s' /\
  links (uevs s') a = Some (None, None) /\
  exists cr' q1 q',
    ctxs s' = <[c := cr']> (ctxs s) /\
    running cr' = running cr /\ egh cr' = egh cr /\
    dseg (uevs s') None (watchers cr') pre q1 (next wa) /\
    dseg (uevs s') q1 (next wa) rest q' None.

(** A walk over the list of [c] that stands at [node]: the nodes [pre] are
    behind, the nodes [rest] are ahead. *)
Definition sweep_inv (c : nat) (pre : list nat) (node : ptr)
           (rest : list nat) (s : state) : Prop :=
  exists cr q1 q,
    ctxs s !! c = Some cr /\
    dseg (uevs s) None (watchers cr) pre q1 node /\
    dseg (uevs s) q1 node rest q None /\
    NoDup (pre ++ rest) /\
    forall k, k ∈ pre ++ rest ->
              exists w, uevs s !! k = Some w /\ ctx w = Some c.

(** What [_uev_timer_now] returns for the [t]-th reading of the clock
    [clk], in microseconds and in whole milliseconds, and the clock as the
    next call will read it. *)
Definition us_at (clk : nat -> Z) (t : nat) : Z :=
  let x := sint64 (clk t) in if x <=? 0 then 0 else x.
Definition ms_at (clk : nat -> Z) (t : nat) : Z := us_at clk t / 1000.
Definition now_us (s : state) : Z := us_at (clock s) (ticks s).
Definition now_ms (s : state) : Z := ms_at (clock s) (ticks s).

(** The calls made to the callback of the watcher at [a]. *)
Definition calls_of (a : nat) (l : list cb_call) : list cb_call :=
  filter (fun cl => call_w cl = a) l.

(** The watchers keep their [next] and [prev]. *)
Definition same_links (s s' : state) : Prop :=
  forall k, links (uevs s') k = links (uevs s) k.

(** The test the sweep makes on a timer at the time [now] (in ms). *)
Definition timer_due (now : Z) (w : uev_t) : bool :=
  (0 <? now) && negb (t_deadline w =? 0) && (t_deadline w <? now).

(** What the sweep leaves of a timer that it handles at the time [now]:
    the record after the timer case of [uev_run], links apart. *)
Definition timer_swept (now : Z) (w : uev_t) : uev_t :=
  if timer_due now w then
    let w1 := if t_period w =? 0 then set_timeout 0 w else w in
    if t_timeout w1 =? 0
    then (if 0 <? active w1 then set_active 0 w1 else w1)
    else set_deadline (wrap64 (now + t_period w1)) w1
  else w.

(** The walk moves past [a]: either [a] stays on the list, behind the
    walk, or it has been unlinked. *)
Definition sweep_next (c : nat) (pre : list nat) (a : nat) (wa : uev_t)
           (rest : list nat) (s' : state) : Prop :=
  sweep_inv c (pre ++ [a]) (next wa) rest s' \/
  (sweep_inv c pre (next wa) rest s' /\
   links (uevs s') a = Some (None, None)).

(** What handling the watcher [a] of the context [c] leaves alone: the
    other watchers (links apart), the other contexts, the [running] flag
    and the bits of [c], the clock, and the calls already made; the new
    calls are calls of [a]. *)
Definition sweep_frame (c a : nat) (s s' : state) : Prop :=
  (forall k, k <> a -> core <$> uevs s' !! k = core <$> uevs s !! k) /\
  (forall c', c' <> c -> ctxs s' !! c' = ctxs s !! c') /\
  (forall cr, ctxs s !! c = Some cr ->
     exists cr', ctxs s' !! c = Some cr' /\ running cr' = running cr /\
                 egh cr' = egh cr) /\
  clock s' = clock s /\ (ticks s <= ticks s')%nat /\
  in_isr s' = in_isr s /\ iolist s' = iolist s /\
  exists new, calls s' = calls s ++ new /\
              forall cl, cl ∈ new -> call_w cl = a.

(** The pending events of an I/O watcher after the delivery of [ev]:
    [atomic_fetch_and(&w->iot.events, ~((unsigned int)events))]. *)
Definition io_cleared (ev : Z) (w : uev_t) : uev_t :=
  set_iot_events (Z.land (iot_events w) (wrap32 (Z.lnot (wrap32 ev)))) w.

(** The decision of the sweep for the watcher [w], handled when the wake
    bits are [bits] and the clock reads [now] ms: whether its callback
    is to run, and with which events. *)
Definition sweep_decision (bits now : Z) (w : uev_t) : bool * Z :=
  if active w =? 0 then (false, 0)
  else match type w with
       | UEV_EVENT_TYPE =>
           if negb (Z.land bits UEV_EG_BIT_EVENT =? 0) && negb (e_posted w =? 0)
           then (true, UEV_READ) else (false, 0)
       | UEV_TIMER_TYPE | UEV_TIMER_TS_TYPE =>
           if timer_due now w then (true, UEV_READ) else (false, 0)
       | UEV_IO_TYPE =>
           if negb (Z.land bits UEV_EG_BIT_IO =? 0) && negb (iot_events w =? 0)
           then (true, Z.lor 0 (iot_events w)) else (false, 0)
       end.

(** The calls that handling [w], at the address [a], adds to the trace. *)
Definition sweep_calls (bits now : Z) (a : nat) (w : uev_t) : list cb_call :=
  match cb w, sweep_decision bits now w with
  | Some f, (true, ev) => [mk_call f a (arg w) (Z.land ev UEV_EVENT_MASK)]
  | _, _ => []
  end.

(** The watcher [w] after the sweep has handled it, links apart. *)
Definition watcher_swept (bits now : Z) (w : uev_t) : uev_t :=
  if active w =? 0 then w
  else match type w with
       | UEV_EVENT_TYPE =>
           if Z.land bits UEV_EG_BIT_EVENT =? 0 then w else set_posted 0 w
       | UEV_TIMER_TYPE | UEV_TIMER_TS_TYPE => timer_swept now w
       | UEV_IO_TYPE =>
           match cb w, sweep_decision bits now w with
           | Some _, (true, ev) => io_cleared ev w
           | _, _ => w
           end
       end.

(** The [next_deadline] after the sweep has handled [w]. *)
Definition swept_deadline (now : Z) (w : uev_t) (next_deadline : Z) : Z :=
  if (active w =? 0) || negb (is_timer (type w)) then next_deadline
  else
    let d := t_deadline (timer_swept now w) in
    if negb (d =? 0) && (d <? next_deadline) then d else next_deadline.

(** How far a sweep of the list of [c] has come, seen from the state [s0]
    it started in: of the nodes [rest0] it set out to visit, those of
    [rest] are still ahead.  A watcher still ahead, or not concerned, is
    what it was and has had no call; a watcher behind has been handled
    once, at some reading [t] of the clock. *)
Definition sweep_progress (c : nat) (bits : Z) (rest0 rest : list nat)
           (s0 s : state) : Prop :=
  clock s = clock s0 /\ (ticks s0 <= ticks s)%nat /\
  (forall x, x ∈ rest -> x ∈ rest0) /\
  (forall cr, ctxs s0 !! c = Some cr ->
     exists cr', ctxs s !! c = Some cr' /\ running cr' = running cr /\
                 egh cr' = egh cr) /\
  forall a wa, uevs s0 !! a = Some wa ->
    (a ∉ rest0 \/ a ∈ rest ->
       core <$> uevs s !! a = Some (core wa) /\
       calls_of a (calls s) = calls_of a (calls s0)) /\
    (a ∈ rest0 -> a ∉ rest ->
       exists t, (ticks s0 <= t <= ticks s)%nat /\
         core <$> uevs s !! a =
           Some (core (watcher_swept bits (ms_at (clock s0) t) wa)) /\
         calls_of a (calls s) =
           calls_of a (calls s0) ++ sweep_calls bits (ms_at (clock s0) t) a wa).

(** The state in which the sweep of an iteration starts: the clock has
    been read once, the bits of the group of [c] have been taken, and the
    wait has been recorded. *)
Definition after_wait (c : nat) (cr : uev_ctx_t) (b : Z) (tw : Z)
           (s : state) : state :=
  with_waits (waits s ++ [tw])
    (with_ctxs (<[c := set_egh (Some (Z.ldiff b UEV_EG_MASK)) cr]> (ctxs s))
       (with_ticks (S (ticks s)) s)).

(** [n] calls of [uev_event_post] in a row. *)
Fixpoint uev_event_post_n (n : nat) (w : ptr) : M unit :=
  match n with
  | O => mret tt
  | S k => _ ← uev_event_post w; uev_event_post_n k w
  end.

(** The values that the C types of the timer fields hold once the timer
    has been set through [uev_timer_set]: two non-negative [int] and a
    [uint64_t]. *)
Definition timer_ok (w : uev_t) : Prop :=
  0 <= t_timeout w < 2 ^ 31 /\ 0 <= t_period w < 2 ^ 31 /\
  0 <= t_deadline w < 2 ^ 64.

(** A decision procedure for [registry] on concrete states. *)
Fixpoint dsegb (m : gmap nat uev_t) (c : nat) (p hd : ptr) (l : list nat)
  : bool :=
  match l with
  | [] => bool_decide (hd = None)
  | a :: l' =>
      bool_decide (hd = Some a) &&
      match m !! a with
      | Some w => bool_decide (prev w = p) && bool_decide (ctx w = Some c) &&
                  dsegb m c (Some a) (next w) l'
      | None => false
      end
  end.
Definition registryb (s : state) (c : nat) (l : list nat) : bool :=
  match ctxs s !! c with
  | Some cr => dsegb (uevs s) c None (watchers cr) l && bool_decide (NoDup l)
  | None => false
  end.

(** ** Example states

    A context at address 0 whose loop is running, and a clock that reads
    7 ms, then 8 ms, and so on. *)
Definition ex_clock (n : nat) : Z := 7000 + 1000 * Z.of_nat n.

Definition ex_ctx (bits : Z) (head : ptr) : uev_ctx_t :=
  mk_ctx 1 (Some bits) head 0.

Definition ex_state (ws : gmap nat uev_t) (bits : Z) (head : ptr) : state :=
  mk_state ws {[ 0%nat := ex_ctx bits head ]} 0 ex_clock 0 [] [] 0 [] false.

(** A one-shot timer at address 1 whose deadline, 5 ms, has passed. *)
Definition ex_oneshot : uev_t :=
  mk_uev None None 0 1 UEV_READ (Some 9%nat) 0 3 0 5 0 UEV_TIMER_TYPE (-1)
         (Some 0%nat).
Definition ex_oneshot_state : state :=
  ex_state {[ 1%nat := ex_oneshot ]} 0 (Some 1%nat).

(** The state after a post to the event watcher at [a]: the posted-flag
    is 1 and the EVENT bit of the group of its context is set. *)
Definition posted (a c : nat) (wa : uev_t) (cr : uev_ctx_t) (b : Z)
           (s : state) : state :=
  with_ctxs (<[c := set_egh (Some (Z.lor b UEV_EG_BIT_EVENT)) cr]> (ctxs s))
    (with_uevs (<[a := set_posted 1 wa]> (uevs s)) s).

(** An armed event watcher at address 1, nothing posted. *)
Definition ex_event : uev_t :=
  mk_uev None None 0 1 UEV_READ (Some 9%nat) 0 0 0 0 0 UEV_EVENT_TYPE (-1)
         (Some 0%nat).
Definition ex_event_state : state :=
  ex_state {[ 1%nat := ex_event ]} 0 (Some 1%nat).

(** [bits_within a b]: every bit of [a] is a bit of [b]. *)
Definition bits_within (a b : Z) : Prop := Z.land a b = a.

(** The I/O watcher at [a] has the requested mask [mask], and its
    pending events are among those of [mask] and of [UEV_EVENT_MASK]. *)
Definition pending_ok (a : nat) (mask : Z) (s : state) : Prop :=
  exists w, uevs s !! a = Some w /\ type w = UEV_IO_TYPE /\
            events w = mask /\
            bits_within (iot_events w) (Z.land mask UEV_EVENT_MASK).

(** The watchers on the selector's list are allocated and owned by a
    context whose event group exists. *)
Definition iolist_ok (s : state) : Prop :=
  forall k, k ∈ iolist s ->
    exists w c cr b, uevs s !! k = Some w /\ ctx w = Some c /\
                     ctxs s !! c = Some cr /\ egh cr = Some b.

(** The steps that involve the pending events of I/O watchers while
    their masks are held fixed: a pass of the selector over the sets
    that [select] returned, and an iteration of the loop of a context. *)
Inductive io_step : state -> state -> Prop :=
| io_step_select readfds writefds exceptfds s s' :
    iolist_ok s ->
    task_fn_collect readfds writefds exceptfds s = Ok tt s' ->
    io_step s s'
| io_step_dispatch portMAX_DELAY portTICK_PERIOD_MS fuel c cr b l nd nd' s s' :
    registry s c l -> (length l <= fuel)%nat ->
    ctxs s !! c = Some cr -> egh cr = Some b ->
    uev_run_iteration portMAX_DELAY portTICK_PERIOD_MS fuel c nd s = Ok nd' s' ->
    io_step s s'.

Inductive io_run : state -> state -> Prop :=
| io_run_refl s : io_run s s
| io_run_step s1 s2 s3 : io_run s1 s2 -> io_step s2 s3 -> io_run s1 s3.

(** The effect of a pass of the selector over watchers, for the sets
    [readfds], [writefds], [exceptfds]: no callback runs, the event groups
    stay, and each watcher gets, ORed into its pending events, some of
    the events found for it in the sets. *)
Definition selected (readfds writefds exceptfds : Z -> bool)
           (s s' : state) : Prop :=
  calls s' = calls s /\ iolist s' = iolist s /\
  (forall c cr b, ctxs s !! c = Some cr -> egh cr = Some b ->
     exists cr' b', ctxs s' !! c = Some cr' /\ egh cr' = Some b' /\
                    watchers cr' = watchers cr) /\
  forall a wa, uevs s !! a = Some wa ->
    exists add,
      bits_within add (task_fn_events readfds writefds exceptfds wa) /\
      uevs s' !! a = Some (set_iot_events (Z.lor (iot_events wa) add) wa).

(** An I/O watcher at address 1, on the descriptor 3, that asks for
    [UEV_READ] only; it is on the list of the context and on the list of
    the selector, and nothing is pending. *)
Definition ex_io : uev_t :=
  mk_uev None None 0 1 UEV_READ (Some 9%nat) 0 0 0 0 0 UEV_IO_TYPE 3
         (Some 0%nat).
Definition ex_io_state : state :=
  mk_state {[ 1%nat := ex_io ]} {[ 0%nat := ex_ctx 0 (Some 1%nat) ]}
           0 ex_clock 0 [] [1%nat] 0 [] false.

(** Descriptor sets that hold every descriptor. *)
Definition ex_all_fds (fd_ : Z) : bool := true.

(** The final state of a call, [s] itself when the call does not
    return. *)
Definition state_after {A} (m : M A) (s : state) : state :=
  match m s with Ok _ s' => s' | _ => s end.

(** The example above after a pass of the selector that found the
    descriptor readable, writable and in error, and then after an
    iteration of the loop. *)
Definition ex_io_selected : state :=
  state_after (task_fn_collect ex_all_fds ex_all_fds ex_all_fds) ex_io_state.
Definition ex_io_dispatched : state :=
  state_after (uev_run_iteration 0 10 1 0 DEADLINE_MAX) ex_io_selected.

(** The timer [w] after a successful [uev_timer_set w timeout period]
    made at the time [now] (in ms) while the [running] flag of its
    context is [run], links apart. *)
Definition timer_set_to (now run timeout period : Z) (w : uev_t) : uev_t :=
  let d := if negb (run =? 0) && negb (timeout =? 0)
           then wrap64 (now + timeout) else 0 in
  let w' := set_deadline d (set_period period (set_timeout timeout w)) in
  if 0 <? active w then w' else set_active 1 w'.

(** Whether a successful [uev_timer_set] (or [uev_timer_start]) links the
    watcher: it does when the watcher is not active and is not a
    threadsafe timer. *)
Definition links_on_start (w : uev_t) : bool :=
  negb (0 <? active w) && negb (bool_decide (type w = UEV_TIMER_TS_TYPE)).

(** A stopped one-shot timer at address 1: not active, not linked; the
    list of the context is empty. *)
Definition ex_stopped : uev_t :=
  mk_uev None None 0 0 UEV_READ (Some 9%nat) 0 0 0 0 0 UEV_TIMER_TYPE (-1)
         (Some 0%nat).
Definition ex_stopped_state : state :=
  ex_state {[ 1%nat := ex_stopped ]} 0 None.

(** A threadsafe timer at address 1, on the list of the context: active
    ([ex_ts 1]), or stopped by the loop after it fired ([ex_ts 0]). *)
Definition ex_ts (act : Z) : uev_t :=
  mk_uev None None 0 act UEV_READ (Some 9%nat) 0 3 0 5 0 UEV_TIMER_TS_TYPE (-1)
         (Some 0%nat).
Definition ex_ts_state (act : Z) : state :=
  ex_state {[ 1%nat := ex_ts act ]} 0 (Some 1%nat).

(** The round trip of a timer: created, set, started, stopped. *)
Definition timer_round_trip (c w f : ptr) (ar t0 p0 threadsafe ta tb : Z)
  : M (Z * Z * Z * Z) :=
  rc1 ← uev_timer_init2 c w f ar t0 p0 threadsafe;
  rc2 ← uev_timer_set w ta tb;
  rc3 ← uev_timer_start w;
  rc4 ← uev_timer_stop w;
  mret (rc1, rc2, rc3, rc4).

(** An allocated watcher that has not been initialised (zero-filled), at
    address 1; the list of the context is empty. *)
Definition ex_blank : uev_t :=
  mk_uev None None 0 0 0 None 0 0 0 0 0 UEV_IO_TYPE 0 None.
Definition ex_blank_state : state := ex_state {[ 1%nat := ex_blank ]} 0 None.

(** The timers on the list [l] hold values that [uev_timer_set] accepts,
    and those that are not threadsafe are active (a timer of that kind
    is on the list from its start to its stop). *)
Definition timers_ok (s : state) (l : list nat) : Prop :=
  forall k w, k ∈ l -> uevs s !! k = Some w -> is_timer (type w) = true ->
    timer_ok w /\ (type w = UEV_TIMER_TYPE -> 0 < active w).

(** How far the pass that starts the timers has come on entry of
    [uev_run], seen from the state [s0] it started in, for the timer at
    [a] of the list [l]: still ahead and untouched, or set again with its
    own timeout and period at some reading [t] of the clock.  No callback
    runs during the pass. *)
Definition rearm_progress (c a : nat) (wa : uev_t) (l rest : list nat)
           (s0 s : state) : Prop :=
  clock s = clock s0 /\ (ticks s0 <= ticks s)%nat /\ calls s = calls s0 /\
  (exists cr b, ctxs s !! c = Some cr /\ running cr = 1 /\ egh cr = Some b) /\
  timers_ok s l /\
  (a ∈ rest -> core <$> uevs s !! a = Some (core wa)) /\
  (a ∉ rest ->
     exists t, (ticks s0 <= t < ticks s)%nat /\
       core <$> uevs s !! a =
         Some (core (timer_set_to (ms_at (clock s0) t) 1
                                  (t_timeout wa) (t_period wa) wa))).

(** A clock of which each reading is one second after the one before: the
    loop is stalled between any two readings for longer than the periods
    of the examples. *)
Definition ex_stall_clock (n : nat) : Z := 1000000 * (1 + Z.of_nat n).

(** A context at address 0 whose loop has not been entered, with an empty
    list, and an allocated watcher at address 1. *)
Definition ex_fresh_state : state :=
  mk_state {[ 1%nat := ex_blank ]} {[ 0%nat := mk_ctx 0 (Some 0) None 0 ]}
           0 ex_stall_clock 0 [] [] 0 [] false.

(** The state after [uev_timer_init(ctx, w, cb, 0, timeout, 100)]: a
    periodic timer at address 1, active and on the list of the context,
    not armed since the loop is not running.  [ex_periodic timeout] is
    the watcher in that state. *)
Definition ex_periodic_state (timeout : Z) : state :=
  state_after
    (uev_timer_init (Some 0%nat) (Some 1%nat) (Some 9%nat) 0 timeout 100)
    ex_fresh_state.
Definition ex_periodic (timeout : Z) : uev_t :=
  mk_uev None None 0 1 UEV_READ (Some 9%nat) 0 timeout 100 0 0 UEV_TIMER_TYPE
         (-1) (Some 0%nat).

(** The entry of [uev_run] followed by three iterations of its loop. *)
Definition uev_run_three (portMAX_DELAY portTICK_PERIOD_MS : Z)
           (fuel c : nat) (flags : Z) : M Z :=
  nd0 ← uev_run_entry fuel c flags;
  nd1 ← uev_run_iteration portMAX_DELAY portTICK_PERIOD_MS fuel c nd0;
  nd2 ← uev_run_iteration portMAX_DELAY portTICK_PERIOD_MS fuel c nd1;
  uev_run_iteration portMAX_DELAY portTICK_PERIOD_MS fuel c nd2.

(** The example with the timeout 5 after the entry of [uev_run]: the
    timer is armed. *)
Definition ex_periodic_armed : state :=
  state_after (uev_run_entry 1 0 0) (ex_periodic_state 5).

(** An event watcher at address 1 that has been initialised and stopped:
    not active, not on the list of the context. *)
Definition ex_idle_state : state :=
  ex_state {[ 1%nat := set_active 0 ex_event ]} 0 None.

(** What the pass on entry of [uev_run] keeps, seen from the state [s0]
    in which it started on the list [l] of the context [c]: no callback
    runs and no wait is made, the [running] flag is set, no bit of the
    group is cleared, the list and the allocated watchers stay, the
    watchers that are not timers are as they were, and the timers hold
    accepted values. *)
Definition entry_pass (c : nat) (l : list nat) (s0 s : state) : Prop :=
  clock s = clock s0 /\ (ticks s0 <= ticks s)%nat /\
  calls s = calls s0 /\ waits s = waits s0 /\ iolist s = iolist s0 /\
  (exists cr b, ctxs s !! c = Some cr /\ running cr = 1 /\ egh cr = Some b /\
     forall cr0 b0, ctxs s0 !! c = Some cr0 -> egh cr0 = Some b0 ->
                    bits_within b0 b) /\
  timers_ok s l /\ registry s c l /\
  (forall k, is_Some (uevs s0 !! k) -> is_Some (uevs s !! k)) /\
  (forall k wk, uevs s0 !! k = Some wk -> is_timer (type wk) = false ->
     core <$> uevs s !! k = Some (core wk)).

(** What a sweep has found for [next_deadline] when the nodes [rest] of
    the list [l] are still ahead, seen from the state [s0] it started in:
    not 0; either the [DEADLINE_MAX] it started with or the deadline of a
    timer behind; and not above the deadline, if that is not 0, of any
    timer behind that was active when the sweep started. *)
Definition sweep_deadline (l rest : list nat) (s0 : state) (nd : Z)
           (s : state) : Prop :=
  nd <> 0 /\
  (nd = DEADLINE_MAX \/
   exists a w, a ∈ l /\ (a ∉ rest) /\ uevs s !! a = Some w /\
               is_timer (type w) = true /\ t_deadline w = nd) /\
  forall a wa w, a ∈ l -> a ∉ rest ->
    uevs s0 !! a = Some wa -> active wa <> 0 -> is_timer (type wa) = true ->
    uevs s !! a = Some w -> t_deadline w <> 0 -> nd <= t_deadline w.

(** The first pass, over the list [l], asks [select] about the descriptor
    [fd_] for the event [ev]: some watcher of [l] is active, has this
    descriptor, has nothing pending and requests [ev]. *)
Definition polled (l : list nat) (s : state) (ev : Z) (fd_ : Z) : Prop :=
  exists k wr, k ∈ l /\ uevs s !! k = Some wr /\
    0 < active wr /\ fd wr = fd_ /\ 0 <= fd_ /\ iot_events wr = 0 /\
    Z.land (events wr) ev <> 0.

(** What the first pass has built after the watchers of [l]: the sets hold
    the descriptors asked about (and [readfds] the wake-up socket), and
    [maxfd] bounds them all. *)
Definition request_of (fd_local : Z) (l : list nat) (s : state)
           (rq : fd_request) : Prop :=
  (forall fd_, fd_ ∈ req_read rq <-> fd_ = fd_local \/ polled l s UEV_READ fd_) /\
  (forall fd_, fd_ ∈ req_write rq <-> polled l s UEV_WRITE fd_) /\
  (forall fd_, fd_ ∈ req_except rq <-> polled l s UEV_ERROR fd_) /\
  fd_local <= req_maxfd rq /\
  (forall ev fd_, polled l s ev fd_ -> fd_ <= req_maxfd rq).



(** What the walk of [uev_exit] over the list [l] has done when the nodes
    [rest] are still ahead, seen from the state [s0] it started in: the
    watchers behind are stopped if they were active, every other watcher
    is as it was (places in the list apart), and no callback has run. *)
Definition exit_progress (c : nat) (l rest : list nat) (s0 s : state)
  : Prop :=
  calls s = calls s0 /\ errno s = errno s0 /\ iolist s = iolist s0 /\
  (forall c', c' <> c -> ctxs s !! c' = ctxs s0 !! c') /\
  (forall cr0, ctxs s0 !! c = Some cr0 ->
     exists cr, ctxs s !! c = Some cr /\ egh cr = egh cr0) /\
  forall k wk, uevs s0 !! k = Some wk ->
    core <$> uevs s !! k =
      Some (core (if bool_decide (k ∈ l) && negb (bool_decide (k ∈ rest)) &&
                     (0 <? active wk)
                  then set_active 0 wk else wk)).

(** * Reasoning about library calls *)

Lemma wp_elim {A} (m : M A) Q s :
  wp m Q s -> exists a s', m s = Ok a s' /\ Q a s'.
Proof. unfold wp. destruct (m s); [eauto | tauto | tauto]. Qed.

Lemma wp_intro {A} (m : M A) (Q : A -> state -> Prop) s a s' :
  m s = Ok a s' -> Q a s' -> wp m Q s.
Proof. unfold wp. intros ->. auto. Qed.

Lemma wp_ret {A} (a : A) (Q : A -> state -> Prop) s : Q a s -> wp (mret a) Q s.
Proof. auto. Qed.

Lemma wp_bind {A B} (m : M A) (k : A -> M B) Q s :
  wp m (fun a s' => wp (k a) Q s') s -> wp (m ≫= k) Q s.
Proof.
  unfold wp, mbind, M_bind, bind. destruct (m s); auto.
Qed.

Lemma wp_mono {A} (m : M A) (Q Q' : A -> state -> Prop) s :
  wp m Q s -> (forall a s', Q a s' -> Q' a s') -> wp m Q' s.
Proof. unfold wp. destruct (m s); auto. Qed.

Lemma wp_load w r (Q : uev_t -> state -> Prop) s :
  uevs s !! w = Some r -> Q r s -> wp (load w) Q s.
Proof. unfold wp, load. intros ->. auto. Qed.

Lemma wp_modify w f r (Q : unit -> state -> Prop) s :
  uevs s !! w = Some r ->
  Q tt (with_uevs (<[w := f r]> (uevs s)) s) ->
  wp (modify w f) Q s.
Proof. unfold wp, modify. intros ->. auto. Qed.

Lemma wp_load_ctx c r (Q : uev_ctx_t -> state -> Prop) s :
  ctxs s !! c = Some r -> Q r s -> wp (load_ctx c) Q s.
Proof. unfold wp, load_ctx. intros ->. auto. Qed.

Lemma wp_modify_ctx c f r (Q : unit -> state -> Prop) s :
  ctxs s !! c = Some r ->
  Q tt (with_ctxs (<[c := f r]> (ctxs s)) s) ->
  wp (modify_ctx c f) Q s.
Proof. unfold wp, modify_ctx. intros ->. auto. Qed.

Lemma wp_set_errno e (Q : unit -> state -> Prop) s :
  Q tt (with_errno e s) -> wp (set_errno e) Q s.
Proof. auto. Qed.

Lemma wp_when (b : bool) (m : M unit) (Q : unit -> state -> Prop) s :
  (b = true -> wp m Q s) -> (b = false -> Q tt s) -> wp (when b m) Q s.
Proof. destruct b; simpl; intros H1 H2; [apply H1 | apply H2]; reflexivity. Qed.

(** ** List segments *)

Lemma links_Some m a w : m !! a = Some w -> links m a = Some (next w, prev w).
Proof. unfold links. intros ->. reflexivity. Qed.

Lemma links_inv m a n p :
  links m a = Some (n, p) -> exists w, m !! a = Some w /\ next w = n /\ prev w = p.
Proof.
  unfold links. destruct (m !! a) as [w|]; simpl; [| discriminate].
  intros [= <- <-]. eauto.
Qed.

Lemma dseg_frame m m' l : forall p hd q tl,
  (forall a, a ∈ l -> links m' a = links m a) ->
  dseg m p hd l q tl -> dseg m' p hd l q tl.
Proof.
  induction l as [| a l IH]; intros p hd q tl Hl; simpl; [tauto |].
  intros (-> & w & Hw & Hp & Hrest).
  split; [reflexivity |].
  assert (Ha : links m' a = Some (next w, prev w)).
  { rewrite Hl by (left). now apply links_Some. }
  apply links_inv in Ha as (w' & Hw' & Hn & Hp').
  exists w'. rewrite Hn, Hp'. repeat split; auto.
  apply IH; auto. intros b Hb. apply Hl. now right.
Qed.

Lemma dseg_app m l1 : forall l2 p hd q tl,
  dseg m p hd (l1 ++ l2) q tl <->
  exists q1 mid, dseg m p hd l1 q1 mid /\ dseg m q1 mid l2 q tl.
Proof.
  induction l1 as [| a l1 IH]; intros l2 p hd q tl; simpl.
  - split.
    + intros H. exists p, hd. auto.
    + intros (q1 & mid & (-> & ->) & H). exact H.
  - split.
    + intros (-> & w & Hw & Hp & H). apply IH in H as (q1 & mid & H1 & H2).
      exists q1, mid. split; [| exact H2]. split; [reflexivity |]. eauto.
    + intros (q1 & mid & (-> & w & Hw & Hp & H1) & H2).
      split; [reflexivity |]. exists w. repeat split; auto.
      apply IH. eauto.
Qed.

Lemma dseg_head m p hd l q tl :
  dseg m p hd l q tl -> hd = match l with a :: _ => Some a | [] => tl end.
Proof. destruct l; simpl; [tauto |]. intros (-> & _). reflexivity. Qed.

Lemma dseg_last m l : forall p hd q tl,
  dseg m p hd l q tl -> q = match last l with Some z => Some z | None => p end.
Proof.
  induction l as [| a l IH]; intros p hd q tl; simpl; [tauto |].
  intros (-> & w & Hw & Hp & H). apply IH in H. rewrite H, last_cons.
  destruct (last l); reflexivity.
Qed.

(** Two walks from the same pointer to [NULL] visit the same nodes. *)
Lemma dseg_unique m l : forall l' p p' hd q q',
  dseg m p hd l q None -> dseg m p' hd l' q' None -> l = l'.
Proof.
  induction l as [| a l IH]; intros [| a' l'] p p' hd q q'; simpl.
  - reflexivity.
  - intros (-> & _) (? & _). discriminate.
  - intros (-> & _) (? & _). discriminate.
  - intros (-> & w & Hw & _ & H) ([= <-] & w' & Hw' & _ & H').
    rewrite Hw in Hw'. injection Hw' as <-.
    f_equal. eapply IH; eauto.
Qed.

Lemma dseg_NoDup m l : forall p hd q, dseg m p hd l q None -> NoDup l.
Proof.
  induction l as [| a l IH]; intros p hd q; simpl; [constructor |].
  intros (-> & w & Hw & Hp & H). constructor; [| eauto].
  intros Hin. apply list_elem_of_split in Hin as (l1 & l2 & ->).
  pose proof H as H0.
  apply dseg_app in H as (q1 & mid & _ & H2). simpl in H2.
  destruct H2 as (-> & w' & Hw' & _ & H2).
  rewrite Hw in Hw'. injection Hw' as <-.
  pose proof (dseg_unique _ _ _ _ _ _ _ _ H0 H2) as Heq.
  apply (f_equal length) in Heq. rewrite length_app in Heq. simpl in Heq. lia.
Qed.

Ltac st_simpl :=
  cbn [uevs ctxs errno clock ticks calls iolist wakes waits in_isr
       with_uevs with_ctxs with_errno with_ticks with_calls with_iolist
       with_wakes with_waits] in *.

Ltac wp_lookup :=
  st_simpl;
  first [ eassumption
        | apply lookup_insert_eq
        | rewrite lookup_insert_ne by congruence; wp_lookup ].

Ltac wp_step :=
  lazymatch goal with
  | |- wp (mbind _ _) _ _ => apply wp_bind
  | |- wp (mret _) _ _ => apply wp_ret
  | |- wp (load _) _ _ => eapply wp_load; [wp_lookup |]
  | |- wp (modify _ _) _ _ => eapply wp_modify; [wp_lookup |]
  | |- wp (load_ctx _) _ _ => eapply wp_load_ctx; [wp_lookup |]
  | |- wp (modify_ctx _ _) _ _ => eapply wp_modify_ctx; [wp_lookup |]
  | |- wp (set_errno _) _ _ => apply wp_set_errno
  end; cbv beta.

Ltac wp_steps := repeat wp_step.

Lemma dseg_set_next_last m m' l z p hd q tl tl' :
  NoDup (l ++ [z]) ->
  dseg m p hd (l ++ [z]) q tl ->
  (forall k, k ∈ l -> links m' k = links m k) ->
  (exists w w', m !! z = Some w /\ m' !! z = Some w' /\
                next w' = tl' /\ prev w' = prev w) ->
  dseg m' p hd (l ++ [z]) q tl'.
Proof.
  intros Hnd Hd Hfr (w & w' & Hw & Hw' & Hn & Hp).
  apply dseg_app in Hd as (q1 & mid & H1 & H2).
  apply dseg_app. exists q1, mid. split.
  - eapply dseg_frame; eauto.
  - simpl in *. destruct H2 as (-> & w0 & Hw0 & Hp0 & Hnx & ->).
    rewrite Hw in Hw0. injection Hw0 as <-.
    split; [reflexivity |]. exists w'. repeat split; auto. congruence.
Qed.

Lemma dseg_set_prev_head m m' l n p p' q tl :
  NoDup (n :: l) ->
  dseg m p (Some n) (n :: l) q tl ->
  (forall k, k ∈ l -> links m' k = links m k) ->
  (exists w w', m !! n = Some w /\ m' !! n = Some w' /\
                next w' = next w /\ prev w' = p') ->
  dseg m' p' (Some n) (n :: l) q tl.
Proof.
  intros Hnd Hd Hfr (w & w' & Hw & Hw' & Hn & Hp).
  simpl in *. destruct Hd as (_ & w0 & Hw0 & Hp0 & Hrest).
  rewrite Hw in Hw0. injection Hw0 as <-.
  split; [reflexivity |]. exists w'. repeat split; auto.
  rewrite Hn. eapply dseg_frame; eauto.
Qed.

Lemma links_insert (m : gmap nat uev_t) k w j :
  links (<[k := w]> m) j =
  if decide (k = j) then Some (next w, prev w) else links m j.
Proof.
  unfold links. rewrite lookup_insert. destruct (decide (k = j)); reflexivity.
Qed.

Lemma core_insert (m : gmap nat uev_t) k w w' j :
  m !! k = Some w -> core w' = core w ->
  core <$> (<[k := w']> m) !! j = core <$> m !! j.
Proof.
  intros Hk Hc. rewrite lookup_insert. destruct (decide (k = j)) as [<- |].
  - rewrite Hk. simpl. now rewrite Hc.
  - reflexivity.
Qed.

Lemma core_insert' (m : gmap nat uev_t) k w' j :
  core <$> m !! k = Some (core w') ->
  core <$> (<[k := w']> m) !! j = core <$> m !! j.
Proof.
  intros Hk. rewrite lookup_insert. destruct (decide (k = j)) as [<- |].
  - now rewrite Hk.
  - reflexivity.
Qed.

Ltac lk :=
  st_simpl;
  repeat first [ rewrite lookup_insert_eq
               | rewrite lookup_insert_ne by congruence ];
  repeat match goal with
         | H : ?m !! ?k = Some _ |- context [?m !! ?k] => rewrite H
         end.

Ltac solve_cores :=
  let k := fresh "k" in
  intros k; st_simpl;
  repeat (rewrite core_insert'; [| lk; reflexivity]);
  reflexivity.

Ltac lnk :=
  st_simpl;
  repeat (rewrite links_insert;
          first [ rewrite decide_True by congruence
                | rewrite decide_False by congruence ]).

Ltac solve_env := unfold same_env; st_simpl; repeat split; reflexivity.

Lemma same_env_refl s : same_env s s.
Proof. repeat split. Qed.

Lemma same_cores_refl s : same_cores s s.
Proof. intros k. reflexivity. Qed.

Lemma same_cores_trans s1 s2 s3 :
  same_cores s1 s2 -> same_cores s2 s3 -> same_cores s1 s3.
Proof. intros H1 H2 k. now rewrite H2, H1. Qed.

Lemma same_env_trans s1 s2 s3 :
  same_env s1 s2 -> same_env s2 s3 -> same_env s1 s3.
Proof.
  unfold same_env. intros (?&?&?&?&?&?&?&?) (?&?&?&?&?&?&?&?).
  repeat split; congruence.
Qed.

Lemma wp_UEV_REMOVE s c cr a wa pre rest q :
  ctxs s !! c = Some cr ->
  uevs s !! a = Some wa ->
  NoDup (pre ++ a :: rest) ->
  dseg (uevs s) None (watchers cr) (pre ++ a :: rest) q None ->
  wp (_UEV_REMOVE a c) (fun _ s' => removed c cr a wa pre rest s s') s.
Proof.
  intros Hc Ha Hnd Hd.
  apply dseg_app in Hd as (q1 & mid & Hpre & Hrest).
  simpl in Hrest. destruct Hrest as (-> & wa' & Ha' & Hprev & Hrest).
  rewrite Ha in Ha'. injection Ha' as <-.
  assert (Hapre : a ∉ pre).
  { intros Hin. apply NoDup_app in Hnd as (_ & Hnd & _).
    apply (Hnd a Hin). left. }
  assert (Harest : a ∉ rest).
  { apply NoDup_app in Hnd as (_ & _ & Hnd). now inversion Hnd. }
  assert (Hdisj : forall k, k ∈ pre -> k ∉ rest).
  { intros k Hk Hk'. apply NoDup_app in Hnd as (_ & Hnd & _).
    apply (Hnd k Hk). now right. }
  assert (Hndpre : NoDup pre) by (apply NoDup_app in Hnd; tauto).
  assert (Hndrest : NoDup rest).
  { apply NoDup_app in Hnd as (_ & _ & Hnd). now inversion Hnd. }
  unfold _UEV_REMOVE.
  wp_step. wp_step. cbn zeta.
  destruct pre as [| p pre' _] using rev_ind.
  - (* [a] is the head *)
    simpl in Hpre. destruct Hpre as (Hhd & ->).
    rewrite Hprev.
    destruct rest as [| n rest'].
    + simpl in Hrest. destruct Hrest as (Hnx & ->). rewrite Hnx.
      wp_steps. apply wp_when; intros Hb; [wp_step |].
      2:{ apply bool_decide_eq_false in Hb. congruence. }
      split; [solve_env |]. split; [solve_cores |].
      split; [lnk; reflexivity |].
      exists (set_watchers None cr), None, None. st_simpl.
      repeat split; simpl; congruence.
    + simpl in Hrest. destruct Hrest as (Hnx & wn & Hn & Hpn & Hrest).
      rewrite Hnx.
      assert (a <> n) by (intros ->; apply Harest; left).
      wp_steps. apply wp_when; intros Hb; [wp_step |].
      2:{ apply bool_decide_eq_false in Hb. congruence. }
      split; [solve_env |]. split; [solve_cores |].
      split; [lnk; reflexivity |].
      exists (set_watchers (Some n) cr), None, q. st_simpl.
      rewrite Hnx.
      repeat split; try reflexivity.
      eapply dseg_set_prev_head.
      * exact Hndrest.
      * simpl. split; [reflexivity |]. exists wn. eauto.
      * intros k Hk.
        assert (a <> k) by (intros ->; apply Harest; now right).
        assert (n <> k) by (intros ->; now inversion Hndrest).
        lnk. reflexivity.
      * exists wn, (set_prev None wn). lk. repeat split; reflexivity.
  - (* [a] has the predecessor [p] *)
    pose proof (dseg_last _ _ _ _ _ _ Hpre) as Hq1. rewrite last_snoc in Hq1.
    rewrite Hq1 in Hprev, Hpre. clear Hq1 q1.
    assert (Hhd : watchers cr <> Some a).
    { rewrite (dseg_head _ _ _ _ _ _ Hpre). intros Heq.
      apply Hapre. destruct pre'; injection Heq as ->; left. }
    pose proof Hpre as Hpre0.
    apply dseg_app in Hpre0 as (q0 & mid & _ & Hp).
    simpl in Hp. destruct Hp as (-> & wp & Hwp & _ & Hnp & _).
    assert (Hpa : p <> a).
    { intros ->. apply Hapre. apply elem_of_app. right. left. }
    assert (Hprest : p ∉ rest).
    { apply Hdisj. apply elem_of_app. right. left. }
    rewrite Hprev.
    destruct rest as [| n rest'].
    + simpl in Hrest. destruct Hrest as (Hnx & ->). rewrite Hnx.
      wp_steps. apply wp_when; intros Hb.
      { apply bool_decide_eq_true in Hb. congruence. }
      split; [solve_env |]. split; [solve_cores |].
      split; [lnk; reflexivity |].
      exists cr, (Some p), (Some p). st_simpl.
      split; [now rewrite insert_id |].
      rewrite Hnx.
      repeat split; try reflexivity.
      eapply dseg_set_next_last.
      * exact Hndpre.
      * exact Hpre.
      * intros k Hk.
        assert (a <> k).
        { intros ->. apply Hapre. apply elem_of_app. now left. }
        assert (p <> k).
        { intros ->. apply NoDup_app in Hndpre as (_ & Hx & _).
          apply (Hx k Hk). left. }
        lnk. reflexivity.
      * exists wp, (set_next None wp). lk. repeat split; reflexivity.
    + simpl in Hrest. destruct Hrest as (Hnx & wn & Hn & Hpn & Hrest).
      rewrite Hnx.
      assert (a <> n) by (intros ->; apply Harest; left).
      assert (p <> n) by (intros ->; apply Hprest; left).
      wp_steps. apply wp_when; intros Hb.
      { apply bool_decide_eq_true in Hb. congruence. }
      split; [solve_env |]. split; [solve_cores |].
      split; [lnk; reflexivity |].
      exists cr, (Some p), q. st_simpl.
      split; [now rewrite insert_id |].
      rewrite Hnx.
      repeat split; try reflexivity.
      * eapply dseg_set_next_last.
        -- exact Hndpre.
        -- exact Hpre.
        -- intros k Hk.
           assert (a <> k).
           { intros ->. apply Hapre. apply elem_of_app. now left. }
           assert (p <> k).
           { intros ->. apply NoDup_app in Hndpre as (_ & Hx & _).
             apply (Hx k Hk). left. }
           assert (n <> k).
           { intros ->. apply (Hdisj k); [apply elem_of_app; now left | left]. }
           lnk. reflexivity.
        -- exists wp, (set_next (Some n) wp). lk. repeat split; reflexivity.
      * eapply dseg_set_prev_head.
        -- exact Hndrest.
        -- simpl. split; [reflexivity |]. exists wn. eauto.
        -- intros k Hk.
           assert (a <> k) by (intros ->; apply Harest; now right).
           assert (n <> k) by (intros ->; now inversion Hndrest).
           assert (p <> k) by (intros ->; apply Hprest; now right).
           lnk. reflexivity.
        -- exists wn, (set_prev (Some p) wn). lk. repeat split; reflexivity.
Qed.

Lemma with_uevs_id s : with_uevs (uevs s) s = s.
Proof. destruct s; reflexivity. Qed.

Lemma with_ctxs_id s : with_ctxs (ctxs s) s = s.
Proof. destruct s; reflexivity. Qed.

Lemma set_links_id w :
  next w = None -> prev w = None ->
  set_prev None w = w /\ set_next None w = w.
Proof. destruct w; simpl; intros -> ->; split; reflexivity. Qed.

(** [_UEV_REMOVE] on a node that is not on the list changes nothing. *)
Lemma UEV_REMOVE_detached s c cr a wa :
  ctxs s !! c = Some cr -> watchers cr <> Some a ->
  uevs s !! a = Some wa -> next wa = None -> prev wa = None ->
  _UEV_REMOVE a c s = Ok tt s.
Proof.
  intros Hc Hhd Ha Hn Hp.
  destruct (set_links_id wa Hn Hp) as [E1 E2].
  unfold _UEV_REMOVE, mbind, M_bind, bind, load, modify, load_ctx.
  rewrite Ha, Hn, Hp. simpl. rewrite Ha. st_simpl.
  rewrite lookup_insert_eq. st_simpl.
  rewrite E1, E2, !insert_insert_eq, (insert_id _ _ _ Ha).
  rewrite Hc. rewrite bool_decide_eq_false_2 by assumption.
  simpl. rewrite !with_uevs_id. reflexivity.
Qed.

Lemma dseg_cons m p a l q tl :
  (exists w, m !! a = Some w /\ prev w = p /\
             dseg m (Some a) (next w) l q tl) ->
  dseg m p (Some a) (a :: l) q tl.
Proof. intros H. simpl. split; [reflexivity | exact H]. Qed.

(** [_UEV_INSERT] of a node that is not on the list. *)
Lemma wp_UEV_INSERT s c cr a wa l q :
  ctxs s !! c = Some cr ->
  uevs s !! a = Some wa ->
  a ∉ l -> NoDup l ->
  dseg (uevs s) None (watchers cr) l q None ->
  wp (_UEV_INSERT a c)
     (fun _ s' =>
        same_env s s' /\ same_cores s s' /\
        ctxs s' = <[c := set_watchers (Some a) cr]> (ctxs s) /\
        exists q', dseg (uevs s') None (Some a) (a :: l) q' None) s.
Proof.
  intros Hc Ha Hal Hnd Hd.
  unfold _UEV_INSERT. wp_steps. cbn zeta. wp_steps.
  destruct l as [| n l'].
  - simpl in Hd. destruct Hd as (Hhd & ->). rewrite Hhd.
    wp_steps.
    split; [solve_env |]. split; [solve_cores |]. split; [reflexivity |].
    exists (Some a). simpl. split; [reflexivity |].
    eexists. lk. repeat split; reflexivity.
  - pose proof Hd as Hd0.
    simpl in Hd. destruct Hd as (Hhd & wn & Hn & Hpn & Hrest). rewrite Hhd.
    assert (a <> n) by (intros ->; apply Hal; left).
    wp_steps.
    split; [solve_env |]. split; [solve_cores |]. split; [reflexivity |].
    exists q. apply dseg_cons.
    exists (set_prev None (set_next (Some n) wa)).
    split; [lk; reflexivity |]. split; [reflexivity |].
    cbn [next set_prev set_next].
    rewrite Hhd in Hd0.
    eapply dseg_set_prev_head; [exact Hnd | exact Hd0 | |].
    + intros k Hk.
      assert (a <> k) by (intros ->; apply Hal; now right).
      assert (n <> k) by (intros ->; now inversion Hnd).
      lnk. reflexivity.
    + exists wn, (set_prev (Some a) wn). lk. repeat split; reflexivity.
Qed.

(** ** The primitives *)

Lemma wp_uev_watcher_active a wa (Q : Z -> state -> Prop) s :
  uevs s !! a = Some wa ->
  Q (if 0 <? active wa then 1 else 0) s ->
  wp (_uev_watcher_active (Some a)) Q s.
Proof.
  intros Ha HQ. unfold _uev_watcher_active. wp_steps. exact HQ.
Qed.

Lemma wp_uev_set_flags c cr b bits (Q : unit -> state -> Prop) s :
  ctxs s !! c = Some cr -> egh cr = Some b ->
  Q tt (with_ctxs (<[c := set_egh (Some (Z.lor b bits)) cr]> (ctxs s)) s) ->
  wp (_uev_set_flags c bits) Q s.
Proof.
  intros Hc Hb HQ.
  assert (wp (xEventGroupSetBits c bits) Q s) as H.
  { unfold xEventGroupSetBits. wp_steps. rewrite Hb. wp_steps. exact HQ. }
  unfold wp, _uev_set_flags, xEventGroupSetBitsFromISR in *.
  destruct (in_isr s); exact H.
Qed.

Lemma wp_uev_timer_now (Q : Z -> state -> Prop) s :
  Q (now_us s) (with_ticks (S (ticks s)) s) -> wp _uev_timer_now Q s.
Proof.
  intros HQ. unfold wp, _uev_timer_now, mbind, M_bind, bind, esp_timer_get_time.
  unfold now_us, us_at in HQ. cbv zeta in HQ.
  destruct (sint64 (clock s (ticks s)) <=? 0); exact HQ.
Qed.

Lemma wp_invoke f w a ev (Q : unit -> state -> Prop) s :
  Q tt (with_calls (calls s ++ [mk_call f w a ev]) s) -> wp (invoke f w a ev) Q s.
Proof. auto. Qed.

Lemma wp_deref a (Q : nat -> state -> Prop) s : Q a s -> wp (deref (Some a)) Q s.
Proof. auto. Qed.

Lemma wp_when_noop (b : bool) (Q : unit -> state -> Prop) s :
  Q tt s -> wp (when b (mret tt)) Q s.
Proof. destruct b; auto. Qed.

Ltac wp_prim :=
  lazymatch goal with
  | |- wp (mbind _ _) _ _ => apply wp_bind
  | |- wp (mret _) _ _ => apply wp_ret
  | |- wp (ret _) _ _ => apply wp_ret
  | |- wp (load _) _ _ => eapply wp_load; [wp_lookup |]
  | |- wp (modify _ _) _ _ => eapply wp_modify; [wp_lookup |]
  | |- wp (load_ctx _) _ _ => eapply wp_load_ctx; [wp_lookup |]
  | |- wp (modify_ctx _ _) _ _ => eapply wp_modify_ctx; [wp_lookup |]
  | |- wp (set_errno _) _ _ => apply wp_set_errno
  | |- wp (_uev_watcher_active (Some _)) _ _ =>
      eapply wp_uev_watcher_active; [wp_lookup |]
  | |- wp (_uev_set_flags _ _) _ _ =>
      eapply wp_uev_set_flags; [wp_lookup | eassumption |]
  | |- wp _uev_timer_now _ _ => apply wp_uev_timer_now
  | |- wp (invoke _ _ _ _) _ _ => apply wp_invoke
  | |- wp (deref (Some _)) _ _ => apply wp_deref
  | |- wp _uev_critical_enter _ _ => apply wp_ret
  | |- wp _uev_critical_exit _ _ => apply wp_ret
  | |- wp (_uev_lock _) _ _ => apply wp_ret
  | |- wp (_uev_unlock _) _ _ => apply wp_ret
  | |- wp (when _ _uev_critical_enter) _ _ => apply wp_when_noop
  | |- wp (when _ _uev_critical_exit) _ _ => apply wp_when_noop
  | |- wp (when _ (_uev_lock _)) _ _ => apply wp_when_noop
  | |- wp (when _ (_uev_unlock _)) _ _ => apply wp_when_noop
  | |- wp (when true _) _ _ => unfold when
  | |- wp (when false _) _ _ => apply wp_ret
  end; cbv beta iota; cbn [negb].

Ltac wp_run := repeat wp_prim.

(** ** Cores *)

Lemma core_lookup (m m' : gmap nat uev_t) k w :
  core <$> m' !! k = core <$> m !! k -> m !! k = Some w ->
  exists w', m' !! k = Some w' /\ core w' = core w.
Proof.
  intros H Hk. rewrite Hk in H. simpl in H.
  destruct (m' !! k) as [w' |]; simpl in H; [| discriminate].
  exists w'. split; [reflexivity | congruence].
Qed.

Lemma core_fields w w' :
  core w' = core w ->
  iot_events w' = iot_events w /\ active w' = active w /\
  events w' = events w /\ cb w' = cb w /\ arg w' = arg w /\
  t_timeout w' = t_timeout w /\ t_period w' = t_period w /\
  t_deadline w' = t_deadline w /\ e_posted w' = e_posted w /\
  type w' = type w /\ fd w' = fd w /\ ctx w' = ctx w.
Proof.
  destruct w, w'. unfold core. simpl. intros [=]. subst. repeat split.
Qed.

Lemma same_cores_owned s s' c (l : list nat) :
  same_cores s s' ->
  (forall k, k ∈ l -> exists w, uevs s !! k = Some w /\ ctx w = Some c) ->
  forall k, k ∈ l -> exists w, uevs s' !! k = Some w /\ ctx w = Some c.
Proof.
  intros Hsc Hown k Hk. destruct (Hown k Hk) as (w & Hw & Hc).
  destruct (core_lookup _ _ _ _ (Hsc k) Hw) as (w' & Hw' & Hcore).
  exists w'. split; [exact Hw' |].
  apply core_fields in Hcore. destruct Hcore as (_&_&_&_&_&_&_&_&_&_&_&->).
  exact Hc.
Qed.

(** ** Moving along the list *)

Lemma sweep_inv_advance c pre a rest s wa :
  sweep_inv c pre (Some a) (a :: rest) s -> uevs s !! a = Some wa ->
  sweep_inv c (pre ++ [a]) (next wa) rest s.
Proof.
  intros (cr & q1 & q & Hc & Hpre & Hrest & Hnd & Hown) Ha.
  simpl in Hrest. destruct Hrest as (_ & w & Hw & Hp & Hrest).
  rewrite Ha in Hw. injection Hw as <-.
  exists cr, (Some a), q. split; [exact Hc |]. split.
  - apply dseg_app. exists q1, (Some a). split; [exact Hpre |].
    apply dseg_cons. exists wa. repeat split; auto.
  - split; [exact Hrest |]. rewrite <- app_assoc. simpl. split; assumption.
Qed.

Lemma sweep_inv_frame c pre node rest s s' :
  sweep_inv c pre node rest s ->
  same_links s s' -> same_cores s s' ->
  (forall cr, ctxs s !! c = Some cr ->
     exists cr', ctxs s' !! c = Some cr' /\ watchers cr' = watchers cr) ->
  sweep_inv c pre node rest s'.
Proof.
  intros (cr & q1 & q & Hc & Hpre & Hrest & Hnd & Hown) Hl Hsc Hctx.
  destruct (Hctx cr Hc) as (cr' & Hc' & Hw).
  exists cr', q1, q. split; [exact Hc' |]. rewrite Hw.
  split; [eapply dseg_frame; [| exact Hpre]; intros; apply Hl |].
  split; [eapply dseg_frame; [| exact Hrest]; intros; apply Hl |].
  split; [exact Hnd |].
  eapply same_cores_owned; eassumption.
Qed.

Lemma sweep_inv_removed c cr pre a wa rest s s' :
  sweep_inv c pre (Some a) (a :: rest) s ->
  ctxs s !! c = Some cr -> uevs s !! a = Some wa ->
  removed c cr a wa pre rest s s' ->
  sweep_inv c pre (next wa) rest s'.
Proof.
  intros (cr0 & q1 & q & Hc & Hpre & Hrest & Hnd & Hown) Hc' Ha
         (Henv & Hsc & Hla & cr' & q1' & q' & Hctx & Hrun & Hegh & Hd1 & Hd2).
  exists cr', q1', q'. split; [rewrite Hctx; apply lookup_insert_eq |].
  split; [exact Hd1 |]. split; [exact Hd2 |].
  split.
  - apply NoDup_app in Hnd as (H1 & H2 & H3). apply NoDup_app.
    split; [exact H1 |]. split; [| now inversion H3].
    intros k Hk Hk'. apply (H2 k Hk). now right.
  - intros k Hk. eapply same_cores_owned; [exact Hsc | exact Hown |].
    apply elem_of_app in Hk as [Hk | Hk]; apply elem_of_app;
      [now left | right; now right].
Qed.

Lemma sweep_inv_update c pre node rest s a wa wa' :
  sweep_inv c pre node rest s ->
  uevs s !! a = Some wa ->
  next wa' = next wa -> prev wa' = prev wa -> ctx wa' = ctx wa ->
  sweep_inv c pre node rest (with_uevs (<[a := wa']> (uevs s)) s).
Proof.
  intros (cr & q1 & q & Hc & Hpre & Hrest & Hnd & Hown) Ha Hn Hp Hx.
  assert (Hl : forall k, links (<[a := wa']> (uevs s)) k = links (uevs s) k).
  { intros k. rewrite links_insert. case_decide; [| reflexivity].
    subst k. rewrite (links_Some _ _ _ Ha). congruence. }
  exists cr, q1, q. st_simpl. split; [exact Hc |].
  split; [eapply dseg_frame; [| exact Hpre]; intros; apply Hl |].
  split; [eapply dseg_frame; [| exact Hrest]; intros; apply Hl |].
  split; [exact Hnd |].
  intros k Hk. destruct (Hown k Hk) as (w & Hw & Hcw).
  rewrite lookup_insert. case_decide.
  - subst k. exists wa'. split; [reflexivity |]. congruence.
  - eauto.
Qed.

Lemma sweep_inv_whole c pre a rest s :
  sweep_inv c pre (Some a) (a :: rest) s ->
  exists cr q wa,
    ctxs s !! c = Some cr /\ uevs s !! a = Some wa /\ ctx wa = Some c /\
    NoDup (pre ++ a :: rest) /\
    dseg (uevs s) None (watchers cr) (pre ++ a :: rest) q None.
Proof.
  intros (cr & q1 & q & Hc & Hpre & Hrest & Hnd & Hown).
  destruct (Hown a) as (wa & Ha & Hca).
  { apply elem_of_app. right. left. }
  exists cr, q, wa. repeat split; auto.
  apply dseg_app. eauto.
Qed.

(** [_uev_timer_stop] on a timer that the walk stands at. *)
Lemma wp_uev_timer_stop_swept c pre a rest s wa :
  sweep_inv c pre (Some a) (a :: rest) s ->
  uevs s !! a = Some wa ->
  is_timer (type wa) = true ->
  wp (_uev_timer_stop (Some a))
     (fun rc s' =>
        rc = 0 /\ same_env s s' /\
        (forall k, k <> a -> core <$> uevs s' !! k = core <$> uevs s !! k) /\
        core <$> uevs s' !! a =
          Some (core (if 0 <? active wa then set_active 0 wa else wa)) /\
        (forall c', c' <> c -> ctxs s' !! c' = ctxs s !! c') /\
        (forall cr, ctxs s !! c = Some cr ->
           exists cr', ctxs s' !! c = Some cr' /\ running cr' = running cr /\
                       egh cr' = egh cr) /\
        sweep_next c pre a wa rest s') s.
Proof.
  intros Hinv Ha Hty.
  unfold _uev_timer_stop. wp_run.
  destruct (0 <? active wa) eqn:Hact; simpl.
  2:{ wp_run. split; [reflexivity |]. split; [apply same_env_refl |].
      split; [reflexivity |]. split; [now rewrite Ha |].
      split; [reflexivity |]. split; [eauto |].
      left. now apply sweep_inv_advance. }
  wp_prim. unfold _uev_watcher_stop. wp_run. rewrite Hact. simpl. wp_run.
  assert (Hio : bool_decide (type (set_active 0 wa) = UEV_IO_TYPE) = false).
  { apply bool_decide_eq_false. simpl. intros E. rewrite E in Hty. discriminate. }
  rewrite Hio. wp_run.
  set (s1 := with_uevs (<[a := set_active 0 wa]> (uevs s)) s).
  assert (Hinv1 : sweep_inv c pre (Some a) (a :: rest) s1).
  { apply sweep_inv_update with (wa := wa); auto. }
  assert (Ha1 : uevs s1 !! a = Some (set_active 0 wa)) by apply lookup_insert_eq.
  destruct (bool_decide (type (set_active 0 wa) = UEV_TIMER_TS_TYPE)) eqn:Hts;
    simpl.
  - (* a threadsafe timer stays on the list *)
    wp_run.
    split; [reflexivity |]. split; [solve_env |].
    split; [intros k Hk; subst s1; st_simpl; now rewrite lookup_insert_ne |].
    split; [subst s1; st_simpl; now rewrite lookup_insert_eq |].
    split; [reflexivity |]. split; [eauto |].
    left. change (next wa) with (next (set_active 0 wa)).
    now apply sweep_inv_advance.
  - (* any other timer is unlinked *)
    destruct (sweep_inv_whole _ _ _ _ _ Hinv1) as (cr & q & wa1 & Hc & Ha1' & Hca & Hnd & Hd).
    rewrite Ha1 in Ha1'. injection Ha1' as <-.
    wp_run. simpl in Hca. rewrite Hca. wp_prim.
    eapply wp_mono; [eapply wp_UEV_REMOVE; eassumption |].
    intros [] s' Hrem. cbv beta. wp_run.
    pose proof Hrem as (Henv & Hsc & Hla & cr' & q1' & q' & Hctx & Hrun & Hegh & _).
    split; [reflexivity |].
    split; [eapply same_env_trans; [| exact Henv]; solve_env |].
    split.
    { intros k Hk. rewrite Hsc. subst s1. st_simpl. now rewrite lookup_insert_ne. }
    split.
    { rewrite Hsc. subst s1. st_simpl. now rewrite lookup_insert_eq. }
    split.
    { intros c' Hc'. rewrite Hctx. now rewrite lookup_insert_ne. }
    split.
    { intros cr0 Hc0. exists cr'. rewrite Hctx, lookup_insert_eq.
      subst s1. st_simpl. rewrite Hc in Hc0. injection Hc0 as <-. auto. }
    right. split; [| exact Hla].
    change (next wa) with (next (set_active 0 wa)).
    eapply sweep_inv_removed; eauto.
Qed.

Lemma core_lookup_Some (m : gmap nat uev_t) k x :
  core <$> m !! k = Some x -> exists w, m !! k = Some w /\ core w = x.
Proof.
  destruct (m !! k) as [w |]; simpl; [| discriminate].
  intros [= <-]. eauto.
Qed.

Lemma core_deadline w w' : core w' = core w -> t_deadline w' = t_deadline w.
Proof. intros H. now apply core_fields in H. Qed.

(** ** The cases of the sweep *)

Lemma wp_uev_run_timer c pre a rest s wa nd :
  sweep_inv c pre (Some a) (a :: rest) s ->
  uevs s !! a = Some wa ->
  is_timer (type wa) = true ->
  wp (uev_run_timer a nd)
     (fun r s' =>
        let now := now_ms s in
        let d := t_deadline (timer_swept now wa) in
        r = (timer_due now wa, if timer_due now wa then UEV_READ else 0,
             if negb (d =? 0) && (d <? nd) then d else nd) /\
        same_env (with_ticks (S (ticks s)) s) s' /\
        (forall k, k <> a -> core <$> uevs s' !! k = core <$> uevs s !! k) /\
        core <$> uevs s' !! a = Some (core (timer_swept now wa)) /\
        (forall c', c' <> c -> ctxs s' !! c' = ctxs s !! c') /\
        (forall cr, ctxs s !! c = Some cr ->
           exists cr', ctxs s' !! c = Some cr' /\ running cr' = running cr /\
                       egh cr' = egh cr) /\
        sweep_next c pre a wa rest s') s.
Proof.
  intros Hinv Ha Hty.
  unfold uev_run_timer. wp_run. cbv zeta. wp_run.
  change (now_us s / 1000) with (now_ms s).
  change ((0 <? now_ms s) && negb (t_deadline wa =? 0) && (t_deadline wa <? now_ms s))
    with (timer_due (now_ms s) wa).
  unfold timer_swept.
  set (s0 := with_ticks (S (ticks s)) s).
  assert (Hinv0 : sweep_inv c pre (Some a) (a :: rest) s0) by exact Hinv.
  assert (Ha0 : uevs s0 !! a = Some wa) by exact Ha.
  destruct (timer_due (now_ms s) wa) eqn:Hdue.
  - (* the timer is due *)
    set (w1 := if t_period wa =? 0 then set_timeout 0 wa else wa).
    wp_prim.
    apply wp_mono with
      (Q := fun _ s1 => s1 = with_uevs (<[a := w1]> (uevs s0)) s0).
    { subst w1. destruct (t_period wa =? 0); wp_run; [reflexivity |].
      rewrite insert_id by exact Ha0. now rewrite with_uevs_id. }
    intros [] s1 ->. cbv beta.
    assert (Hinv1 : sweep_inv c pre (Some a) (a :: rest)
                      (with_uevs (<[a := w1]> (uevs s0)) s0)).
    { apply sweep_inv_update with (wa := wa); auto;
        subst w1; destruct (t_period wa =? 0); reflexivity. }
    assert (Hw1 : next w1 = next wa /\ type w1 = type wa).
    { subst w1; destruct (t_period wa =? 0); split; reflexivity. }
    destruct Hw1 as [Hn1 Ht1].
    wp_run.
    destruct (t_timeout w1 =? 0) eqn:Hto.
    + (* it stops *)
      wp_prim.
      eapply wp_mono.
      { eapply wp_uev_timer_stop_swept with (wa := w1); [exact Hinv1 | |].
        - apply lookup_insert_eq.
        - now rewrite Ht1. }
      intros rc s2 (_ & Henv & Hoth & Hcore & Hctx & Hctx' & Hnext). cbv beta.
      destruct (core_lookup_Some _ _ _ Hcore) as (w2 & Hw2 & Hc2).
      wp_run.
      rewrite (core_deadline _ _ Hc2).
      split; [reflexivity |].
      split; [exact Henv |].
      split; [intros k Hk; rewrite (Hoth k Hk); st_simpl;
              now rewrite lookup_insert_ne |].
      split; [exact Hcore |].
      split; [exact Hctx |].
      split; [exact Hctx' |].
      destruct Hnext as [H | H]; [left | right]; rewrite <- Hn1; exact H.
    + (* it is rearmed *)
      wp_run.
      split; [reflexivity |].
      split; [solve_env |].
      split; [intros k Hk; st_simpl; now rewrite !lookup_insert_ne |].
      split; [st_simpl; now rewrite lookup_insert_eq |].
      split; [reflexivity |].
      split; [intros cr Hcr; eauto |].
      left. rewrite <- Hn1.
      change (next w1) with
        (next (set_deadline (wrap64 (now_ms s + t_period w1)) w1)).
      apply sweep_inv_advance; [| st_simpl; apply lookup_insert_eq].
      eapply sweep_inv_update; [exact Hinv1 | apply lookup_insert_eq | | |];
        reflexivity.
  - (* the timer is not due *)
    wp_run.
    split; [reflexivity |].
    split; [solve_env |].
    split; [reflexivity |].
    split; [now rewrite Ha0 |].
    split; [reflexivity |].
    split; [intros cr Hcr; eauto |].
    left. now apply sweep_inv_advance.
Qed.

Lemma with_calls_nil s : with_calls (calls s ++ []) s = s.
Proof. rewrite app_nil_r. destruct s; reflexivity. Qed.

(** The delivery for a watcher that is not an I/O watcher. *)
Lemma wp_uev_run_deliver a w runcb ev s :
  uevs s !! a = Some w -> type w <> UEV_IO_TYPE ->
  wp (uev_run_deliver a runcb ev)
     (fun _ s' =>
        s' = with_calls
               (calls s ++
                match cb w, runcb with
                | Some f, true => [mk_call f a (arg w) (Z.land ev UEV_EVENT_MASK)]
                | _, _ => []
                end) s) s.
Proof.
  intros Ha Hty. unfold uev_run_deliver. wp_run.
  destruct (cb w) as [f |]; [destruct runcb |]; wp_run.
  - rewrite bool_decide_eq_false_2 by exact Hty. wp_run. reflexivity.
  - now rewrite with_calls_nil.
  - now rewrite with_calls_nil.
Qed.

(** The delivery for an I/O watcher. *)
Lemma wp_uev_run_deliver_io a w runcb ev s :
  uevs s !! a = Some w -> type w = UEV_IO_TYPE ->
  wp (uev_run_deliver a runcb ev)
     (fun _ s' =>
        s' = match cb w, runcb with
             | Some f, true =>
                 with_wakes (S (wakes s))
                   (with_uevs (<[a := io_cleared ev w]> (uevs s))
                      (with_calls
                         (calls s ++
                          [mk_call f a (arg w) (Z.land ev UEV_EVENT_MASK)]) s))
             | _, _ => s
             end) s.
Proof.
  intros Ha Hty. unfold uev_run_deliver. wp_run.
  destruct (cb w) as [f |]; [destruct runcb |]; wp_run; try reflexivity.
  rewrite bool_decide_eq_true_2 by exact Hty. wp_run.
  unfold _uev_iothread_interrupt. apply wp_intro with (a := tt)
    (s' := with_wakes (S (wakes s))
             (with_uevs (<[a := io_cleared ev w]> (uevs s))
                (with_calls
                   (calls s ++ [mk_call f a (arg w) (Z.land ev UEV_EVENT_MASK)]) s)));
    reflexivity.
Qed.

Lemma timer_swept_fields now w :
  cb (timer_swept now w) = cb w /\ arg (timer_swept now w) = arg w /\
  type (timer_swept now w) = type w /\ next (timer_swept now w) = next w /\
  prev (timer_swept now w) = prev w /\ ctx (timer_swept now w) = ctx w /\
  iot_events (timer_swept now w) = iot_events w /\
  events (timer_swept now w) = events w /\
  e_posted (timer_swept now w) = e_posted w /\
  fd (timer_swept now w) = fd w.
Proof.
  unfold timer_swept.
  destruct (timer_due now w); [| repeat split].
  destruct (t_period w =? 0); simpl;
    repeat match goal with |- context [if ?b then _ else _] => destruct b end;
    repeat split.
Qed.

Lemma sweep_next_keep c pre a wa wa' rest s :
  sweep_inv c pre (Some a) (a :: rest) s ->
  uevs s !! a = Some wa ->
  next wa' = next wa -> prev wa' = prev wa -> ctx wa' = ctx wa ->
  sweep_next c pre a wa rest (with_uevs (<[a := wa']> (uevs s)) s).
Proof.
  intros Hinv Ha Hn Hp Hc. left. rewrite <- Hn.
  apply sweep_inv_advance; [| apply lookup_insert_eq].
  now apply sweep_inv_update with (wa := wa).
Qed.

Lemma wp_uev_run_watcher_timer c pre a rest s wa nd :
  sweep_inv c pre (Some a) (a :: rest) s ->
  uevs s !! a = Some wa ->
  is_timer (type wa) = true ->
  wp ('(runcb, ev, nd0) ← uev_run_timer a nd;
      uev_run_deliver a runcb ev;; mret nd0)
     (fun nd' s' =>
        nd' = (let d := t_deadline (timer_swept (now_ms s) wa) in
               if negb (d =? 0) && (d <? nd) then d else nd) /\
        core <$> uevs s' !! a = Some (core (timer_swept (now_ms s) wa)) /\
        calls s' = calls s ++
                   match cb wa with
                   | Some f =>
                       if timer_due (now_ms s) wa
                       then [mk_call f a (arg wa) (Z.land UEV_READ UEV_EVENT_MASK)]
                       else []
                   | None => []
                   end /\
        sweep_frame c a s s' /\
        sweep_next c pre a wa rest s') s.
Proof.
  intros Hinv Ha Hty.
  wp_prim. eapply wp_mono; [eapply wp_uev_run_timer; eassumption |].
  intros r s1 (Hr & Henv & Hoth & Hcore & Hctx & Hctx' & Hnext).
  cbv zeta in Hr. subst r. cbv beta iota.
  destruct (core_lookup_Some _ _ _ Hcore) as (w2 & Hw2 & Hc2).
  pose proof (core_fields _ _ Hc2) as (_&_&_&Hcb&Harg&_&_&_&_&Hty2&_&_).
  pose proof (timer_swept_fields (now_ms s) wa) as (Hcb'&Harg'&Hty'&_).
  rewrite Hcb' in Hcb. rewrite Harg' in Harg. rewrite Hty' in Hty2.
  wp_prim. eapply wp_mono.
  { apply wp_uev_run_deliver with (w := w2); [exact Hw2 |].
    rewrite Hty2. intros E. rewrite E in Hty. discriminate. }
  intros [] s' ->. cbv beta. wp_run.
  destruct Henv as (He1 & He2 & He3 & He4 & He5 & He6 & He7 & He8).
  st_simpl.
  assert (Hnew : calls s1 ++
                 match cb w2 with
                 | Some f =>
                     if timer_due (now_ms s) wa
                     then [mk_call f a (arg w2)
                             (Z.land (if timer_due (now_ms s) wa
                                      then UEV_READ else 0) UEV_EVENT_MASK)]
                     else []
                 | None => []
                 end =
                 calls s ++
                 match cb wa with
                 | Some f =>
                     if timer_due (now_ms s) wa
                     then [mk_call f a (arg wa) (Z.land UEV_READ UEV_EVENT_MASK)]
                     else []
                 | None => []
                 end).
  { rewrite He4, Hcb, Harg. destruct (cb wa); [| reflexivity].
    destruct (timer_due (now_ms s) wa); reflexivity. }
  split; [reflexivity |]. split; [exact Hcore |]. split; [exact Hnew |].
  split; [| exact Hnext].
  unfold sweep_frame. st_simpl.
  split; [exact Hoth |]. split; [exact Hctx |]. split; [exact Hctx' |].
  split; [exact He2 |]. split; [rewrite He3; lia |].
  split; [exact He8 |]. split; [exact He5 |].
  rewrite Hnew. eexists. split; [reflexivity |].
  intros cl Hcl. destruct (cb wa); [| now apply elem_of_nil in Hcl].
  destruct (timer_due (now_ms s) wa); [| now apply elem_of_nil in Hcl].
  apply list_elem_of_singleton in Hcl. now subst cl.
Qed.

(** The body of the sweep, for the watcher the walk stands at. *)
Lemma wp_uev_run_watcher c pre a rest s wa bits nd :
  sweep_inv c pre (Some a) (a :: rest) s ->
  uevs s !! a = Some wa ->
  wp (uev_run_watcher bits a nd)
     (fun nd' s' =>
        nd' = swept_deadline (now_ms s) wa nd /\
        core <$> uevs s' !! a = Some (core (watcher_swept bits (now_ms s) wa)) /\
        calls s' = calls s ++ sweep_calls bits (now_ms s) a wa /\
        sweep_frame c a s s' /\
        sweep_next c pre a wa rest s') s.
Proof.
  intros Hinv Ha.
  assert (Hcalls : forall cl, cl ∈ sweep_calls bits (now_ms s) a wa -> call_w cl = a).
  { intros cl. unfold sweep_calls.
    destruct (cb wa); [| now intros ?%elem_of_nil].
    destruct (sweep_decision bits (now_ms s) wa) as [[] ev];
      [| now intros ?%elem_of_nil].
    intros ->%list_elem_of_singleton. reflexivity. }
  unfold uev_run_watcher. wp_run.
  unfold swept_deadline, watcher_swept, sweep_calls, sweep_decision.
  destruct (active wa =? 0) eqn:Hact; simpl.
  { wp_run. split; [reflexivity |]. split; [now rewrite Ha |].
    split; [destruct (cb wa); now rewrite app_nil_r |].
    split.
    - repeat split; auto. + eauto. + exists []. split; [now rewrite app_nil_r |].
      now intros ? ?%elem_of_nil.
    - left. now apply sweep_inv_advance. }
  destruct (type wa) eqn:Hty; simpl.
  - (* I/O *)
    wp_prim. unfold uev_run_io.
    destruct (Z.land bits UEV_EG_BIT_IO =? 0) eqn:Hbit; simpl.
    + wp_run. eapply wp_mono; [apply wp_uev_run_deliver_io; eassumption |].
      intros [] s' ->. cbv beta. wp_run.
      replace (match cb wa with Some _ => s | None => s end) with s
        by (now destruct (cb wa)).
      split; [reflexivity |]. split; [destruct (cb wa); now rewrite Ha |].
      split; [destruct (cb wa); now rewrite app_nil_r |].
      split.
      * repeat split; auto. -- eauto. -- exists []. split; [now rewrite app_nil_r |].
           now intros ? ?%elem_of_nil.
      * left. now apply sweep_inv_advance.
    + wp_run. destruct (iot_events wa =? 0) eqn:Hio; simpl; wp_run;
        (eapply wp_mono; [apply wp_uev_run_deliver_io; eassumption |]);
        intros [] s' ->; cbv beta; wp_run.
      * replace (match cb wa with Some _ => s | None => s end) with s
          by (now destruct (cb wa)).
        split; [reflexivity |]. split; [destruct (cb wa); now rewrite Ha |].
        split; [destruct (cb wa); now rewrite app_nil_r |].
        split.
        -- repeat split; auto. ++ eauto. ++ exists []. split; [now rewrite app_nil_r |].
           now intros ? ?%elem_of_nil.
        -- left. now apply sweep_inv_advance.
      * split; [reflexivity |].
        destruct (cb wa) as [f |] eqn:Hcb.
        -- split; [st_simpl; now rewrite lookup_insert_eq |].
           split; [reflexivity |].
           split.
           ++ unfold sweep_frame. st_simpl.
              split; [intros k Hk; now rewrite lookup_insert_ne |].
              repeat split; auto. ** eauto.
              ** eexists. split; [reflexivity |].
                 intros cl ->%list_elem_of_singleton. reflexivity.
           ++ apply (sweep_next_keep c pre a wa _ rest
                       (with_calls (calls s ++ [_]) s)); auto.
        -- split; [now rewrite Ha |].
           split; [now rewrite app_nil_r |].
           split.
           ++ repeat split; auto. ** eauto. ** exists []. split; [now rewrite app_nil_r |].
              now intros ? ?%elem_of_nil.
           ++ left. now apply sweep_inv_advance.
  - (* timer *)
    eapply wp_mono; [eapply wp_uev_run_watcher_timer; try eassumption |].
    + now rewrite Hty.
    + cbv beta zeta. intros nd' s' (-> & Hcore & Hcl & Hfr & Hnx).
      split; [reflexivity |]. split; [exact Hcore |].
      split; [| split; [exact Hfr | exact Hnx]].
      rewrite Hcl. f_equal.
      destruct (cb wa); [| reflexivity].
      now destruct (timer_due (now_ms s) wa).
  - (* threadsafe timer *)
    eapply wp_mono; [eapply wp_uev_run_watcher_timer; try eassumption |].
    + now rewrite Hty.
    + cbv beta zeta. intros nd' s' (-> & Hcore & Hcl & Hfr & Hnx).
      split; [reflexivity |]. split; [exact Hcore |].
      split; [| split; [exact Hfr | exact Hnx]].
      rewrite Hcl. f_equal.
      destruct (cb wa); [| reflexivity].
      now destruct (timer_due (now_ms s) wa).
  - (* event *)
    wp_prim. unfold uev_run_event.
    destruct (Z.land bits UEV_EG_BIT_EVENT =? 0) eqn:Hbit; simpl.
    + wp_run. eapply wp_mono.
      { apply wp_uev_run_deliver with (w := wa); [exact Ha |].
        rewrite Hty. discriminate. }
      intros [] s' ->. cbv beta. wp_run.
      replace (match cb wa with Some _ => [] | None => [] end)
        with (@nil cb_call) by (now destruct (cb wa)).
      rewrite with_calls_nil.
      split; [reflexivity |]. split; [now rewrite Ha |].
      split; [now rewrite app_nil_r |].
      split.
      * repeat split; auto. -- eauto. -- exists []. split; [now rewrite app_nil_r |].
           now intros ? ?%elem_of_nil.
      * left. now apply sweep_inv_advance.
    + wp_run.
      set (s1 := with_uevs (<[a := set_posted 0 wa]> (uevs s)) s).
      assert (Hd : wp (uev_run_deliver a (negb (e_posted wa =? 0)) UEV_READ)
                (fun _ s' =>
                   s' = with_calls
                          (calls s ++
                           match cb wa, negb (e_posted wa =? 0) with
                           | Some f, true =>
                               [mk_call f a (arg wa) (Z.land UEV_READ UEV_EVENT_MASK)]
                           | _, _ => []
                           end) s1) s1).
      { apply (wp_uev_run_deliver a (set_posted 0 wa) _ _ s1).
        - apply lookup_insert_eq.
        - simpl. rewrite Hty. discriminate. }
      destruct (e_posted wa =? 0) eqn:Hp; simpl in Hd |- *; wp_run;
        (eapply wp_mono; [exact Hd |]); intros [] s' ->; cbv beta; wp_run;
        (split; [reflexivity |]);
        (split; [subst s1; st_simpl; now rewrite lookup_insert_eq |]);
        (split; [st_simpl; now destruct (cb wa) |]);
        (split; [| apply (sweep_next_keep c pre a wa _ rest s); auto]);
        unfold sweep_frame; subst s1; st_simpl;
        (split; [intros k Hk; now rewrite lookup_insert_ne |]);
        repeat split; auto; eauto.
      * exists []. split; [destruct (cb wa); now rewrite app_nil_r |].
        now intros ? ?%elem_of_nil.
      * eexists. split; [reflexivity |]. intros cl Hcl.
        destruct (cb wa); [| now apply elem_of_nil in Hcl].
        apply list_elem_of_singleton in Hcl. now subst cl.
Qed.

(** ** The walk over the list *)

Lemma sweep_inv_nil c pre node s : sweep_inv c pre node [] s -> node = None.
Proof. intros (cr & q1 & q & _ & _ & (H & _) & _). exact H. Qed.

Lemma sweep_inv_cons c pre node a rest s :
  sweep_inv c pre node (a :: rest) s ->
  node = Some a /\ exists wa, uevs s !! a = Some wa /\ a ∉ rest.
Proof.
  intros (cr & q1 & q & _ & _ & (H & w & Hw & _) & Hnd & _).
  split; [exact H |]. exists w. split; [exact Hw |].
  apply NoDup_app in Hnd as (_ & _ & Hnd). now inversion Hnd.
Qed.

(** The rule of [_UEV_FOREACH]: an invariant [I] of the nodes still to
    visit, kept by the body at the node the walk stands at, holds of no
    node at the end; the fuel has to cover the list. *)
Lemma wp_UEV_FOREACH {A} (B : nat -> A -> M A)
      (I : list nat -> A -> state -> Prop) c :
  (forall pre a rest acc s wa,
     sweep_inv c pre (Some a) (a :: rest) s -> uevs s !! a = Some wa ->
     I (a :: rest) acc s ->
     wp (B a acc)
        (fun acc' s' => I rest acc' s' /\ sweep_next c pre a wa rest s') s) ->
  forall rest fuel pre node acc s,
    (length rest <= fuel)%nat ->
    sweep_inv c pre node rest s -> I rest acc s ->
    wp (_UEV_FOREACH fuel node B acc)
       (fun acc' s' => I [] acc' s' /\ exists pre', sweep_inv c pre' None [] s') s.
Proof.
  intros HB rest. induction rest as [| a rest IH];
    intros fuel pre node acc s Hfuel Hinv HI.
  - assert (node = None) as -> by (eapply sweep_inv_nil; eauto).
    destruct fuel; simpl; apply wp_ret; (split; [exact HI | eauto]).
  - destruct (sweep_inv_cons _ _ _ _ _ _ Hinv) as (-> & wa & Ha & _).
    destruct fuel as [| fuel]; [simpl in Hfuel; lia |].
    simpl. wp_run.
    eapply wp_mono; [apply (HB pre a rest acc s wa Hinv Ha HI) |].
    intros acc' s' (HI' & [Hnx | (Hnx & _)]); cbv beta;
      (eapply IH; [simpl in Hfuel; lia | exact Hnx | exact HI']).
Qed.

(** ** One watcher during a whole sweep *)

Lemma calls_of_app a l1 l2 :
  calls_of a (l1 ++ l2) = calls_of a l1 ++ calls_of a l2.
Proof. unfold calls_of. apply filter_app. Qed.

Lemma calls_of_other a k (l : list cb_call) :
  (forall cl, cl ∈ l -> call_w cl = k) -> k <> a -> calls_of a l = [].
Proof.
  intros Hl Hk. unfold calls_of. induction l as [| cl l IH]; [reflexivity |].
  rewrite filter_cons. destruct (decide (call_w cl = a)) as [E |].
  - exfalso. apply Hk. rewrite <- E. symmetry. apply Hl. left.
  - apply IH. intros x Hx. apply Hl. now right.
Qed.

Lemma calls_of_self a (l : list cb_call) :
  (forall cl, cl ∈ l -> call_w cl = a) -> calls_of a l = l.
Proof.
  intros Hl. unfold calls_of. induction l as [| cl l IH]; [reflexivity |].
  rewrite filter_cons. destruct (decide (call_w cl = a)) as [E | E].
  - f_equal. apply IH. intros x Hx. apply Hl. now right.
  - exfalso. apply E. apply Hl. left.
Qed.

Lemma sweep_calls_self bits now a w cl :
  cl ∈ sweep_calls bits now a w -> call_w cl = a.
Proof.
  unfold sweep_calls. destruct (cb w); [| now intros ?%elem_of_nil].
  destruct (sweep_decision bits now w) as [[] ev]; [| now intros ?%elem_of_nil].
  intros ->%list_elem_of_singleton. reflexivity.
Qed.

(** What the sweep does to a watcher does not depend on its links. *)
Lemma swept_core bits now a w1 w2 nd :
  core w1 = core w2 ->
  core (watcher_swept bits now w1) = core (watcher_swept bits now w2) /\
  sweep_calls bits now a w1 = sweep_calls bits now a w2 /\
  swept_deadline now w1 nd = swept_deadline now w2 nd.
Proof.
  destruct w1 as [n1 p1 io1 ac1 ev1 cb1 ar1 to1 pe1 de1 po1 ty1 fd1 cx1].
  destruct w2 as [n2 p2 io2 ac2 ev2 cb2 ar2 to2 pe2 de2 po2 ty2 fd2 cx2].
  unfold core. simpl. intros [= -> -> -> -> -> -> -> -> -> -> -> ->].
  unfold watcher_swept, sweep_calls, swept_deadline, sweep_decision,
    timer_swept, timer_due, io_cleared, is_timer. simpl.
  destruct ty2, cb2;
    repeat match goal with
           | |- context [if ?b then _ else _] =>
               lazymatch b with
               | context [if _ then _ else _] => fail
               | _ => destruct b eqn:?; simpl
               end
           end; repeat split; reflexivity.
Qed.

Lemma sweep_progress_start c bits rest0 s0 :
  sweep_progress c bits rest0 rest0 s0 s0.
Proof.
  split; [reflexivity |]. split; [lia |]. split; [auto |]. split; [eauto |].
  intros a wa Ha. split.
  - intros _. now rewrite Ha.
  - intros H1 H2. contradiction.
Qed.

Lemma sweep_progress_step c bits rest0 pre k rest s0 s wk nd :
  sweep_inv c pre (Some k) (k :: rest) s ->
  uevs s !! k = Some wk ->
  sweep_progress c bits rest0 (k :: rest) s0 s ->
  wp (uev_run_watcher bits k nd)
     (fun _ s' => sweep_progress c bits rest0 rest s0 s' /\
                  sweep_next c pre k wk rest s') s.
Proof.
  intros Hinv Hk (Hclk & Htk & Hsub & Hctx & Hall).
  destruct (sweep_inv_cons _ _ _ _ _ _ Hinv) as (_ & _ & _ & Hkrest).
  eapply wp_mono; [apply (wp_uev_run_watcher c pre k rest s wk bits nd Hinv Hk) |].
  intros nd' s' (_ & Hcore & Hcalls & Hfr & Hnx). cbv beta.
  split; [| exact Hnx].
  destruct Hfr as (Hoth & _ & Hctx' & Hclk' & Htk' & _ & _ & new & Hnew & Hnewk).
  split; [congruence |]. split; [lia |].
  split; [intros x Hx; apply Hsub; now right |].
  split.
  { intros cr Hcr. destruct (Hctx cr Hcr) as (cr1 & Hcr1 & Hr1 & He1).
    destruct (Hctx' cr1 Hcr1) as (cr2 & Hcr2 & Hr2 & He2).
    exists cr2. repeat split; congruence. }
  intros a wa Ha. destruct (Hall a wa Ha) as (Hsame & Hdone).
  destruct (decide (a = k)) as [-> | Hne].
  - (* the watcher just handled *)
    assert (Hk0 : k ∈ rest0) by (apply Hsub; left).
    split; [intros [H | H]; contradiction |].
    intros _ _. destruct Hsame as (Hc0 & Hl0); [right; left |].
    rewrite Hk in Hc0. simpl in Hc0. apply (inj Some) in Hc0.
    destruct (swept_core bits (now_ms s) k wk wa nd Hc0) as (E1 & E2 & _).
    exists (ticks s). split; [lia |].
    unfold now_ms in *. rewrite Hclk in *.
    split; [now rewrite Hcore, E1 |].
    rewrite Hcalls, calls_of_app, Hl0, <- E2.
    f_equal. apply calls_of_self. intros cl. apply sweep_calls_self.
  - (* another watcher *)
    assert (Hcl : calls_of a (calls s') = calls_of a (calls s)).
    { rewrite Hnew, calls_of_app, (calls_of_other a k new Hnewk); [| auto].
      apply app_nil_r. }
    split.
    + intros H. destruct Hsame as (Hc0 & Hl0).
      { destruct H as [H | H]; [now left | right; now right]. }
      rewrite (Hoth a Hne), Hcl. auto.
    + intros H1 H2. destruct Hdone as (t & Ht & Hc0 & Hl0); [exact H1 | |].
      { intros [-> | H]%elem_of_cons; contradiction. }
      exists t. split; [lia |]. rewrite (Hoth a Hne), Hcl. auto.
Qed.

(** The sweep of an iteration, started on a well-formed list with enough
    fuel, returns, and has handled every watcher of the list once. *)
Lemma wp_sweep c bits fuel pre node rest s0 nd :
  (length rest <= fuel)%nat ->
  sweep_inv c pre node rest s0 ->
  wp (_UEV_FOREACH fuel node (uev_run_watcher bits) nd)
     (fun _ s' => sweep_progress c bits rest [] s0 s' /\
                  exists pre', sweep_inv c pre' None [] s') s0.
Proof.
  intros Hfuel Hinv.
  apply (wp_UEV_FOREACH (uev_run_watcher bits)
           (fun l _ s => sweep_progress c bits rest l s0 s) c)
    with (pre := pre) (rest := rest); auto.
  - intros pre' a rest' acc s wa Hinv' Ha HI.
    eapply sweep_progress_step; eassumption.
  - apply sweep_progress_start.
Qed.

(** ** The registry and the iteration *)

Lemma registry_sweep_inv s c l :
  registry s c l ->
  exists cr, ctxs s !! c = Some cr /\ sweep_inv c [] (watchers cr) l s.
Proof.
  intros (cr & q & Hc & Hd & Hnd & Hown).
  exists cr. split; [exact Hc |].
  exists cr, None, q. repeat split; auto.
Qed.

Lemma sweep_inv_registry s c pre :
  sweep_inv c pre None [] s -> registry s c pre.
Proof.
  intros (cr & q1 & q & Hc & Hpre & _ & Hnd & Hown).
  rewrite app_nil_r in Hnd, Hown.
  exists cr, q1. repeat split; auto.
Qed.

Lemma registry_frame s s' c l :
  registry s c l -> uevs s' = uevs s ->
  (forall cr, ctxs s !! c = Some cr ->
     exists cr', ctxs s' !! c = Some cr' /\ watchers cr' = watchers cr) ->
  registry s' c l.
Proof.
  intros (cr & q & Hc & Hd & Hnd & Hown) Hu Hctx.
  destruct (Hctx cr Hc) as (cr' & Hc' & Hw).
  exists cr', q. rewrite Hu, Hw. repeat split; auto.
Qed.

Lemma wp_xEventGroupWaitBits c cr b mask tw (Q : Z -> state -> Prop) s :
  ctxs s !! c = Some cr -> egh cr = Some b ->
  Q b (with_waits (waits s ++ [tw])
         (with_ctxs (<[c := set_egh (Some (Z.ldiff b mask)) cr]> (ctxs s)) s)) ->
  wp (xEventGroupWaitBits c mask tw) Q s.
Proof.
  intros Hc Hb HQ. unfold xEventGroupWaitBits. wp_run. rewrite Hb. wp_run.
  unfold log_wait. exact HQ.
Qed.

Section Iteration.

Variables portMAX_DELAY portTICK_PERIOD_MS : Z.

(** An iteration on a well-formed registry returns, given fuel for the
    length of the list; its sweep runs with the bits that were set in
    the group, and handles every watcher of the list once. *)
Lemma wp_uev_run_iteration fuel c cr b l nd s :
  registry s c l -> (length l <= fuel)%nat ->
  ctxs s !! c = Some cr -> egh cr = Some b ->
  wp (uev_run_iteration portMAX_DELAY portTICK_PERIOD_MS fuel c nd)
     (fun _ s' =>
        let s1 := after_wait c cr b
                    (tickstowait portMAX_DELAY portTICK_PERIOD_MS
                       (now_ms s) nd) s in
        sweep_progress c b l [] s1 s' /\
        exists l', registry s' c l') s.
Proof.
  intros Hreg Hfuel Hc Hb.
  unfold uev_run_iteration. wp_run.
  eapply wp_xEventGroupWaitBits; [wp_lookup | exact Hb |].
  wp_run.
  change (now_us s / 1000) with (now_ms s).
  set (s1 := with_waits _ _).
  change (after_wait c cr b
            (tickstowait portMAX_DELAY portTICK_PERIOD_MS (now_ms s) nd) s)
    with s1.
  assert (Hreg1 : registry s1 c l).
  { eapply registry_frame; [exact Hreg | reflexivity |].
    intros cr0 Hcr0. rewrite Hc in Hcr0. injection Hcr0 as <-.
    eexists. split; [subst s1; st_simpl; apply lookup_insert_eq |].
    reflexivity. }
  destruct (registry_sweep_inv _ _ _ Hreg1) as (cr1 & Hc1 & Hinv).
  assert (cr1 = set_egh (Some (Z.ldiff b UEV_EG_MASK)) cr) as ->.
  { subst s1. st_simpl. rewrite lookup_insert_eq in Hc1. congruence. }
  eapply wp_mono; [eapply wp_sweep; eassumption |].
  cbv beta. intros _ s' (Hprog & pre' & Hinv').
  split; [exact Hprog |]. exists pre'. now apply sweep_inv_registry.
Qed.

End Iteration.

Lemma dsegb_sound m c l : forall p hd,
  dsegb m c p hd l = true ->
  (exists q, dseg m p hd l q None) /\
  forall a, a ∈ l -> exists w, m !! a = Some w /\ ctx w = Some c.
Proof.
  induction l as [| a l IH]; intros p hd; simpl.
  - intros H%bool_decide_eq_true. split; [eauto |]. now intros a ?%elem_of_nil.
  - intros (Hhd%bool_decide_eq_true & H)%andb_true_iff.
    destruct (m !! a) as [w |] eqn:Hw; [| discriminate].
    apply andb_true_iff in H as (H & Hrest).
    apply andb_true_iff in H as (Hp%bool_decide_eq_true & Hc%bool_decide_eq_true).
    destruct (IH _ _ Hrest) as ((q & Hd) & Hown).
    split.
    + exists q. split; [exact Hhd |]. exists w. auto.
    + intros k [-> | Hk]%elem_of_cons; [eauto | auto].
Qed.

Lemma registryb_sound s c l : registryb s c l = true -> registry s c l.
Proof.
  unfold registryb. destruct (ctxs s !! c) as [cr |] eqn:Hc; [| discriminate].
  intros (Hd & Hnd%bool_decide_eq_true)%andb_true_iff.
  destruct (dsegb_sound _ _ _ _ _ Hd) as ((q & Hq) & Hown).
  exists cr, q. auto.
Qed.

Lemma registry_split s c pre a rest :
  registry s c (pre ++ a :: rest) -> sweep_inv c pre (Some a) (a :: rest) s.
Proof.
  intros (cr & q & Hc & Hd & Hnd & Hown).
  apply dseg_app in Hd as (q1 & mid & Hpre & Hrest).
  pose proof (dseg_head _ _ _ _ _ _ Hrest) as ->.
  exists cr, q1, q. auto.
Qed.

Lemma registry_lookup s c l a :
  registry s c l -> a ∈ l -> exists w, uevs s !! a = Some w /\ ctx w = Some c.
Proof. intros (cr & q & _ & _ & _ & Hown). apply Hown. Qed.

Lemma timer_due_true now w :
  0 <= t_deadline w ->
  timer_due now w = true <-> 0 < now /\ 0 < t_deadline w /\ t_deadline w < now.
Proof.
  intros Hd. unfold timer_due.
  rewrite !andb_true_iff, negb_true_iff, !Z.ltb_lt, Z.eqb_neq. lia.
Qed.

Lemma ms_at_range clk t : 0 <= ms_at clk t < 2 ^ 63.
Proof.
  unfold ms_at, us_at, sint64.
  assert (0 <= (clk t + 2 ^ 63) mod 2 ^ 64 < 2 ^ 64) by (apply Z.mod_pos_bound; lia).
  destruct (_ <=? 0) eqn:E.
  - change (0 / 1000) with 0. lia.
  - apply Z.leb_gt in E. split.
    + apply Z.div_pos; lia.
    + apply Z.div_lt_upper_bound; lia.
Qed.

Lemma wrap64_small z : 0 <= z < 2 ^ 64 -> wrap64 z = z.
Proof. intros H. unfold wrap64. now apply Z.mod_small. Qed.

(** ** Events *)

Lemma uev_event_post_eq a c wa cr b s :
  uevs s !! a = Some wa -> ctx wa = Some c ->
  ctxs s !! c = Some cr -> egh cr = Some b ->
  uev_event_post (Some a) s = Ok 0 (posted a c wa cr b s).
Proof.
  intros Ha Hc Hcr Hb.
  assert (H : wp (uev_event_post (Some a))
                 (fun rc s' => rc = 0 /\ s' = posted a c wa cr b s) s).
  { unfold uev_event_post. wp_run. simpl. rewrite Hc. wp_run. auto. }
  apply wp_elim in H as (rc & s' & E & -> & ->). exact E.
Qed.

Lemma posted_again a c wa cr b s :
  posted a c (set_posted 1 wa) (set_egh (Some (Z.lor b UEV_EG_BIT_EVENT)) cr)
         (Z.lor b UEV_EG_BIT_EVENT) (posted a c wa cr b s)
  = posted a c wa cr b s.
Proof.
  unfold posted. st_simpl. rewrite !insert_insert_eq.
  rewrite <- Z.lor_assoc, Z.lor_diag. reflexivity.
Qed.

Lemma uev_event_post_n_S n w s :
  uev_event_post_n (S n) w s =
  match uev_event_post w s with
  | Ok _ s' => uev_event_post_n n w s'
  | Fault => Fault
  | OutOfFuel => OutOfFuel
  end.
Proof. reflexivity. Qed.

Lemma uev_event_post_n_eq n a c wa cr b s :
  uevs s !! a = Some wa -> ctx wa = Some c ->
  ctxs s !! c = Some cr -> egh cr = Some b ->
  uev_event_post_n (S n) (Some a) s = Ok tt (posted a c wa cr b s).
Proof.
  intros Ha Hc Hcr Hb. revert s wa cr b Ha Hc Hcr Hb.
  induction n as [| n IH]; intros s wa cr b Ha Hc Hcr Hb.
  - rewrite uev_event_post_n_S.
    now rewrite (uev_event_post_eq a c wa cr b s).
  - rewrite uev_event_post_n_S.
    rewrite (uev_event_post_eq a c wa cr b s) by assumption.
    rewrite (IH _ (set_posted 1 wa)
                (set_egh (Some (Z.lor b UEV_EG_BIT_EVENT)) cr)
                (Z.lor b UEV_EG_BIT_EVENT)).
    + now rewrite posted_again.
    + unfold posted. st_simpl. apply lookup_insert_eq.
    + exact Hc.
    + unfold posted. st_simpl. apply lookup_insert_eq.
    + reflexivity.
Qed.

Lemma registry_posted a c wa cr b l s :
  registry s c l -> uevs s !! a = Some wa -> ctxs s !! c = Some cr ->
  registry (posted a c wa cr b s) c l.
Proof.
  intros (cr0 & q & Hc & Hd & Hnd & Hown) Ha Hcr.
  rewrite Hcr in Hc. injection Hc as <-.
  exists (set_egh (Some (Z.lor b UEV_EG_BIT_EVENT)) cr), q.
  unfold posted. st_simpl.
  split; [apply lookup_insert_eq |].
  split.
  { eapply dseg_frame; [| exact Hd]. intros k _. rewrite links_insert.
    case_decide; [| reflexivity]. subst k.
    now rewrite (links_Some _ _ _ Ha). }
  split; [exact Hnd |].
  intros k Hk. destruct (Hown k Hk) as (w & Hw & Hcw).
  rewrite lookup_insert. case_decide.
  - subst k. rewrite Ha in Hw. injection Hw as <-. eauto.
  - eauto.
Qed.

Lemma event_bit_set b : Z.land (Z.lor b UEV_EG_BIT_EVENT) UEV_EG_BIT_EVENT <> 0.
Proof.
  intros H. apply (f_equal (fun z => Z.testbit z 1)) in H.
  rewrite Z.land_spec, Z.lor_spec in H. simpl in H.
  now rewrite orb_true_r in H.
Qed.

Section EventIteration.

Variables portMAX_DELAY portTICK_PERIOD_MS : Z.

(** An armed event watcher during one iteration. *)
Lemma event_iteration fuel c cr b l a wa nd s :
  registry s c l -> a ∈ l -> (length l <= fuel)%nat ->
  ctxs s !! c = Some cr -> egh cr = Some b ->
  uevs s !! a = Some wa -> type wa = UEV_EVENT_TYPE -> active wa <> 0 ->
  wp (uev_run_iteration portMAX_DELAY portTICK_PERIOD_MS fuel c nd)
     (fun _ s' =>
        calls_of a (calls s') =
          calls_of a (calls s) ++
          (if negb (Z.land b UEV_EG_BIT_EVENT =? 0) && negb (e_posted wa =? 0)
           then match cb wa with
                | Some f => [mk_call f a (arg wa) UEV_READ]
                | None => []
                end
           else []) /\
        exists wa', uevs s' !! a = Some wa' /\
          e_posted wa' =
            (if Z.land b UEV_EG_BIT_EVENT =? 0 then e_posted wa else 0)) s.
Proof.
  intros Hreg Hin Hfuel Hc Hb Ha Hty Hact.
  eapply wp_mono; [eapply wp_uev_run_iteration; eassumption |].
  cbv beta zeta. intros _ s' ((_ & _ & _ & _ & Hall) & _).
  destruct (Hall a wa Ha) as (_ & Hdone).
  destruct Hdone as (t & _ & Hcore & Hcalls); [exact Hin | apply not_elem_of_nil |].
  apply Z.eqb_neq in Hact.
  unfold watcher_swept in Hcore. unfold sweep_calls, sweep_decision in Hcalls.
  rewrite Hact, Hty in *.
  destruct (core_lookup_Some _ _ _ Hcore) as (wa' & Ha' & Hc').
  split.
  - rewrite Hcalls. f_equal.
    destruct (cb wa); [| now destruct (_ && _)].
    destruct (_ && _); reflexivity.
  - exists wa'. split; [exact Ha' |].
    apply core_fields in Hc'. destruct Hc' as (_&_&_&_&_&_&_&_&Hp&_).
    rewrite Hp. now destruct (Z.land b UEV_EG_BIT_EVENT =? 0).
Qed.

End EventIteration.

(** ** Bits *)

Lemma bits_within_0 m : bits_within 0 m.
Proof. apply Z.land_0_l. Qed.

Lemma bits_within_lor a b m :
  bits_within a m -> bits_within b m -> bits_within (Z.lor a b) m.
Proof. unfold bits_within. intros Ha Hb. now rewrite Z.land_lor_distr_l, Ha, Hb. Qed.

Lemma bits_within_land a x m : bits_within a m -> bits_within (Z.land a x) m.
Proof.
  unfold bits_within. intros Ha.
  now rewrite <- Z.land_assoc, (Z.land_comm x m), Z.land_assoc, Ha.
Qed.

Lemma bits_within_trans a b m :
  bits_within a b -> bits_within b m -> bits_within a m.
Proof.
  unfold bits_within. intros Ha Hb. now rewrite <- Ha, <- Z.land_assoc, Hb.
Qed.

Lemma land_pow2 m i :
  0 <= i -> Z.land m (2 ^ i) <> 0 -> Z.land m (2 ^ i) = 2 ^ i.
Proof.
  intros Hi Hnz. destruct (Z.testbit m i) eqn:Hb.
  - apply Z.bits_inj'. intros n Hn.
    rewrite Z.land_spec, Z.pow2_bits_eqb by exact Hi.
    destruct (Z.eqb_spec i n) as [<- |]; [now rewrite Hb | apply andb_false_r].
  - exfalso. apply Hnz. apply Z.bits_inj'. intros n Hn.
    rewrite Z.land_spec, Z.pow2_bits_eqb, Z.bits_0 by exact Hi.
    destruct (Z.eqb_spec i n) as [<- |]; [now rewrite Hb | apply andb_false_r].
Qed.

Lemma flag_within_mask m i :
  0 <= i < 3 -> Z.land m (2 ^ i) <> 0 ->
  bits_within (2 ^ i) (Z.land m UEV_EVENT_MASK).
Proof.
  intros Hi Hnz. unfold bits_within.
  rewrite Z.land_assoc, (Z.land_comm (2 ^ i) m), land_pow2 by (lia || assumption).
  assert (i = 0 \/ i = 1 \/ i = 2) as [-> | [-> | ->]] by lia; reflexivity.
Qed.

Lemma task_fn_events_within readfds writefds exceptfds w :
  bits_within (task_fn_events readfds writefds exceptfds w)
              (Z.land (events w) UEV_EVENT_MASK).
Proof.
  unfold task_fn_events. cbv zeta.
  repeat match goal with
         | |- context [if ?b && negb (?x =? 0) then _ else _] =>
             let H := fresh "H" in
             destruct (Z.eqb_spec x 0) as [H | H];
             [rewrite andb_false_r | destruct b; simpl]
         end;
    repeat apply bits_within_lor; try apply bits_within_0;
    first [ apply (flag_within_mask _ 0); [lia | assumption]
          | apply (flag_within_mask _ 1); [lia | assumption]
          | apply (flag_within_mask _ 2); [lia | assumption] ].
Qed.

(** A bit of the events found is in the set that [select] returned for
    it. *)
Lemma task_fn_events_ready readfds writefds exceptfds w :
  let ev := task_fn_events readfds writefds exceptfds w in
  (Z.land ev UEV_READ <> 0 -> readfds (fd w) = true) /\
  (Z.land ev UEV_WRITE <> 0 -> writefds (fd w) = true) /\
  (Z.land ev UEV_ERROR <> 0 -> exceptfds (fd w) = true).
Proof.
  unfold task_fn_events. cbv zeta.
  destruct (readfds (fd w)), (writefds (fd w)), (exceptfds (fd w));
    destruct (Z.land (events w) UEV_READ =? 0),
             (Z.land (events w) UEV_WRITE =? 0),
             (Z.land (events w) UEV_ERROR =? 0);
    simpl; repeat split; intros H; try reflexivity; exfalso; apply H; reflexivity.
Qed.

Lemma no_write ev mask :
  bits_within ev (Z.land mask UEV_EVENT_MASK) ->
  Z.land mask UEV_WRITE = 0 -> Z.land ev UEV_WRITE = 0.
Proof.
  unfold bits_within. intros Hev Hm.
  rewrite <- Hev, <- !Z.land_assoc.
  change (Z.land UEV_EVENT_MASK UEV_WRITE) with UEV_WRITE.
  rewrite Hm. apply Z.land_0_r.
Qed.

(** ** The pass of the selector *)

Lemma set_iot_events_same w : set_iot_events (Z.lor (iot_events w) 0) w = w.
Proof. rewrite Z.lor_0_r. destruct w; reflexivity. Qed.

Lemma selected_refl r w e s : selected r w e s s.
Proof.
  split; [reflexivity |]. split; [reflexivity |]. split; [eauto |].
  intros a wa Ha. exists 0. split; [apply bits_within_0 |].
  now rewrite set_iot_events_same.
Qed.

Lemma selected_trans r w e s1 s2 s3 :
  selected r w e s1 s2 -> selected r w e s2 s3 -> selected r w e s1 s3.
Proof.
  intros (Hc1 & Hi1 & Hx1 & Hw1) (Hc2 & Hi2 & Hx2 & Hw2).
  split; [congruence |]. split; [congruence |]. split.
  - intros c cr b Hc Hb. destruct (Hx1 c cr b Hc Hb) as (cr1 & b1 & Hcr1 & Hb1 & Hh1).
    destruct (Hx2 c cr1 b1 Hcr1 Hb1) as (cr2 & b2 & Hcr2 & Hb2 & Hh2).
    exists cr2, b2. repeat split; congruence.
  - intros a wa Ha. destruct (Hw1 a wa Ha) as (add1 & Hadd1 & Ha1).
    destruct (Hw2 a _ Ha1) as (add2 & Hadd2 & Ha2).
    exists (Z.lor add1 add2). split; [now apply bits_within_lor |].
    rewrite Ha2. simpl. now rewrite Z.lor_assoc.
Qed.

Lemma wp_task_fn_watcher r w e k wk c cr b s :
  uevs s !! k = Some wk -> ctx wk = Some c ->
  ctxs s !! c = Some cr -> egh cr = Some b ->
  wp (task_fn_watcher r w e k) (fun _ s' => selected r w e s s') s.
Proof.
  intros Hk Hc Hcr Hb. unfold task_fn_watcher. wp_run.
  destruct (0 <? active wk); simpl; [| wp_run; apply selected_refl].
  wp_run. destruct (fd wk <? 0); [wp_run; apply selected_refl |].
  cbv zeta. destruct (task_fn_events r w e wk =? 0) eqn:Hev; simpl;
    [wp_run; apply selected_refl |].
  wp_run. rewrite Hc. wp_run.
  split; [reflexivity |]. split; [reflexivity |]. split.
  - intros c' cr' b' Hc' Hb'. st_simpl. rewrite lookup_insert. case_decide.
    + subst c'. rewrite Hcr in Hc'. injection Hc' as <-.
      eexists _, _. split; [reflexivity |]. split; reflexivity.
    + eauto.
  - intros a wa Ha. st_simpl. rewrite lookup_insert. case_decide.
    + subst a. rewrite Hk in Ha. injection Ha as <-.
      exists (task_fn_events r w e wk). split; [apply Z.land_diag | reflexivity].
    + exists 0. split; [apply bits_within_0 |]. now rewrite set_iot_events_same.
Qed.

Lemma wp_task_fn_pass r w e l : forall s,
  (forall k, k ∈ l ->
     exists wk c cr b, uevs s !! k = Some wk /\ ctx wk = Some c /\
                       ctxs s !! c = Some cr /\ egh cr = Some b) ->
  wp (list_for_every_entry l (task_fn_watcher r w e))
     (fun _ s' => selected r w e s s') s.
Proof.
  induction l as [| k l IH]; intros s Hok; simpl.
  - apply wp_ret, selected_refl.
  - destruct (Hok k) as (wk & c & cr & b & Hk & Hc & Hcr & Hb); [left |].
    wp_prim. eapply wp_mono; [eapply wp_task_fn_watcher; eassumption |].
    cbv beta. intros _ s1 Hs1.
    eapply wp_mono.
    + apply IH. intros k' Hk'.
      destruct (Hok k') as (wk' & c' & cr' & b' & Hk1 & Hc1 & Hcr1 & Hb1);
        [now right |].
      destruct Hs1 as (_ & _ & Hx & Hw).
      destruct (Hw k' wk' Hk1) as (add & _ & Hk2).
      destruct (Hx c' cr' b' Hcr1 Hb1) as (cr2 & b2 & Hcr2 & Hb2 & _).
      eexists _, c', cr2, b2. split; [exact Hk2 |]. auto.
    + cbv beta. intros _ s' Hs'. eapply selected_trans; eassumption.
Qed.

Lemma wp_task_fn_collect r w e s :
  iolist_ok s ->
  wp (task_fn_collect r w e) (fun _ s' => selected r w e s s') s.
Proof.
  intros Hok. unfold task_fn_collect. wp_run.
  eapply wp_mono; [apply (wp_task_fn_pass r w e (iolist s) s Hok) |].
  cbv beta. intros _ s' Hs'. wp_run. exact Hs'.
Qed.

(** ** I/O watchers in the sweep *)

Lemma watcher_swept_io bits now w :
  type (watcher_swept bits now w) = type w /\
  events (watcher_swept bits now w) = events w /\
  bits_within (iot_events (watcher_swept bits now w)) (iot_events w).
Proof.
  assert (Hrefl : bits_within (iot_events w) (iot_events w)) by apply Z.land_diag.
  unfold watcher_swept.
  destruct (active w =? 0); [auto |].
  destruct (type w) eqn:Hty.
  - destruct (cb w); [| rewrite Hty; auto].
    destruct (sweep_decision bits now w) as [[] ev]; [| rewrite Hty; auto].
    unfold io_cleared. simpl. rewrite Hty. repeat split.
    now apply bits_within_land.
  - pose proof (timer_swept_fields now w) as (_&_&->&_&_&_&->&->&_). auto.
  - pose proof (timer_swept_fields now w) as (_&_&->&_&_&_&->&->&_). auto.
  - destruct (Z.land bits UEV_EG_BIT_EVENT =? 0); simpl; rewrite ?Hty; auto.
Qed.

Lemma sweep_calls_io bits now a w cl :
  type w = UEV_IO_TYPE -> cl ∈ sweep_calls bits now a w ->
  call_events cl = Z.land (iot_events w) UEV_EVENT_MASK.
Proof.
  intros Hty. unfold sweep_calls, sweep_decision. rewrite Hty.
  destruct (cb w); [| now intros ?%elem_of_nil].
  destruct (active w =? 0); [now intros ?%elem_of_nil |].
  destruct (_ && _); [| now intros ?%elem_of_nil].
  intros ->%list_elem_of_singleton. reflexivity.
Qed.

Section IoIteration.

Variables portMAX_DELAY portTICK_PERIOD_MS : Z.

(** Any watcher across one iteration, as far as I/O is concerned. *)
Lemma iteration_io_view fuel c cr b l nd s a wa :
  registry s c l -> (length l <= fuel)%nat ->
  ctxs s !! c = Some cr -> egh cr = Some b ->
  uevs s !! a = Some wa ->
  wp (uev_run_iteration portMAX_DELAY portTICK_PERIOD_MS fuel c nd)
     (fun _ s' =>
        exists wa' new,
          uevs s' !! a = Some wa' /\
          type wa' = type wa /\ events wa' = events wa /\
          bits_within (iot_events wa') (iot_events wa) /\
          calls_of a (calls s') = calls_of a (calls s) ++ new /\
          (type wa = UEV_IO_TYPE ->
           forall cl, cl ∈ new ->
             call_events cl = Z.land (iot_events wa) UEV_EVENT_MASK)) s.
Proof.
  intros Hreg Hfuel Hc Hb Ha.
  eapply wp_mono; [eapply wp_uev_run_iteration; eassumption |].
  cbv beta zeta. intros _ s' ((_ & _ & _ & _ & Hall) & _).
  destruct (Hall a wa Ha) as (Hsame & Hdone).
  destruct (decide (a ∈ l)) as [Hin | Hnin].
  - destruct Hdone as (t & _ & Hcore & Hcalls);
      [exact Hin | apply not_elem_of_nil |].
    destruct (core_lookup_Some _ _ _ Hcore) as (wa' & Ha' & Hc').
    apply core_fields in Hc'.
    destruct Hc' as (Hio & _ & Hev & _ & _ & _ & _ & _ & _ & Hty & _).
    match type of Hcore with
    | context [watcher_swept b ?n wa] =>
        destruct (watcher_swept_io b n wa) as (Hty' & Hev' & Hio');
        exists wa', (sweep_calls b n a wa)
    end.
    split; [exact Ha' |]. split; [congruence |]. split; [congruence |].
    split; [now rewrite Hio |]. split; [exact Hcalls |].
    intros Hio_ty cl. now apply sweep_calls_io.
  - destruct Hsame as (Hcore & Hcalls); [now left |].
    destruct (core_lookup_Some _ _ _ Hcore) as (wa' & Ha' & Hc').
    apply core_fields in Hc'.
    destruct Hc' as (Hio & _ & Hev & _ & _ & _ & _ & _ & _ & Hty & _).
    exists wa', []. split; [exact Ha' |]. split; [exact Hty |].
    split; [exact Hev |]. split; [rewrite Hio; apply Z.land_diag |].
    split; [now rewrite app_nil_r |].
    intros _ cl Hcl. now apply elem_of_nil in Hcl.
Qed.

End IoIteration.

Lemma pending_ok_step a mask s s' :
  io_step s s' -> pending_ok a mask s ->
  pending_ok a mask s' /\
  exists new, calls_of a (calls s') = calls_of a (calls s) ++ new /\
    forall cl, cl ∈ new ->
      bits_within (call_events cl) (Z.land mask UEV_EVENT_MASK).
Proof.
  intros Hstep (wa & Ha & Hty & Hm & Hp).
  destruct Hstep as [r w e s s' Hok E | pM pT fuel c cr b l nd nd' s s' Hreg Hfuel Hc Hb E].
  - pose proof (wp_task_fn_collect r w e s Hok) as H.
    unfold wp in H. rewrite E in H. destruct H as (Hcalls & _ & _ & Hw).
    destruct (Hw a wa Ha) as (add & Hadd & Ha').
    split.
    + eexists. split; [exact Ha' |]. split; [exact Hty |]. split; [exact Hm |].
      simpl. apply bits_within_lor; [exact Hp |].
      eapply bits_within_trans; [exact Hadd |].
      rewrite <- Hm. apply task_fn_events_within.
    + exists []. rewrite Hcalls, app_nil_r. split; [reflexivity |].
      intros cl Hcl. now apply elem_of_nil in Hcl.
  - pose proof (iteration_io_view pM pT fuel c cr b l nd s a wa
                  Hreg Hfuel Hc Hb Ha) as H.
    unfold wp in H. rewrite E in H.
    destruct H as (wa' & new & Ha' & Hty' & Hev' & Hio' & Hcalls & Hnew).
    split.
    + exists wa'. split; [exact Ha' |]. split; [congruence |].
      split; [congruence |]. eapply bits_within_trans; eassumption.
    + exists new. split; [exact Hcalls |]. intros cl Hcl.
      rewrite (Hnew Hty cl Hcl).
      unfold bits_within in *.
      rewrite <- Hp at 2.
      rewrite <- !Z.land_assoc. f_equal.
      rewrite (Z.land_comm UEV_EVENT_MASK), <- !Z.land_assoc.
      reflexivity.
Qed.

(** ** Setting a timer *)

Lemma registry_update s c l a wa wa' :
  registry s c l -> uevs s !! a = Some wa ->
  next wa' = next wa -> prev wa' = prev wa -> ctx wa' = ctx wa ->
  registry (with_uevs (<[a := wa']> (uevs s)) s) c l.
Proof.
  intros (cr & q & Hcr & Hd & Hnd & Hown) Ha Hn Hp Hc.
  exists cr, q. st_simpl. split; [exact Hcr |].
  split.
  { eapply dseg_frame; [| exact Hd]. intros k _. rewrite links_insert.
    case_decide; [| reflexivity]. subst k.
    rewrite (links_Some _ _ _ Ha). congruence. }
  split; [exact Hnd |].
  intros k Hk. destruct (Hown k Hk) as (w & Hw & Hcw).
  rewrite lookup_insert. case_decide.
  - subst k. rewrite Ha in Hw. injection Hw as <-.
    exists wa'. split; [reflexivity | congruence].
  - eauto.
Qed.

Lemma registry_ctx_update s c l cr cr' :
  registry s c l -> ctxs s !! c = Some cr -> watchers cr' = watchers cr ->
  registry (with_ctxs (<[c := cr']> (ctxs s)) s) c l.
Proof.
  intros (cr0 & q & Hcr & Hd & Hnd & Hown) Hc Hw.
  rewrite Hc in Hcr. injection Hcr as <-.
  exists cr', q. st_simpl. rewrite Hw.
  split; [apply lookup_insert_eq | auto].
Qed.

(** [_uev_watcher_start] on a timer of the context [c]. *)
Lemma wp_uev_watcher_start_timer s c cr l a wa :
  registry s c l -> ctxs s !! c = Some cr ->
  uevs s !! a = Some wa -> ctx wa = Some c -> is_timer (type wa) = true ->
  (links_on_start wa = true -> a ∉ l) ->
  wp (_uev_watcher_start (Some a))
     (fun rc s' =>
        rc = 0 /\ same_env s s' /\
        (forall k, k <> a -> core <$> uevs s' !! k = core <$> uevs s !! k) /\
        core <$> uevs s' !! a =
          Some (core (if 0 <? active wa then wa else set_active 1 wa)) /\
        (forall c', c' <> c -> ctxs s' !! c' = ctxs s !! c') /\
        (exists cr', ctxs s' !! c = Some cr' /\ running cr' = running cr /\
                     egh cr' = egh cr) /\
        registry s' c (if links_on_start wa then a :: l else l)) s.
Proof.
  intros Hreg Hcr Ha Hc Hty Hfresh.
  assert (Hio : bool_decide (type wa = UEV_IO_TYPE) = false).
  { apply bool_decide_eq_false. intros E. rewrite E in Hty. discriminate. }
  unfold _uev_watcher_start. wp_run. rewrite Hc, Hio. simpl. wp_run.
  unfold links_on_start in *.
  destruct (0 <? active wa) eqn:Hact; simpl in *.
  { wp_run. split; [reflexivity |]. split; [apply same_env_refl |].
    split; [reflexivity |]. split; [now rewrite Ha |].
    split; [reflexivity |]. split; [eauto | exact Hreg]. }
  wp_run.
  set (s1 := with_uevs (<[a := set_active 1 wa]> (uevs s)) s).
  assert (Hreg1 : registry s1 c l).
  { apply registry_update with (wa := wa); auto. }
  destruct (bool_decide (type wa = UEV_TIMER_TS_TYPE)) eqn:Hts; simpl in *.
  - (* threadsafe: already on the list *)
    wp_run. split; [reflexivity |]. split; [solve_env |].
    split; [intros k Hk; subst s1; st_simpl; now rewrite lookup_insert_ne |].
    split; [subst s1; st_simpl; now rewrite lookup_insert_eq |].
    split; [reflexivity |]. split; [eauto | exact Hreg1].
  - (* linked at the head *)
    destruct Hreg1 as (cr1 & q & Hcr1 & Hd & Hnd & Hown).
    assert (cr1 = cr) as -> by (subst s1; st_simpl; congruence).
    wp_run. eapply wp_mono.
    { eapply wp_UEV_INSERT with (wa := set_active 1 wa) (l := l);
        [exact Hcr1 | apply lookup_insert_eq | auto | exact Hnd | exact Hd]. }
    cbv beta. intros [] s' (Henv & Hsc & Hctx & q' & Hd'). wp_run.
    split; [reflexivity |].
    split; [eapply same_env_trans; [| exact Henv]; solve_env |].
    split.
    { intros k Hk. rewrite Hsc. subst s1. st_simpl. now rewrite lookup_insert_ne. }
    split.
    { rewrite Hsc. subst s1. st_simpl. now rewrite lookup_insert_eq. }
    split.
    { intros c' Hc'. rewrite Hctx. now rewrite lookup_insert_ne. }
    split.
    { eexists. rewrite Hctx, lookup_insert_eq. split; [reflexivity |]. auto. }
    exists (set_watchers (Some a) cr), q'.
    split; [rewrite Hctx; apply lookup_insert_eq |].
    split; [exact Hd' |].
    split; [constructor; auto |].
    intros k Hk.
    assert (Hk1 : exists w, uevs s1 !! k = Some w /\ ctx w = Some c).
    { apply elem_of_cons in Hk as [-> | Hk]; [| auto].
      eexists. split; [apply lookup_insert_eq | exact Hc]. }
    destruct Hk1 as (w & Hw & Hcw).
    destruct (core_lookup _ _ _ _ (Hsc k) Hw) as (w' & Hw' & Hcore).
    exists w'. split; [exact Hw' |].
    apply core_fields in Hcore. destruct Hcore as (_&_&_&_&_&_&_&_&_&_&_&->).
    exact Hcw.
Qed.

(** A successful [uev_timer_set] on a timer of the context [c]. *)
Lemma wp_uev_timer_set s c cr b l a wa timeout period :
  registry s c l -> ctxs s !! c = Some cr -> egh cr = Some b ->
  uevs s !! a = Some wa -> ctx wa = Some c -> is_timer (type wa) = true ->
  0 <= timeout -> 0 <= period ->
  (links_on_start wa = true -> a ∉ l) ->
  wp (uev_timer_set (Some a) timeout period)
     (fun rc s' =>
        rc = 0 /\ same_env (with_ticks (S (ticks s)) s) s' /\
        (forall k, k <> a -> core <$> uevs s' !! k = core <$> uevs s !! k) /\
        core <$> uevs s' !! a =
          Some (core (timer_set_to (now_ms s) (running cr) timeout period wa)) /\
        (forall c', c' <> c -> ctxs s' !! c' = ctxs s !! c') /\
        (exists cr', ctxs s' !! c = Some cr' /\ running cr' = running cr /\
                     egh cr' = Some (Z.lor b UEV_EG_BIT_TIMER)) /\
        registry s' c (if links_on_start wa then a :: l else l)) s.
Proof.
  intros Hreg Hcr Hb Ha Hc Hty Hto Hpe Hfresh.
  unfold uev_timer_set. wp_run. rewrite Hc.
  assert (((timeout <? 0) || (period <? 0)) = false) as ->.
  { apply orb_false_iff. split; apply Z.ltb_ge; lia. }
  wp_run. change (now_us s / 1000) with (now_ms s).
  set (w3 := set_deadline
               (if negb (running cr =? 0) && negb (timeout =? 0)
                then wrap64 (now_ms s + timeout) else 0)
               (set_period period (set_timeout timeout wa))).
  set (s0 := with_ticks (S (ticks s)) s).
  set (s2 := with_uevs (<[a := w3]> (uevs s0)) s0).
  set (s3 := with_ctxs (<[c := set_egh (Some (Z.lor b UEV_EG_BIT_TIMER)) cr]> (ctxs s2)) s2).
  apply wp_mono with (Q := fun _ s' => s' = s2).
  { simpl. subst s2 s0 w3.
    destruct (negb (running cr =? 0) && negb (timeout =? 0)); wp_run;
      st_simpl; now rewrite !insert_insert_eq. }
  intros _ ? ->. cbv beta. wp_run.
  change (wp (_uev_watcher_start (Some a))
             (fun rc s' =>
                rc = 0 /\ same_env s0 s' /\
                (forall k, k <> a -> core <$> uevs s' !! k = core <$> uevs s !! k) /\
                core <$> uevs s' !! a =
                  Some (core (timer_set_to (now_ms s) (running cr) timeout period wa)) /\
                (forall c', c' <> c -> ctxs s' !! c' = ctxs s !! c') /\
                (exists cr', ctxs s' !! c = Some cr' /\ running cr' = running cr /\
                             egh cr' = Some (Z.lor b UEV_EG_BIT_TIMER)) /\
                registry s' c (if links_on_start wa then a :: l else l)) s3).
  assert (Hreg3 : registry s3 c l).
  { subst s3. apply registry_ctx_update with (cr := cr); [| exact Hcr | reflexivity].
    subst s2. apply (registry_update s0 c l a wa w3); auto. }
  eapply wp_mono.
  { eapply wp_uev_watcher_start_timer with (wa := w3) (cr := set_egh _ cr) (l := l).
    - exact Hreg3.
    - subst s3. st_simpl. apply lookup_insert_eq.
    - subst s3. st_simpl. apply lookup_insert_eq.
    - exact Hc.
    - exact Hty.
    - exact Hfresh. }
  cbv beta. intros rc s' (-> & Henv & Hoth & Hcore & Hctx & Hctx' & Hreg').
  split; [reflexivity |].
  split; [eapply same_env_trans; [| exact Henv]; subst s3 s2 s0; solve_env |].
  split.
  { intros k Hk. rewrite (Hoth k Hk). subst s3 s2 s0. st_simpl.
    now rewrite lookup_insert_ne. }
  split; [exact Hcore |].
  split.
  { intros c' Hc'. rewrite (Hctx c' Hc'). subst s3 s2 s0. st_simpl.
    now rewrite lookup_insert_ne. }
  split; [exact Hctx' | exact Hreg'].
Qed.

(** ** Stopping a timer *)

Lemma sweep_inv_registry_app c pre node rest s :
  sweep_inv c pre node rest s -> registry s c (pre ++ rest).
Proof.
  intros (cr & q1 & q & Hc & Hpre & Hrest & Hnd & Hown).
  exists cr, q. split; [exact Hc |]. split; [| auto].
  apply dseg_app. eauto.
Qed.

Lemma registry_head_in s c l cr a :
  registry s c l -> ctxs s !! c = Some cr -> watchers cr = Some a -> a ∈ l.
Proof.
  intros (cr0 & q & Hc & Hd & _) Hcr Hh.
  rewrite Hcr in Hc. injection Hc as <-.
  apply dseg_head in Hd. rewrite Hh in Hd.
  destruct l; [discriminate | injection Hd as ->; left].
Qed.

(** [uev_timer_stop] on a timer that is on the list of its context. *)
Lemma wp_uev_timer_stop_linked s c pre a rest wa :
  registry s c (pre ++ a :: rest) ->
  uevs s !! a = Some wa -> is_timer (type wa) = true ->
  wp (uev_timer_stop (Some a))
     (fun rc s' =>
        rc = 0 /\ same_env s s' /\
        (forall k, k <> a -> core <$> uevs s' !! k = core <$> uevs s !! k) /\
        core <$> uevs s' !! a =
          Some (core (if 0 <? active wa then set_active 0 wa else wa)) /\
        links (uevs s') a = Some (None, None) /\
        registry s' c (pre ++ rest)) s.
Proof.
  intros Hreg Ha Hty.
  assert (Hnd : NoDup (pre ++ a :: rest)) by (destruct Hreg as (?&?&?&?&?&?); auto).
  assert (Hnin : a ∉ pre ++ rest).
  { apply NoDup_app in Hnd as (_ & H1 & H2). inversion H2; subst.
    intros [H | H]%elem_of_app; [apply (H1 a H); left | contradiction]. }
  pose proof (registry_split _ _ _ _ _ Hreg) as Hinv.
  unfold uev_timer_stop. wp_prim.
  eapply wp_mono; [eapply wp_uev_timer_stop_swept; eassumption |].
  cbv beta. intros rc s1 (-> & Henv & Hoth & Hcore & Hctx & Hctx' & Hnx).
  destruct (core_lookup_Some _ _ _ Hcore) as (w1 & Hw1 & Hc1).
  assert (Hcw : ctx w1 = Some c).
  { destruct (registry_lookup _ _ _ a Hreg) as (w & Hw & Hcw);
      [apply elem_of_app; right; left |].
    rewrite Ha in Hw. injection Hw as <-.
    apply core_fields in Hc1. destruct Hc1 as (_&_&_&_&_&_&_&_&_&_&_&->).
    now destruct (0 <? active wa). }
  simpl. wp_run. rewrite Hcw. wp_run.
  destruct Hnx as [Hnx | (Hnx & Hla)].
  - (* still linked: unlink it *)
    assert (Hn1 : next w1 = next wa).
    { destruct Hnx as (cr1 & q1 & q & _ & Hpre & _).
      apply dseg_app in Hpre as (q0 & mid & _ & Hcell).
      simpl in Hcell. destruct Hcell as (_ & w & Hw & _ & Hn & _).
      rewrite Hw1 in Hw. injection Hw as <-. exact Hn. }
    pose proof (sweep_inv_registry_app _ _ _ _ _ Hnx) as Hreg1.
    rewrite <- app_assoc in Hreg1. simpl in Hreg1.
    destruct Hreg1 as (cr1 & q & Hcr1 & Hd1 & Hnd1 & Hown1).
    eapply wp_mono; [eapply wp_UEV_REMOVE; eassumption |].
    cbv beta. intros [] s' Hrem. wp_run.
    pose proof Hrem as (Henv' & Hsc & Hla & cr' & q1' & q' & Hctx2 & _ & _ & Hd2 & Hd3).
    split; [reflexivity |].
    split; [eapply same_env_trans; eassumption |].
    split; [intros k Hk; rewrite Hsc; auto |].
    split; [now rewrite Hsc |].
    split; [exact Hla |].
    exists cr', q'. split; [rewrite Hctx2; apply lookup_insert_eq |].
    split; [apply dseg_app; eauto |].
    split.
    { apply NoDup_app in Hnd as (H1 & H2 & H3). apply NoDup_app.
      split; [exact H1 |]. split; [| now inversion H3].
      intros k Hk Hk'. apply (H2 k Hk). now right. }
    intros k Hk. eapply same_cores_owned; [exact Hsc | exact Hown1 |].
    apply elem_of_app in Hk as [Hk | Hk]; apply elem_of_app;
      [now left | right; now right].
  - (* already unlinked *)
    pose proof (sweep_inv_registry_app _ _ _ _ _ Hnx) as Hreg1.
    apply links_inv in Hla as (w & Hw & Hn & Hp).
    rewrite Hw1 in Hw. injection Hw as <-.
    destruct Hreg1 as (cr1 & q & Hcr1 & Hd1 & Hnd1 & Hown1).
    assert (Hhd : watchers cr1 <> Some a).
    { intros Hh. apply Hnin.
      eapply registry_head_in; [| exact Hcr1 | exact Hh].
      exists cr1, q. auto. }
    apply wp_intro with (a := tt) (s' := s1).
    { eapply UEV_REMOVE_detached; eauto. }
    wp_run.
    split; [reflexivity |]. split; [exact Henv |]. split; [exact Hoth |].
    split; [exact Hcore |].
    split; [rewrite (links_Some _ _ _ Hw1); congruence |].
    exists cr1, q. auto.
Qed.

(** ** Creating a timer *)

Lemma wp_uev_timer_init2 s c cr b l a w0 f ar timeout period threadsafe :
  registry s c l -> ctxs s !! c = Some cr -> egh cr = Some b ->
  uevs s !! a = Some w0 -> a ∉ l ->
  0 <= timeout -> 0 <= period ->
  wp (uev_timer_init2 (Some c) (Some a) f ar timeout period threadsafe)
     (fun rc s' =>
        rc = 0 /\ registry s' c (a :: l) /\
        exists wa cr' b',
          uevs s' !! a = Some wa /\
          type wa = (if threadsafe =? 0 then UEV_TIMER_TYPE
                     else UEV_TIMER_TS_TYPE) /\
          ctx wa = Some c /\ active wa = 1 /\ fd wa = -1 /\
          t_timeout wa = timeout /\ t_period wa = period /\
          ctxs s' !! c = Some cr' /\ egh cr' = Some b') s.
Proof.
  intros Hreg Hcr Hb Ha Hnin Hto Hpe.
  unfold uev_timer_init2.
  assert (((timeout <? 0) || (period <? 0)) = false) as ->.
  { apply orb_false_iff. split; apply Z.ltb_ge; lia. }
  unfold _uev_lock_init. wp_run.
  set (ty := if threadsafe =? 0 then UEV_TIMER_TYPE else UEV_TIMER_TS_TYPE).
  assert (Hty : is_timer ty = true) by (subst ty; now destruct (threadsafe =? 0)).
  unfold _uev_watcher_init. wp_run.
  set (w1 := mk_uev (next w0) (prev w0) 0 0 UEV_READ f ar (t_timeout w0)
                    (t_period w0) (t_deadline w0) (e_posted w0) ty (-1) (Some c)).
  set (s1 := with_uevs (<[a := w1]> (uevs s)) s).
  assert (Hreg1 : registry s1 c l).
  { destruct Hreg as (cr0 & q & Hcr0 & Hd & Hnd & Hown).
    exists cr0, q. subst s1. st_simpl. split; [exact Hcr0 |].
    split.
    { eapply dseg_frame; [| exact Hd]. intros k Hk. rewrite links_insert.
      rewrite decide_False; [reflexivity |]. now intros ->. }
    split; [exact Hnd |].
    intros k Hk. rewrite lookup_insert_ne; [auto |]. now intros ->. }
  (* the state and the list when [uev_timer_set] is called *)
  assert (Hmid : wp (when (bool_decide (ty = UEV_TIMER_TS_TYPE)) (_UEV_INSERT a c))
                    (fun _ s2 =>
                       same_env s1 s2 /\
                       registry s2 c (if bool_decide (ty = UEV_TIMER_TS_TYPE)
                                      then a :: l else l) /\
                       (exists w2, uevs s2 !! a = Some w2 /\ core w2 = core w1) /\
                       exists cr2, ctxs s2 !! c = Some cr2 /\ egh cr2 = Some b) s1).
  { destruct (bool_decide (ty = UEV_TIMER_TS_TYPE)) eqn:Hts; simpl.
    - destruct Hreg1 as (cr0 & q & Hcr0 & Hd & Hnd & Hown).
      assert (cr0 = cr) as -> by (subst s1; st_simpl; congruence).
      eapply wp_mono.
      { eapply wp_UEV_INSERT with (wa := w1) (l := l);
          [exact Hcr0 | apply lookup_insert_eq | exact Hnin | exact Hnd | exact Hd]. }
      cbv beta. intros [] s2 (Henv & Hsc & Hctx & q' & Hd').
      split; [exact Henv |].
      assert (Ha2 : exists w2, uevs s2 !! a = Some w2 /\ core w2 = core w1).
      { apply (core_lookup _ _ _ _ (Hsc a)). apply lookup_insert_eq. }
      split; [| split; [exact Ha2 |]].
      + exists (set_watchers (Some a) cr), q'.
        split; [rewrite Hctx; apply lookup_insert_eq |].
        split; [exact Hd' |].
        split; [constructor; auto |].
        intros k Hk.
        assert (Hk1 : exists w, uevs s1 !! k = Some w /\ ctx w = Some c).
        { apply elem_of_cons in Hk as [-> | Hk]; [| auto].
          eexists. split; [apply lookup_insert_eq | reflexivity]. }
        destruct Hk1 as (w & Hw & Hcw).
        destruct (core_lookup _ _ _ _ (Hsc k) Hw) as (w' & Hw' & Hcore).
        exists w'. split; [exact Hw' |].
        apply core_fields in Hcore. destruct Hcore as (_&_&_&_&_&_&_&_&_&_&_&->).
        exact Hcw.
      + eexists. rewrite Hctx, lookup_insert_eq. split; [reflexivity | exact Hb].
    - apply wp_ret. split; [apply same_env_refl |]. split; [exact Hreg1 |].
      split; [eexists; split; [apply lookup_insert_eq | reflexivity] |].
      exists cr. auto. }
  eapply wp_mono; [exact Hmid |].
  cbv beta. intros [] s2 (Henv & Hreg2 & (w2 & Hw2 & Hc2) & cr2 & Hcr2 & Hb2).
  wp_run. simpl. wp_prim.
  pose proof (core_fields _ _ Hc2) as (_&Hact2&_&_&_&_&_&_&_&Hty2&Hfd2&Hctx2).
  simpl in Hact2, Hty2, Hfd2, Hctx2.
  eapply wp_mono.
  { eapply wp_uev_timer_set with (wa := w2); try eassumption.
    - now rewrite Hty2.
    - unfold links_on_start. rewrite Hact2, Hty2. simpl.
      destruct (bool_decide (ty = UEV_TIMER_TS_TYPE)); [discriminate | auto]. }
  cbv beta. intros rc s3 (-> & _ & _ & Hcore & _ & (cr3 & Hcr3 & _ & Hb3) & Hreg3).
  simpl. wp_run.
  split; [reflexivity |].
  split.
  { unfold links_on_start in Hreg3. rewrite Hact2, Hty2 in Hreg3. simpl in Hreg3.
    now destruct (bool_decide (ty = UEV_TIMER_TS_TYPE)). }
  destruct (core_lookup_Some _ _ _ Hcore) as (w3 & Hw3 & Hc3).
  apply core_fields in Hc3.
  destruct Hc3 as (_&Hact3&_&_&_&Hto3&Hpe3&_&_&Hty3&Hfd3&Hctx3).
  unfold timer_set_to in *. cbv zeta in *. rewrite Hact2 in *. simpl in *.
  exists w3, cr3, (Z.lor b UEV_EG_BIT_TIMER).
  repeat split; congruence.
Qed.

Lemma wp_uev_timer_start a wa (Q : Z -> state -> Prop) s :
  uevs s !! a = Some wa -> fd wa = -1 ->
  wp (uev_timer_set (Some a) (t_timeout wa) (t_period wa)) Q s ->
  wp (uev_timer_start (Some a)) Q s.
Proof.
  intros Ha Hfd HQ. unfold uev_timer_start. wp_run. rewrite Hfd.
  change (negb (-1 =? -1)) with false. cbv iota. wp_run. exact HQ.
Qed.

(** ** The entry of the loop *)

Lemma sweep_inv_next c pre a rest s wa :
  sweep_inv c pre (Some a) (a :: rest) s -> uevs s !! a = Some wa ->
  next wa = match rest with x :: _ => Some x | [] => None end.
Proof.
  intros Hinv Ha.
  destruct (sweep_inv_advance _ _ _ _ _ _ Hinv Ha)
    as (cr & q1 & q & _ & _ & Hd & _).
  now apply dseg_head in Hd.
Qed.

Lemma timer_set_to_core now run timeout period w1 w2 :
  core w1 = core w2 ->
  core (timer_set_to now run timeout period w1) =
  core (timer_set_to now run timeout period w2).
Proof.
  destruct w1, w2. unfold core, timer_set_to. simpl.
  intros [= -> -> -> -> -> -> -> -> -> -> -> ->].
  destruct (0 <? _); reflexivity.
Qed.

Lemma timer_set_to_fields now run timeout period w :
  let w' := timer_set_to now run timeout period w in
  t_timeout w' = timeout /\ t_period w' = period /\
  t_deadline w' = (if negb (run =? 0) && negb (timeout =? 0)
                   then wrap64 (now + timeout) else 0) /\
  active w' = (if 0 <? active w then active w else 1) /\
  type w' = type w /\ cb w' = cb w /\ arg w' = arg w.
Proof.
  unfold timer_set_to. cbv zeta. destruct (0 <? active w); repeat split.
Qed.

Lemma timer_set_to_ok now run w :
  timer_ok w ->
  let w' := timer_set_to now run (t_timeout w) (t_period w) w in
  timer_ok w' /\ 0 < active w'.
Proof.
  intros (Hto & Hpe & Hde). cbv zeta.
  destruct (timer_set_to_fields now run (t_timeout w) (t_period w) w)
    as (E1 & E2 & E3 & E4 & _).
  unfold timer_ok. rewrite E1, E2, E3, E4.
  split; [split; [exact Hto | split; [exact Hpe |]] |].
  - destruct (_ && _); [| lia].
    unfold wrap64. apply Z.mod_pos_bound. lia.
  - destruct (0 <? active w) eqn:E; [now apply Z.ltb_lt in E | lia].
Qed.

Lemma timers_ok_frame s s' l k wk :
  timers_ok s l ->
  (forall j, j <> k -> core <$> uevs s' !! j = core <$> uevs s !! j) ->
  (exists w', uevs s' !! k = Some w' /\ core w' = core wk) ->
  (is_timer (type wk) = true ->
   timer_ok wk /\ (type wk = UEV_TIMER_TYPE -> 0 < active wk)) ->
  timers_ok s' l.
Proof.
  intros Hok Hoth (wk' & Hk' & Hck) Hwk j w' Hj Hw' Hty.
  destruct (decide (j = k)) as [-> | Hne].
  - rewrite Hk' in Hw'. injection Hw' as <-.
    apply core_fields in Hck.
    destruct Hck as (_ & Ha & _ & _ & _ & Hto & Hpe & Hde & _ & Hty' & _).
    unfold timer_ok. rewrite Ha, Hto, Hpe, Hde, Hty' in *. auto.
  - pose proof (Hoth j Hne) as E. rewrite Hw' in E. simpl in E.
    symmetry in E. apply core_lookup_Some in E as (w & Hw & Hc).
    apply core_fields in Hc.
    destruct Hc as (_ & Ha & _ & _ & _ & Hto & Hpe & Hde & _ & Hty' & _).
    rewrite <- Hty' in Hty.
    destruct (Hok j w Hj Hw Hty) as (Hok1 & Hact).
    unfold timer_ok in *. rewrite <- Ha, <- Hto, <- Hpe, <- Hde, <- Hty'. auto.
Qed.

(** The body of the pass, at the node [k] of the list: the timer is set
    again with its own timeout and period, and stays where it is. *)
Lemma wp_uev_run_rearm c a wa pre k rest s0 s wk nd :
  sweep_inv c pre (Some k) (k :: rest) s ->
  uevs s !! k = Some wk ->
  is_timer (type wa) = true ->
  rearm_progress c a wa (pre ++ k :: rest) (k :: rest) s0 s ->
  wp (uev_run_rearm k nd)
     (fun _ s' => (rearm_progress c a wa (pre ++ k :: rest) rest s0 s' /\
                   registry s' c (pre ++ k :: rest)) /\
                  sweep_next c pre k wk rest s') s.
Proof.
  intros Hinv Hk Htya (Hclk & Htk & Hcl & (cr & b & Hcr & Hrun & Hb) & Hok & Hah & Hdone).
  destruct (sweep_inv_cons _ _ _ _ _ _ Hinv) as (_ & _ & _ & Hkrest).
  assert (Hkin : k ∈ pre ++ k :: rest) by (apply elem_of_app; right; left).
  unfold uev_run_rearm. wp_run.
  destruct (is_timer (type wk)) eqn:Hty.
  - (* a timer: set again *)
    destruct (Hok k wk Hkin Hk Hty) as ((Hto & Hpe & Hde) & Hact).
    pose proof (sweep_inv_registry_app _ _ _ _ _ Hinv) as Hreg.
    destruct (registry_lookup _ _ _ _ Hreg Hkin) as (wk0 & Hk0 & Hctx).
    rewrite Hk in Hk0. injection Hk0 as <-.
    assert (Hlk : links_on_start wk = false).
    { unfold links_on_start, is_timer in *.
      destruct (type wk) eqn:E; try discriminate.
      - assert (0 < active wk) by (apply Hact; reflexivity).
        assert ((0 <? active wk) = true) as -> by (apply Z.ltb_lt; lia).
        reflexivity.
      - rewrite bool_decide_eq_true_2 by reflexivity.
        now rewrite andb_false_r. }
    wp_prim.
    eapply wp_mono.
    { eapply (wp_uev_timer_set s c cr b (pre ++ k :: rest) k wk); try eassumption.
      - lia.
      - lia.
      - rewrite Hlk. discriminate. }
    cbv beta. intros rc s' (-> & Henv & Hoth & Hcore & _ & (cr' & Hcr' & Hrun' & Hb') & Hreg').
    rewrite Hlk in Hreg'. rewrite Hrun in *.
    destruct (core_lookup_Some _ _ _ Hcore) as (wk' & Hk' & Hck').
    destruct Henv as (_ & Hclk' & Htk' & Hcl' & _). st_simpl.
    assert (Hnx : sweep_next c pre k wk rest s').
    { left. pose proof (registry_split _ _ _ _ _ Hreg') as Hinv'.
      rewrite (sweep_inv_next _ _ _ _ _ _ Hinv Hk).
      rewrite <- (sweep_inv_next _ _ _ _ _ _ Hinv' Hk').
      now apply sweep_inv_advance. }
    wp_run.
    apply wp_mono with (Q := fun _ s2 => s2 = s');
      [destruct (_ <? _); wp_run; reflexivity |].
    intros _ ? ->. split; [| exact Hnx]. split; [| exact Hreg'].
    split; [congruence |]. split; [lia |]. split; [congruence |].
    split; [exists cr', (Z.lor b UEV_EG_BIT_TIMER); auto |].
    split.
    { apply (timers_ok_frame s s' _ k
               (timer_set_to (now_ms s) 1 (t_timeout wk) (t_period wk) wk));
        auto.
      - eauto.
      - intros _.
        destruct (timer_set_to_ok (now_ms s) 1 wk) as (H1 & H2);
          [repeat split; tauto |].
        split; [exact H1 | intros _; exact H2]. }
    destruct (decide (a = k)) as [-> | Hne].
    + split; [intros H; contradiction |].
      intros _. exists (ticks s). split; [lia |].
      rewrite Hcore. f_equal.
      assert (Hc0 : core wk = core wa).
      { assert (E : core <$> uevs s !! k = Some (core wa)) by (apply Hah; left).
        rewrite Hk in E. simpl in E. congruence. }
      pose proof (core_fields _ _ Hc0) as (_ & _ & _ & _ & _ & E1 & E2 & _).
      rewrite E1, E2. unfold now_ms. rewrite Hclk.
      now apply timer_set_to_core.
    + split.
      * intros H. rewrite (Hoth a Hne). apply Hah. now right.
      * intros H. destruct Hdone as (t & Ht & Hc0).
        { intros [-> | H']%elem_of_cons; contradiction. }
        exists t. split; [lia |]. now rewrite (Hoth a Hne).
  - (* not a timer: passed over *)
    wp_run. split; [| left; now apply sweep_inv_advance].
    split; [| now apply sweep_inv_registry_app in Hinv].
    split; [exact Hclk |]. split; [exact Htk |]. split; [exact Hcl |].
    split; [eauto |]. split; [exact Hok |].
    assert (Hne : a <> k).
    { intros ->. assert (E : core <$> uevs s !! k = Some (core wa)) by (apply Hah; left).
      rewrite Hk in E. simpl in E. apply (inj Some) in E.
      apply core_fields in E. destruct E as (_&_&_&_&_&_&_&_&_& E &_).
      congruence. }
    split.
    + intros H. apply Hah. now right.
    + intros H. apply Hdone. intros [-> | H']%elem_of_cons; contradiction.
Qed.

Lemma registry_unique s c l l' : registry s c l -> registry s c l' -> l = l'.
Proof.
  intros (cr & q & Hc & Hd & _) (cr' & q' & Hc' & Hd' & _).
  rewrite Hc in Hc'. injection Hc' as <-.
  eapply dseg_unique; eassumption.
Qed.

(** The entry of [uev_run] on a well-formed registry returns, given fuel
    for the length of the list; the [running] flag is set and every timer
    of the list has been set again, on the list as it was. *)
Lemma wp_uev_run_entry fuel c cr b l a wa flags s :
  registry s c l -> (length l <= fuel)%nat ->
  ctxs s !! c = Some cr -> egh cr = Some b ->
  timers_ok s l ->
  a ∈ l -> uevs s !! a = Some wa -> is_timer (type wa) = true ->
  wp (uev_run_entry fuel c flags)
     (fun _ s' => rearm_progress c a wa l [] s s' /\ registry s' c l) s.
Proof.
  intros Hreg Hfuel Hc Hb Hok Hin Ha Hty.
  unfold uev_run_entry. cbv zeta. wp_run.
  set (s1 := with_ctxs _ s).
  assert (Hreg1 : registry s1 c l).
  { subst s1. apply registry_ctx_update with (cr := cr); auto. }
  destruct (registry_sweep_inv _ _ _ Hreg1) as (cr1 & Hc1 & Hinv).
  assert (cr1 = set_running 1 cr) as ->.
  { subst s1. st_simpl. rewrite lookup_insert_eq in Hc1. congruence. }
  eapply wp_mono.
  { apply (wp_UEV_FOREACH uev_run_rearm
             (fun rest _ s' => rearm_progress c a wa l rest s s' /\
                               registry s' c l) c)
      with (pre := []) (rest := l); auto.
    - intros pre k rest acc s' wk Hinv' Hk (HI & Hreg').
      assert (Hl : l = pre ++ k :: rest).
      { apply (registry_unique s' c); [exact Hreg' |].
        now apply sweep_inv_registry_app in Hinv'. }
      rewrite Hl in *. eapply wp_uev_run_rearm; eassumption.
    - split; [| exact Hreg1].
      split; [reflexivity |]. split; [subst s1; st_simpl; lia |].
      split; [reflexivity |].
      split.
      { exists (set_running 1 cr), b. subst s1. st_simpl.
        rewrite lookup_insert_eq. auto. }
      split; [exact Hok |].
      split; [intros _; subst s1; st_simpl; now rewrite Ha |].
      intros H. contradiction. }
  cbv beta. intros _ s' ((HI & Hreg') & _). auto.
Qed.

(** ** Periodic timers *)

(** The sweep on an armed periodic timer, handled at the time [now]. *)
Lemma periodic_swept bits now a w f :
  is_timer (type w) = true -> 0 < active w -> timer_ok w ->
  0 < t_timeout w -> 0 < t_period w -> cb w = Some f ->
  0 < t_deadline w -> 0 <= now < 2 ^ 63 ->
  let w' := watcher_swept bits now w in
  t_timeout w' = t_timeout w /\ t_period w' = t_period w /\
  active w' = active w /\
  (t_deadline w < now ->
     sweep_calls bits now a w = [mk_call f a (arg w) UEV_READ] /\
     t_deadline w' = now + t_period w) /\
  (now <= t_deadline w ->
     sweep_calls bits now a w = [] /\ t_deadline w' = t_deadline w).
Proof.
  intros Hty Hact (Hto & Hpe & Hde) Hto0 Hpe0 Hcb Hde0 Hnow. cbv zeta.
  assert (Hnz : (active w =? 0) = false) by (apply Z.eqb_neq; lia).
  assert (Hsw : watcher_swept bits now w = timer_swept now w).
  { unfold watcher_swept. rewrite Hnz.
    unfold is_timer in Hty. destruct (type w); try reflexivity; discriminate. }
  assert (Hcl : sweep_calls bits now a w =
                if timer_due now w then [mk_call f a (arg w) UEV_READ] else []).
  { unfold sweep_calls, sweep_decision. rewrite Hnz, Hcb.
    unfold is_timer in Hty.
    destruct (type w); try discriminate; destruct (timer_due now w); reflexivity. }
  rewrite Hsw, Hcl. unfold timer_swept.
  assert (Hp : (t_period w =? 0) = false) by (apply Z.eqb_neq; lia).
  assert (Ht : (t_timeout w =? 0) = false) by (apply Z.eqb_neq; lia).
  pose proof (timer_due_true now w (proj1 Hde)) as Hdue.
  destruct (timer_due now w) eqn:Hd.
  - rewrite Hp, Ht. simpl.
    assert (t_deadline w < now) by (apply Hdue; reflexivity).
    rewrite wrap64_small by lia.
    repeat split; auto; lia.
  - assert (~ t_deadline w < now).
    { intros H. assert (false = true) by (apply Hdue; lia). discriminate. }
    repeat split; auto; lia.
Qed.

(** A timer whose deadline is 0 is left as it is by the sweep, and its
    callback is not called. *)
Lemma dormant_swept bits now a w :
  is_timer (type w) = true -> t_deadline w = 0 ->
  watcher_swept bits now w = w /\ sweep_calls bits now a w = [].
Proof.
  intros Hty Hd.
  unfold watcher_swept, sweep_calls, sweep_decision, timer_swept, timer_due.
  rewrite Hd. change (negb (0 =? 0)) with false. rewrite andb_false_r. simpl.
  unfold is_timer in Hty.
  destruct (active w =? 0), (type w), (cb w); try discriminate; auto.
Qed.

Section Dormant.

Variables portMAX_DELAY portTICK_PERIOD_MS : Z.

(** An iteration of the loop leaves a timer of the list whose deadline
    is 0 as it is, however late the clock: the timer stays dormant from
    one iteration to the next. *)
Lemma wp_uev_run_iteration_dormant fuel c cr b l a wa nd s :
  registry s c l -> (length l <= fuel)%nat ->
  ctxs s !! c = Some cr -> egh cr = Some b ->
  a ∈ l -> uevs s !! a = Some wa ->
  is_timer (type wa) = true -> t_deadline wa = 0 ->
  wp (uev_run_iteration portMAX_DELAY portTICK_PERIOD_MS fuel c nd)
     (fun _ s' =>
        calls_of a (calls s') = calls_of a (calls s) /\
        core <$> uevs s' !! a = Some (core wa) /\
        exists l', registry s' c l') s.
Proof.
  intros Hreg Hfuel Hc Hb Hin Ha Hty Hd.
  eapply wp_mono; [eapply wp_uev_run_iteration; eassumption |].
  cbv beta zeta. intros _ s' ((_ & _ & _ & _ & Hall) & Hreg').
  destruct (Hall a wa Ha) as (_ & Hdone).
  destruct Hdone as (t & _ & Hcore & Hcalls); [exact Hin | apply not_elem_of_nil |].
  destruct (dormant_swept b (ms_at (clock s) t) a wa Hty Hd) as (E1 & E2).
  unfold after_wait in Hcore, Hcalls. st_simpl.
  rewrite E1 in Hcore. rewrite E2, app_nil_r in Hcalls. auto.
Qed.

End Dormant.

(** * Properties *)

(** ** Error returns of [uev_timer_set] *)

(** C7. [uev_timer_set] returns -1 with [errno = EINVAL] on a null watcher
    or a watcher without a context, and -1 with [errno = ERANGE] on a
    negative timeout or period; in each case nothing but [errno] changes,
    so the timeout, period and deadline of the watcher are as before. *)
Theorem uev_timer_set_failure_atomic s w timeout period e :
  timer_set_failure s w timeout period e ->
  exists s',
    uev_timer_set w timeout period s = Ok (-1) s' /\
    -1 <> 0 /\
    errno s' = e /\
    s' = with_errno e s /\
    uevs s' = uevs s /\ ctxs s' = ctxs s.
Proof.
  intros Hf. exists (with_errno e s).
  split; [| repeat split; discriminate].
  destruct Hf as [t p | a wr t p Hw Hc | a wr c t p Hw Hc Hneg];
    unfold uev_timer_set; try reflexivity.
  - unfold mbind, M_bind, bind, load. rewrite Hw, Hc. reflexivity.
  - unfold mbind, M_bind, bind, load. rewrite Hw, Hc.
    assert (((t <? 0) || (p <? 0)) = true) as ->; [| reflexivity].
    apply orb_true_iff. destruct Hneg; [left | right]; now apply Z.ltb_lt.
Qed.

(** ** [uev_event_stop] on null or inactive watchers *)

(** C10. [uev_event_stop] on a null pointer, or on a watcher whose active
    flag is not set, returns 0 and leaves the whole state, [errno]
    included, as it was. *)
Theorem uev_event_stop_inactive s w :
  w = None \/ (exists a wr, w = Some a /\ uevs s !! a = Some wr /\ active wr <= 0) ->
  uev_event_stop w s = Ok 0 s.
Proof.
  intros [-> | (a & wr & -> & Hw & Hact)]; [reflexivity |].
  unfold uev_event_stop, _uev_watcher_active, mbind, M_bind, bind, load.
  rewrite Hw. simpl.
  assert ((0 <? active wr) = false) as -> by (apply Z.ltb_ge; lia).
  reflexivity.
Qed.

(** ** Timers in the sweep *)

(** C1. An active timer (threadsafe or not) that the sweep of an
    iteration handles, with [now_ms] the clock reading taken for it: its
    callback is called, with events [UEV_READ], exactly when
    [0 < now_ms], [0 < deadline] and [deadline < now_ms].  In that case a
    zero period zeroes the timeout, then a zero timeout stops the timer
    (the active flag is cleared) and any other timeout sets the deadline
    to [now_ms + period].  Otherwise, also when the clock reads 0, no
    call is made and timeout, period, deadline and active flag stay. *)
Theorem timer_sweep_fires_when_due c l a wa bits nd s :
  registry s c l -> a ∈ l ->
  uevs s !! a = Some wa ->
  is_timer (type wa) = true -> 0 < active wa -> timer_ok wa ->
  let now := now_ms s in
  let due := 0 < now /\ 0 < t_deadline wa /\ t_deadline wa < now in
  wp (uev_run_watcher bits a nd)
     (fun _ s' =>
        exists wa', uevs s' !! a = Some wa' /\
        (due ->
           calls s' = calls s ++
                      match cb wa with
                      | Some f => [mk_call f a (arg wa) UEV_READ]
                      | None => []
                      end /\
           t_period wa' = t_period wa /\
           t_timeout wa' = (if t_period wa =? 0 then 0 else t_timeout wa) /\
           (t_timeout wa' = 0 ->
              active wa' = 0 /\ t_deadline wa' = t_deadline wa) /\
           (t_timeout wa' <> 0 ->
              active wa' = active wa /\
              t_deadline wa' = now + t_period wa)) /\
        (~ due ->
           calls s' = calls s /\
           t_timeout wa' = t_timeout wa /\ t_period wa' = t_period wa /\
           t_deadline wa' = t_deadline wa /\ active wa' = active wa)) s.
Proof.
  intros Hreg Hin Ha Hty Hact (Hto & Hpe & Hde) now due.
  apply list_elem_of_split in Hin as (pre & rest & ->).
  apply registry_split in Hreg.
  eapply wp_mono; [eapply wp_uev_run_watcher; eassumption |].
  cbv beta. intros nd' s' (_ & Hcore & Hcalls & _ & _).
  destruct (core_lookup_Some _ _ _ Hcore) as (wa' & Ha' & Hc').
  exists wa'. split; [exact Ha' |].
  pose proof (core_fields _ _ Hc') as (_ & Hac & _ & _ & _ & Hto' & Hpe' & Hde' & _).
  fold now in Hcalls, Hto', Hpe', Hde', Hac.
  pose proof (timer_due_true now wa (proj1 Hde)) as Hdue.
  assert (Hnz : (active wa =? 0) = false) by (apply Z.eqb_neq; lia).
  assert (Hsw : watcher_swept bits now wa = timer_swept now wa).
  { unfold watcher_swept. rewrite Hnz.
    unfold is_timer in Hty. destruct (type wa); try reflexivity; discriminate. }
  assert (Hcl : sweep_calls bits now a wa =
                match cb wa with
                | Some f => if timer_due now wa
                            then [mk_call f a (arg wa) UEV_READ] else []
                | None => []
                end).
  { unfold sweep_calls, sweep_decision. rewrite Hnz.
    unfold is_timer in Hty.
    destruct (type wa); try discriminate; destruct (cb wa); try reflexivity;
      destruct (timer_due now wa); reflexivity. }
  rewrite Hsw in Hto', Hpe', Hde', Hac. rewrite Hcl in Hcalls.
  unfold timer_swept in Hto', Hpe', Hde', Hac.
  split.
  - intros Hd. apply Hdue in Hd. rewrite Hd in *.
    split; [exact Hcalls |].
    assert (Hw : wrap64 (now + t_period wa) = now + t_period wa).
    { apply wrap64_small. pose proof (ms_at_range (clock s) (ticks s)).
      unfold now, now_ms. lia. }
    destruct (t_period wa =? 0) eqn:Hp0; simpl in *.
    + assert (Hact' : (0 <? active wa) = true) by (apply Z.ltb_lt; lia).
      rewrite Hact' in *. simpl in *.
      repeat split; auto; congruence.
    + destruct (t_timeout wa =? 0) eqn:Ht0; simpl in *.
      * apply Z.eqb_eq in Ht0.
        assert (Hact' : (0 <? active wa) = true) by (apply Z.ltb_lt; lia).
        rewrite Hact' in *. simpl in *.
        repeat split; auto; congruence.
      * apply Z.eqb_neq in Ht0.
        repeat split; auto; try congruence.
  - intros Hnd.
    assert (Hd : timer_due now wa = false).
    { destruct (timer_due now wa) eqn:E; [| reflexivity].
      exfalso. apply Hnd, Hdue. reflexivity. }
    rewrite Hd in *.
    split; [destruct (cb wa); now rewrite app_nil_r in Hcalls |].
    auto.
Qed.

Lemma timer_sweep_fires_when_due_witness :
  exists nd s' wa',
    uev_run_watcher 0 1 DEADLINE_MAX ex_oneshot_state = Ok nd s' /\
    calls s' = [mk_call 9 1 0 UEV_READ] /\
    uevs s' !! 1%nat = Some wa' /\ t_timeout wa' = 0 /\ active wa' = 0.
Proof.
  assert (Hreg : registry ex_oneshot_state 0 [1%nat])
    by (apply registryb_sound; vm_compute; reflexivity).
  assert (Hin : 1%nat ∈ [1%nat]) by (left).
  assert (Hw : uevs ex_oneshot_state !! 1%nat = Some ex_oneshot)
    by (vm_compute; reflexivity).
  assert (Hok : timer_ok ex_oneshot) by (vm_compute; intuition discriminate).
  assert (Hact : 0 < active ex_oneshot) by (vm_compute; reflexivity).
  pose proof (timer_sweep_fires_when_due 0 [1%nat] 1 ex_oneshot 0 DEADLINE_MAX
                ex_oneshot_state Hreg Hin Hw eq_refl Hact Hok) as H.
  cbv zeta in H. unfold wp in H.
  destruct (uev_run_watcher 0 1 DEADLINE_MAX ex_oneshot_state)
    as [nd s' | |] eqn:E; [| contradiction | contradiction].
  destruct H as (wa' & Hwa' & Hdue & _).
  destruct Hdue as (Hc & _ & Ht & Hstop & _);
    [vm_compute; repeat split; reflexivity |].
  exists nd, s', wa'.
  split; [reflexivity |]. split; [exact Hc |]. split; [exact Hwa' |].
  split; [exact Ht |]. apply Hstop. exact Ht.
Defined.

(** ** Posts coalesce *)

(** C5. For an armed event watcher on the registry of its context: after
    any number [N >= 1] of [uev_event_post] the posted-flag is exactly 1
    and the EVENT bit of the group is set; the iteration that follows
    calls the callback of the watcher exactly once, with events
    [UEV_READ], and leaves the posted-flag at 0.  With no pending post an
    iteration makes no call to the callback of the watcher. *)
Theorem event_posts_coalesce (portMAX_DELAY portTICK_PERIOD_MS : Z)
        fuel c cr b l a wa f nd n s :
  registry s c l -> a ∈ l -> (length l <= fuel)%nat ->
  ctxs s !! c = Some cr -> egh cr = Some b ->
  uevs s !! a = Some wa -> type wa = UEV_EVENT_TYPE -> 0 < active wa ->
  cb wa = Some f ->
  (exists s1 wa1 cr1 b1,
     uev_event_post_n (S n) (Some a) s = Ok tt s1 /\
     uevs s1 !! a = Some wa1 /\ e_posted wa1 = 1 /\
     ctxs s1 !! c = Some cr1 /\ egh cr1 = Some b1 /\
     Z.land b1 UEV_EG_BIT_EVENT <> 0 /\
     wp (uev_run_iteration portMAX_DELAY portTICK_PERIOD_MS fuel c nd)
        (fun _ s2 =>
           calls_of a (calls s2) =
             calls_of a (calls s) ++ [mk_call f a (arg wa) UEV_READ] /\
           exists wa2, uevs s2 !! a = Some wa2 /\ e_posted wa2 = 0) s1) /\
  (e_posted wa = 0 ->
   wp (uev_run_iteration portMAX_DELAY portTICK_PERIOD_MS fuel c nd)
      (fun _ s2 => calls_of a (calls s2) = calls_of a (calls s)) s).
Proof.
  intros Hreg Hin Hfuel Hc Hb Ha Hty Hact Hcb.
  destruct (registry_lookup _ _ _ _ Hreg Hin) as (w & Hw & Hcw).
  rewrite Ha in Hw. injection Hw as <-.
  split.
  - exists (posted a c wa cr b s), (set_posted 1 wa),
      (set_egh (Some (Z.lor b UEV_EG_BIT_EVENT)) cr), (Z.lor b UEV_EG_BIT_EVENT).
    split; [now apply uev_event_post_n_eq |].
    split; [unfold posted; st_simpl; apply lookup_insert_eq |].
    split; [reflexivity |].
    split; [unfold posted; st_simpl; apply lookup_insert_eq |].
    split; [reflexivity |].
    split; [apply event_bit_set |].
    eapply wp_mono.
    { eapply (event_iteration portMAX_DELAY portTICK_PERIOD_MS fuel c _ _ l a
                (set_posted 1 wa) nd (posted a c wa cr b s)).
      - now apply registry_posted.
      - exact Hin.
      - exact Hfuel.
      - unfold posted; st_simpl; apply lookup_insert_eq.
      - reflexivity.
      - unfold posted; st_simpl; apply lookup_insert_eq.
      - exact Hty.
      - simpl. lia. }
    cbv beta. intros _ s2 (Hcalls & wa2 & Ha2 & Hp2).
    pose proof (event_bit_set b) as Hbit. apply Z.eqb_neq in Hbit.
    rewrite Hbit in Hcalls, Hp2. simpl in Hcalls, Hp2. rewrite Hcb in Hcalls.
    split; [exact Hcalls | eauto].
  - intros Hp0.
    eapply wp_mono.
    { eapply (event_iteration portMAX_DELAY portTICK_PERIOD_MS fuel c cr b l a
                wa nd s); try eassumption. lia. }
    cbv beta. intros _ s2 (Hcalls & _).
    rewrite Hp0, andb_false_r, app_nil_r in Hcalls. exact Hcalls.
Qed.

Lemma event_posts_coalesce_witness :
  exists s1 wa1,
    uev_event_post_n 3 (Some 1%nat) ex_event_state = Ok tt s1 /\
    uevs s1 !! 1%nat = Some wa1 /\ e_posted wa1 = 1 /\
    wp (uev_run_iteration 0 10 1 0 DEADLINE_MAX)
       (fun _ s2 =>
          calls_of 1 (calls s2) = [mk_call 9 1 0 UEV_READ] /\
          exists wa2, uevs s2 !! 1%nat = Some wa2 /\ e_posted wa2 = 0) s1.
Proof.
  assert (Hreg : registry ex_event_state 0 [1%nat])
    by (apply registryb_sound; vm_compute; reflexivity).
  assert (Hin : 1%nat ∈ [1%nat]) by (left).
  assert (Hfuel : (length [1%nat] <= 1)%nat) by (simpl; lia).
  assert (Hc : ctxs ex_event_state !! 0%nat = Some (ex_ctx 0 (Some 1%nat)))
    by (vm_compute; reflexivity).
  assert (Hw : uevs ex_event_state !! 1%nat = Some ex_event)
    by (vm_compute; reflexivity).
  assert (Hact : 0 < active ex_event) by (vm_compute; reflexivity).
  destruct (event_posts_coalesce 0 10 1 0 _ 0 [1%nat] 1 ex_event 9
              DEADLINE_MAX 2 ex_event_state Hreg Hin Hfuel Hc eq_refl Hw
              eq_refl Hact eq_refl)
    as ((s1 & wa1 & cr1 & b1 & E & Hw1 & Hp1 & _ & _ & _ & Hrun) & _).
  exists s1, wa1. repeat split; assumption.
Defined.

(** ** Pending events stay within the requested mask *)

(** C6. For an I/O watcher whose requested mask [mask] is held fixed
    (the steps are passes of the selector and iterations of the loop):
    a pass of the selector ORs into its pending events only bits of
    {READ, WRITE, ERROR} that are in [mask] and whose descriptor set
    holds the descriptor of the watcher; an iteration calls its callback
    only with the pending events cut to {ERROR, READ, WRITE}; and so,
    when [mask] has no WRITE bit, no call of the callback has one. *)
Theorem io_events_within_mask a mask s0 :
  pending_ok a mask s0 ->
  (* the selector *)
  (forall readfds writefds exceptfds wa,
     uevs s0 !! a = Some wa -> iolist_ok s0 ->
     wp (task_fn_collect readfds writefds exceptfds)
        (fun _ s' =>
           exists add,
             uevs s' !! a = Some (set_iot_events (Z.lor (iot_events wa) add) wa) /\
             bits_within add (Z.land mask UEV_EVENT_MASK) /\
             (Z.land add UEV_READ <> 0 -> readfds (fd wa) = true) /\
             (Z.land add UEV_WRITE <> 0 -> writefds (fd wa) = true) /\
             (Z.land add UEV_ERROR <> 0 -> exceptfds (fd wa) = true)) s0) /\
  (* the dispatcher *)
  (forall portMAX_DELAY portTICK_PERIOD_MS fuel c cr b l nd wa,
     uevs s0 !! a = Some wa ->
     registry s0 c l -> (length l <= fuel)%nat ->
     ctxs s0 !! c = Some cr -> egh cr = Some b ->
     wp (uev_run_iteration portMAX_DELAY portTICK_PERIOD_MS fuel c nd)
        (fun _ s' =>
           exists new,
             calls_of a (calls s') = calls_of a (calls s0) ++ new /\
             forall cl, cl ∈ new ->
               call_events cl = Z.land (iot_events wa) UEV_EVENT_MASK) s0) /\
  (* consequently *)
  (forall s,
     io_run s0 s -> Z.land mask UEV_WRITE = 0 ->
     (forall cl, cl ∈ calls_of a (calls s0) ->
                 Z.land (call_events cl) UEV_WRITE = 0) ->
     forall cl, cl ∈ calls_of a (calls s) ->
                Z.land (call_events cl) UEV_WRITE = 0).
Proof.
  intros Hp0. split; [| split].
  - intros r w e wa Ha Hok.
    destruct Hp0 as (wa0 & Ha0 & Hty & Hm & Hp).
    rewrite Ha in Ha0. injection Ha0 as <-.
    eapply wp_mono; [apply wp_task_fn_collect; exact Hok |].
    cbv beta. intros _ s' (_ & _ & _ & Hw).
    destruct (Hw a wa Ha) as (add & Hadd & Ha').
    exists add. split; [exact Ha' |].
    split.
    { eapply bits_within_trans; [exact Hadd |].
      rewrite <- Hm. apply task_fn_events_within. }
    pose proof (task_fn_events_ready r w e wa) as (Hr & Hwr & He).
    unfold bits_within in Hadd.
    repeat split; intros Hbit;
      [apply Hr | apply Hwr | apply He]; intros Hz; apply Hbit;
      rewrite <- Hadd, <- Z.land_assoc, Hz; apply Z.land_0_r.
  - intros pM pT fuel c cr b l nd wa Ha Hreg Hfuel Hc Hb.
    destruct Hp0 as (wa0 & Ha0 & Hty & Hm & Hp).
    rewrite Ha in Ha0. injection Ha0 as <-.
    eapply wp_mono; [eapply iteration_io_view; eassumption |].
    cbv beta. intros _ s' (wa' & new & _ & _ & _ & _ & Hcalls & Hnew).
    exists new. split; [exact Hcalls | exact (Hnew Hty)].
  - intros s Hrun Hmask Hold.
    assert (H : pending_ok a mask s /\
                forall cl, cl ∈ calls_of a (calls s) ->
                           Z.land (call_events cl) UEV_WRITE = 0).
    { induction Hrun as [s | s1 s2 s3 Hrun IH Hstep]; [auto |].
      destruct (IH Hp0 Hold) as (Hp2 & Hc2).
      destruct (pending_ok_step a mask _ _ Hstep Hp2) as (Hp3 & new & Hcalls & Hnew).
      split; [exact Hp3 |].
      intros cl Hcl. rewrite Hcalls in Hcl.
      apply elem_of_app in Hcl as [Hcl | Hcl]; [now apply Hc2 |].
      eapply no_write; [apply Hnew; exact Hcl | exact Hmask]. }
    apply H.
Qed.

Lemma io_events_within_mask_witness :
  io_run ex_io_state ex_io_dispatched /\
  calls ex_io_dispatched = [mk_call 9 1 0 UEV_READ] /\
  forall cl, cl ∈ calls_of 1 (calls ex_io_dispatched) ->
             Z.land (call_events cl) UEV_WRITE = 0.
Proof.
  assert (Hp : pending_ok 1 UEV_READ ex_io_state).
  { exists ex_io. vm_compute. repeat split. }
  assert (Hok : iolist_ok ex_io_state).
  { intros k Hk. apply list_elem_of_singleton in Hk. subst k.
    exists ex_io, 0%nat, (ex_ctx 0 (Some 1%nat)), 0. vm_compute. repeat split. }
  assert (Hrun : io_run ex_io_state ex_io_dispatched).
  { eapply io_run_step; [eapply io_run_step; [apply io_run_refl |] |].
    - apply (io_step_select ex_all_fds ex_all_fds ex_all_fds _ ex_io_selected Hok).
      vm_compute. reflexivity.
    - apply (io_step_dispatch 0 10 1 0 (ex_ctx 1 (Some 1%nat)) 1 [1%nat]
               DEADLINE_MAX DEADLINE_MAX ex_io_selected ex_io_dispatched).
      + apply registryb_sound. vm_compute. reflexivity.
      + simpl. lia.
      + vm_compute. reflexivity.
      + reflexivity.
      + vm_compute. reflexivity. }
  split; [exact Hrun |]. split; [vm_compute; reflexivity |].
  destruct (io_events_within_mask 1 UEV_READ ex_io_state Hp) as (_ & _ & H).
  apply (H ex_io_dispatched Hrun); [reflexivity |].
  intros cl Hcl. vm_compute in Hcl. now apply elem_of_nil in Hcl.
Defined.

Lemma land_lor_same b t : Z.land (Z.lor b t) t = t.
Proof.
  apply Z.bits_inj'. intros n _. rewrite Z.land_spec, Z.lor_spec.
  destruct (Z.testbit b n), (Z.testbit t n); reflexivity.
Qed.

(** ** [uev_timer_set] starts the timer *)

(** C9. For a timer with an owning context and non-negative arguments,
    [uev_timer_set] succeeds, stores the arguments, leaves the timer
    active (it sets the active flag of a timer that was not active) and
    sets the TIMER bit of the group of the context, whatever the caller;
    a timer that was not active is linked at the head of the list of the
    context unless it is threadsafe.  So a stopped timer is active again
    after [uev_timer_set] alone. *)
Theorem uev_timer_set_starts s c cr b l a wa timeout period :
  registry s c l -> ctxs s !! c = Some cr -> egh cr = Some b ->
  uevs s !! a = Some wa -> ctx wa = Some c -> is_timer (type wa) = true ->
  0 <= timeout -> 0 <= period ->
  (active wa <= 0 -> type wa = UEV_TIMER_TYPE -> a ∉ l) ->
  wp (uev_timer_set (Some a) timeout period)
     (fun rc s' =>
        rc = 0 /\
        exists wa' cr',
          uevs s' !! a = Some wa' /\
          0 < active wa' /\ (active wa <= 0 -> active wa' = 1) /\
          t_timeout wa' = timeout /\ t_period wa' = period /\
          ctxs s' !! c = Some cr' /\
          egh cr' = Some (Z.lor b UEV_EG_BIT_TIMER) /\
          Z.land (Z.lor b UEV_EG_BIT_TIMER) UEV_EG_BIT_TIMER = UEV_EG_BIT_TIMER /\
          registry s' c
            (if bool_decide (active wa <= 0) &&
                bool_decide (type wa = UEV_TIMER_TYPE)
             then a :: l else l)) s.
Proof.
  intros Hreg Hcr Hb Ha Hc Hty Hto Hpe Hfresh.
  assert (Hlk : links_on_start wa =
                bool_decide (active wa <= 0) &&
                bool_decide (type wa = UEV_TIMER_TYPE)).
  { unfold links_on_start, is_timer in *.
    destruct (Z.ltb_spec 0 (active wa));
      [rewrite (bool_decide_eq_false_2 (active wa <= 0)) by lia; reflexivity |].
    rewrite (bool_decide_eq_true_2 (active wa <= 0)) by lia. simpl.
    destruct (type wa); try discriminate; reflexivity. }
  eapply wp_mono.
  { eapply wp_uev_timer_set; try eassumption.
    rewrite Hlk. intros (H1%bool_decide_eq_true & H2%bool_decide_eq_true)%andb_true_iff.
    auto. }
  cbv beta. intros rc s' (-> & _ & _ & Hcore & _ & (cr' & Hcr' & _ & Hegh) & Hreg').
  split; [reflexivity |].
  destruct (core_lookup_Some _ _ _ Hcore) as (wa' & Ha' & Hc').
  apply core_fields in Hc'.
  destruct Hc' as (_ & Hact & _ & _ & _ & Hto' & Hpe' & _).
  unfold timer_set_to in Hact, Hto', Hpe'. cbv zeta in Hact, Hto', Hpe'.
  exists wa', cr'. split; [exact Ha' |].
  assert (Hlist : registry s' c
            (if bool_decide (active wa <= 0) &&
                bool_decide (type wa = UEV_TIMER_TYPE)
             then a :: l else l)) by (now rewrite <- Hlk).
  destruct (Z.ltb_spec 0 (active wa)); simpl in *;
    repeat split; try assumption; try lia; apply land_lor_same.
Qed.

Lemma uev_timer_set_starts_witness :
  wp (uev_timer_set (Some 1%nat) 50 0)
     (fun rc s' =>
        rc = 0 /\
        exists wa' cr',
          uevs s' !! 1%nat = Some wa' /\
          0 < active wa' /\ (active ex_stopped <= 0 -> active wa' = 1) /\
          t_timeout wa' = 50 /\ t_period wa' = 0 /\
          ctxs s' !! 0%nat = Some cr' /\
          egh cr' = Some (Z.lor 0 UEV_EG_BIT_TIMER) /\
          Z.land (Z.lor 0 UEV_EG_BIT_TIMER) UEV_EG_BIT_TIMER = UEV_EG_BIT_TIMER /\
          registry s' 0
            (if bool_decide (active ex_stopped <= 0) &&
                bool_decide (type ex_stopped = UEV_TIMER_TYPE)
             then [1%nat] else [])) ex_stopped_state.
Proof.
  apply (uev_timer_set_starts ex_stopped_state 0 (ex_ctx 0 None) 0 []
           1 ex_stopped 50 0).
  - apply registryb_sound. vm_compute. reflexivity.
  - vm_compute. reflexivity.
  - reflexivity.
  - vm_compute. reflexivity.
  - reflexivity.
  - reflexivity.
  - lia.
  - lia.
  - intros _ _. apply not_elem_of_nil.
Defined.

(** ** [uev_timer_stop] unlinks every timer *)

Lemma uev_timer_stop_internal_ts s a wa :
  uevs s !! a = Some wa -> type wa = UEV_TIMER_TS_TYPE ->
  _uev_timer_stop (Some a) s =
  Ok 0 (if 0 <? active wa
        then with_uevs (<[a := set_active 0 wa]> (uevs s)) s else s).
Proof.
  intros Ha Hty.
  assert (H : wp (_uev_timer_stop (Some a))
                 (fun rc s' =>
                    rc = 0 /\
                    s' = if 0 <? active wa
                         then with_uevs (<[a := set_active 0 wa]> (uevs s)) s
                         else s) s).
  { unfold _uev_timer_stop. wp_run.
    destruct (0 <? active wa) eqn:Hact; simpl; [| wp_run; auto].
    wp_prim. unfold _uev_watcher_stop. wp_run. rewrite Hact. simpl. wp_run.
    simpl. rewrite Hty. simpl. wp_run. simpl. wp_run. auto. }
  apply wp_elim in H as (rc & s' & E & -> & ->). exact E.
Qed.

(** C4, as the code has it.  [uev_timer_stop] on a timer that is on the
    list of its context returns 0, clears the active flag if it was set,
    and unlinks the timer, threadsafe or not: the list loses the timer
    and the links of the timer are null.  It is the internal
    [_uev_timer_stop], which the sweep uses, that leaves a threadsafe
    timer on the list.  On a timer that is not active and not linked,
    [uev_timer_stop] changes nothing. *)
Theorem uev_timer_stop_unlinks s c l a wa :
  registry s c l -> uevs s !! a = Some wa -> ctx wa = Some c ->
  is_timer (type wa) = true ->
  (forall pre rest, l = pre ++ a :: rest ->
     wp (uev_timer_stop (Some a))
        (fun rc s' =>
           rc = 0 /\ registry s' c (pre ++ rest) /\
           exists wa', uevs s' !! a = Some wa' /\
             active wa' = (if 0 <? active wa then 0 else active wa) /\
             next wa' = None /\ prev wa' = None /\
             t_timeout wa' = t_timeout wa /\ t_period wa' = t_period wa /\
             t_deadline wa' = t_deadline wa) s) /\
  (type wa = UEV_TIMER_TS_TYPE ->
   exists s', _uev_timer_stop (Some a) s = Ok 0 s' /\ registry s' c l /\
     exists wa', uevs s' !! a = Some wa' /\
                 active wa' = (if 0 <? active wa then 0 else active wa)) /\
  (a ∉ l -> active wa <= 0 -> next wa = None -> prev wa = None ->
   uev_timer_stop (Some a) s = Ok 0 s).
Proof.
  intros Hreg Ha Hc Hty. split; [| split].
  - intros pre rest ->.
    eapply wp_mono; [eapply wp_uev_timer_stop_linked; eassumption |].
    cbv beta. intros rc s' (-> & _ & _ & Hcore & Hla & Hreg').
    split; [reflexivity |]. split; [exact Hreg' |].
    apply links_inv in Hla as (wa' & Ha' & Hn & Hp).
    exists wa'. split; [exact Ha' |].
    rewrite Ha' in Hcore. simpl in Hcore. apply (inj Some) in Hcore.
    apply core_fields in Hcore.
    destruct Hcore as (_ & Hact & _ & _ & _ & Hto & Hpe & Hde & _).
    revert Hact Hto Hpe Hde.
    destruct (0 <? active wa); simpl; intros; repeat split; assumption.
  - intros Hts. eexists. split; [apply (uev_timer_stop_internal_ts s a wa Ha Hts) |].
    destruct (0 <? active wa).
    + split; [apply registry_update with (wa := wa); auto; reflexivity |].
      eexists. split; [apply lookup_insert_eq | reflexivity].
    + eauto.
  - intros Hnin Hact Hn Hp.
    destruct Hreg as (cr & q & Hcr & Hd & Hnd & Hown).
    assert (Hhd : watchers cr <> Some a).
    { intros Hh. apply Hnin. apply dseg_head in Hd. rewrite Hh in Hd.
      destruct l; [discriminate | injection Hd as ->; left]. }
    unfold uev_timer_stop, _uev_timer_stop, _uev_watcher_active,
      mbind, M_bind, bind, load.
    rewrite Ha. simpl.
    assert ((0 <? active wa) = false) as -> by (apply Z.ltb_ge; lia).
    simpl. rewrite Ha, Hc. simpl.
    now rewrite (UEV_REMOVE_detached s c cr a wa).
Qed.

Lemma uev_timer_stop_unlinks_witness :
  wp (uev_timer_stop (Some 1%nat))
     (fun rc s' =>
        rc = 0 /\ registry s' 0 ([] ++ []) /\
        exists wa', uevs s' !! 1%nat = Some wa' /\
          active wa' = (if 0 <? active ex_oneshot then 0 else active ex_oneshot) /\
          next wa' = None /\ prev wa' = None /\
          t_timeout wa' = t_timeout ex_oneshot /\
          t_period wa' = t_period ex_oneshot /\
          t_deadline wa' = t_deadline ex_oneshot) ex_oneshot_state.
Proof.
  assert (Hreg : registry ex_oneshot_state 0 [1%nat])
    by (apply registryb_sound; vm_compute; reflexivity).
  assert (Hw : uevs ex_oneshot_state !! 1%nat = Some ex_oneshot)
    by (vm_compute; reflexivity).
  apply (proj1 (uev_timer_stop_unlinks ex_oneshot_state 0 [1%nat] 1 ex_oneshot
                  Hreg Hw eq_refl eq_refl) [] []).
  reflexivity.
Defined.

(** C4, as stated, fails: [uev_timer_stop] does not leave a threadsafe
    timer on the list, and it is not a no-op on a timer that is not
    active when that timer is still linked. *)
Lemma uev_timer_stop_ts_counterexample :
  (type (ex_ts 1) = UEV_TIMER_TS_TYPE /\
   registry (ex_ts_state 1) 0 [1%nat] /\
   exists s', uev_timer_stop (Some 1%nat) (ex_ts_state 1) = Ok 0 s' /\
              registry s' 0 [] /\ ~ registry s' 0 [1%nat]) /\
  (active (ex_ts 0) = 0 /\
   registry (ex_ts_state 0) 0 [1%nat] /\
   exists s', uev_timer_stop (Some 1%nat) (ex_ts_state 0) = Ok 0 s' /\
              s' <> ex_ts_state 0 /\ registry s' 0 []).
Proof.
  assert (Hno : forall s cr, ctxs s !! 0%nat = Some cr -> watchers cr = None ->
                             ~ registry s 0 [1%nat]).
  { intros s cr Hcr Hh (cr' & q & Hcr' & Hd & _).
    rewrite Hcr in Hcr'. injection Hcr' as <-.
    apply dseg_head in Hd. congruence. }
  split.
  - split; [reflexivity |].
    split; [apply registryb_sound; vm_compute; reflexivity |].
    eexists. split; [vm_compute; reflexivity |].
    split; [apply registryb_sound; vm_compute; reflexivity |].
    eapply Hno; vm_compute; reflexivity.
  - split; [reflexivity |].
    split; [apply registryb_sound; vm_compute; reflexivity |].
    eexists. split; [vm_compute; reflexivity |].
    split; [| apply registryb_sound; vm_compute; reflexivity].
    intros E. apply (f_equal (fun s => watchers <$> ctxs s !! 0%nat)) in E.
    vm_compute in E. discriminate.
Qed.

(** ** The round trip of a timer *)

(** C8. For a watcher that is created as a timer (threadsafe or not,
    with any timeout and period that [uev_timer_init2] accepts) on a
    context with a well-formed list, then set to the non-negative values
    [ta] and [tb], started and stopped: the four calls return 0 and the
    watcher is left not active, with timeout [ta] and period [tb]. *)
Theorem timer_round_trip_keeps_config s c cr b l a w0 f ar t0 p0 threadsafe ta tb :
  registry s c l -> ctxs s !! c = Some cr -> egh cr = Some b ->
  uevs s !! a = Some w0 -> a ∉ l ->
  0 <= t0 -> 0 <= p0 -> 0 <= ta -> 0 <= tb ->
  wp (timer_round_trip (Some c) (Some a) f ar t0 p0 threadsafe ta tb)
     (fun rc s' =>
        rc = (0, 0, 0, 0) /\
        exists wa', uevs s' !! a = Some wa' /\
          active wa' = 0 /\ _uev_watcher_active (Some a) s' = Ok 0 s' /\
          t_timeout wa' = ta /\ t_period wa' = tb) s.
Proof.
  intros Hreg Hcr Hb Ha Hnin Ht0 Hp0 Hta Htb.
  unfold timer_round_trip. wp_prim.
  eapply wp_mono; [eapply wp_uev_timer_init2; eassumption |].
  cbv beta. intros rc1 s1
    (-> & Hreg1 & w1 & cr1 & b1 & Hw1 & Hty1 & Hc1 & Hact1 & Hfd1 & _ & _ & Hcr1 & Hb1).
  assert (Htim1 : is_timer (type w1) = true)
    by (rewrite Hty1; now destruct (threadsafe =? 0)).
  (* uev_timer_set *)
  wp_prim. eapply wp_mono.
  { eapply wp_uev_timer_set with (wa := w1); try eassumption.
    unfold links_on_start. rewrite Hact1. discriminate. }
  cbv beta. intros rc2 s2 (-> & _ & _ & Hcore2 & _ & (cr2 & Hcr2 & _ & Hb2) & Hreg2).
  unfold links_on_start in Hreg2. rewrite Hact1 in Hreg2. simpl in Hreg2.
  destruct (core_lookup_Some _ _ _ Hcore2) as (w2 & Hw2 & Hc2).
  apply core_fields in Hc2. unfold timer_set_to in Hc2. cbv zeta in Hc2.
  rewrite Hact1 in Hc2. simpl in Hc2. rewrite ?Hact1 in Hc2.
  destruct Hc2 as (_&Hact2&_&_&_&Hto2&Hpe2&_&_&Hty2&Hfd2&Hctx2).
  (* uev_timer_start *)
  wp_prim. eapply wp_uev_timer_start; [exact Hw2 | congruence |].
  eapply wp_mono.
  { eapply wp_uev_timer_set with (wa := w2); try eassumption; try congruence; try lia.
    unfold links_on_start. rewrite Hact2. discriminate. }
  cbv beta. intros rc3 s3 (-> & _ & _ & Hcore3 & _ & _ & Hreg3).
  unfold links_on_start in Hreg3. rewrite Hact2 in Hreg3. simpl in Hreg3.
  destruct (core_lookup_Some _ _ _ Hcore3) as (w3 & Hw3 & Hc3).
  apply core_fields in Hc3. unfold timer_set_to in Hc3. cbv zeta in Hc3.
  rewrite Hact2 in Hc3. simpl in Hc3. rewrite ?Hact2 in Hc3.
  destruct Hc3 as (_&Hact3&_&_&_&Hto3&Hpe3&_&_&Hty3&Hfd3&Hctx3).
  (* uev_timer_stop *)
  wp_prim. eapply wp_mono.
  { eapply (wp_uev_timer_stop_linked s3 c [] a l w3); [exact Hreg3 | exact Hw3 |].
    congruence. }
  cbv beta. intros rc4 s4 (-> & _ & _ & Hcore4 & _ & _). wp_run.
  split; [reflexivity |].
  destruct (core_lookup_Some _ _ _ Hcore4) as (w4 & Hw4 & Hc4).
  apply core_fields in Hc4. rewrite Hact3 in Hc4. simpl in Hc4.
  destruct Hc4 as (_&Hact4&_&_&_&Hto4&Hpe4&_).
  exists w4. split; [exact Hw4 |]. split; [exact Hact4 |].
  split.
  { unfold _uev_watcher_active, mbind, M_bind, bind, load.
    rewrite Hw4, Hact4. reflexivity. }
  split; congruence.
Qed.

Lemma timer_round_trip_keeps_config_witness :
  wp (timer_round_trip (Some 0%nat) (Some 1%nat) (Some 9%nat) 0 50 0 1 20 100)
     (fun rc s' =>
        rc = (0, 0, 0, 0) /\
        exists wa', uevs s' !! 1%nat = Some wa' /\
          active wa' = 0 /\ _uev_watcher_active (Some 1%nat) s' = Ok 0 s' /\
          t_timeout wa' = 20 /\ t_period wa' = 100) ex_blank_state.
Proof.
  apply (timer_round_trip_keeps_config ex_blank_state 0 (ex_ctx 0 None) 0 []
           1 ex_blank).
  - apply registryb_sound. vm_compute. reflexivity.
  - vm_compute. reflexivity.
  - reflexivity.
  - vm_compute. reflexivity.
  - apply not_elem_of_nil.
  - lia.
  - lia.
  - lia.
  - lia.
Defined.

(** ** Periodic timers across the loop *)

(** X21.  For a context holding an active periodic timer with a
    timeout [T > 0] and a period [P > 0]:
    the entry of [uev_run] sets the timer again, so that its deadline is
    the time read then plus [T], and calls no callback; an iteration that
    handles the armed timer at a time [now] past its deadline calls its
    callback exactly once, with events [UEV_READ], and moves the deadline
    to [now + P], counted from the current time; an iteration that
    handles it earlier makes no call and leaves the deadline.  Timeout,
    period and the active flag stay. *)
Theorem periodic_timer_rearmed_and_fired
        (portMAX_DELAY portTICK_PERIOD_MS : Z) fuel c cr b l a wa f flags nd s :
  registry s c l -> a ∈ l -> (length l <= fuel)%nat ->
  ctxs s !! c = Some cr -> egh cr = Some b ->
  timers_ok s l ->
  uevs s !! a = Some wa -> is_timer (type wa) = true -> 0 < active wa ->
  cb wa = Some f -> 0 < t_timeout wa -> 0 < t_period wa ->
  wp (uev_run_entry fuel c flags)
     (fun _ s1 =>
        registry s1 c l /\ timers_ok s1 l /\ calls s1 = calls s /\
        exists t wa1, (ticks s <= t < ticks s1)%nat /\
          uevs s1 !! a = Some wa1 /\
          t_deadline wa1 = ms_at (clock s) t + t_timeout wa /\
          t_timeout wa1 = t_timeout wa /\ t_period wa1 = t_period wa /\
          active wa1 = active wa) s /\
  (0 < t_deadline wa ->
   wp (uev_run_iteration portMAX_DELAY portTICK_PERIOD_MS fuel c nd)
      (fun _ s2 =>
         exists t wa2, (ticks s < t <= ticks s2)%nat /\
           let now := ms_at (clock s) t in
           uevs s2 !! a = Some wa2 /\
           t_timeout wa2 = t_timeout wa /\ t_period wa2 = t_period wa /\
           active wa2 = active wa /\
           (t_deadline wa < now ->
              calls_of a (calls s2) =
                calls_of a (calls s) ++ [mk_call f a (arg wa) UEV_READ] /\
              t_deadline wa2 = now + t_period wa) /\
           (now <= t_deadline wa ->
              calls_of a (calls s2) = calls_of a (calls s) /\
              t_deadline wa2 = t_deadline wa)) s).
Proof.
  intros Hreg Hin Hfuel Hc Hb Hok Ha Hty Hact Hcb Hto0 Hpe0.
  destruct (Hok a wa Hin Ha Hty) as (Hwok & _).
  split.
  - eapply wp_mono; [eapply wp_uev_run_entry; eassumption |].
    cbv beta. intros _ s1 ((Hclk & Htk & Hcl & _ & Hok1 & _ & Hdone) & Hreg1).
    split; [exact Hreg1 |]. split; [exact Hok1 |]. split; [exact Hcl |].
    destruct Hdone as (t & Ht & Hcore); [apply not_elem_of_nil |].
    destruct (core_lookup_Some _ _ _ Hcore) as (wa1 & Ha1 & Hc1).
    exists t, wa1. split; [exact Ht |]. split; [exact Ha1 |].
    apply core_fields in Hc1.
    destruct Hc1 as (_ & Eac & _ & _ & _ & Eto & Epe & Ede & _).
    destruct (timer_set_to_fields (ms_at (clock s) t) 1 (t_timeout wa)
                (t_period wa) wa) as (F1 & F2 & F3 & F4 & _).
    rewrite Eto, Epe, Ede, Eac, F1, F2, F3, F4.
    assert ((t_timeout wa =? 0) = false) as -> by (apply Z.eqb_neq; lia).
    assert ((0 <? active wa) = true) as -> by (apply Z.ltb_lt; lia).
    simpl. rewrite wrap64_small; [auto |].
    pose proof (ms_at_range (clock s) t). destruct Hwok as (? & _). lia.
  - intros Hde0.
    eapply wp_mono; [eapply wp_uev_run_iteration; eassumption |].
    cbv beta zeta. intros _ s2 ((_ & Htk & _ & _ & Hall) & _).
    destruct (Hall a wa Ha) as (_ & Hdone).
    destruct Hdone as (t & Ht & Hcore & Hcalls);
      [exact Hin | apply not_elem_of_nil |].
    unfold after_wait in Htk, Ht, Hcore, Hcalls. st_simpl.
    destruct (core_lookup_Some _ _ _ Hcore) as (wa2 & Ha2 & Hc2).
    exists t, wa2. split; [lia |]. split; [exact Ha2 |].
    apply core_fields in Hc2.
    destruct Hc2 as (_ & Eac & _ & _ & _ & Eto & Epe & Ede & _).
    destruct (periodic_swept b (ms_at (clock s) t) a wa f Hty Hact Hwok
                Hto0 Hpe0 Hcb Hde0 (ms_at_range _ _))
      as (F1 & F2 & F3 & Hdue & Hnot).
    rewrite Eto, Epe, Eac, Ede, Hcalls.
    split; [exact F1 |]. split; [exact F2 |]. split; [exact F3 |].
    split.
    + intros H. destruct (Hdue H) as (-> & ->). auto.
    + intros H. destruct (Hnot H) as (-> & ->). rewrite app_nil_r. auto.
Qed.

Lemma periodic_timer_rearmed_and_fired_witness :
  exists nd s2 t wa2,
    uev_run_iteration 4294967295 10 1 0 2005 ex_periodic_armed = Ok nd s2 /\
    calls_of 1 (calls s2) = [mk_call 9 1 0 UEV_READ] /\
    uevs s2 !! 1%nat = Some wa2 /\
    t_deadline wa2 = ms_at ex_stall_clock t + 100.
Proof.
  assert (Hreg : registry ex_periodic_armed 0 [1%nat])
    by (apply registryb_sound; vm_compute; reflexivity).
  assert (Hin : 1%nat ∈ [1%nat]) by (left).
  assert (Hw : exists wa, uevs ex_periodic_armed !! 1%nat = Some wa /\
                          wa = set_deadline 2005 (ex_periodic 5))
    by (eexists; split; vm_compute; reflexivity).
  destruct Hw as (wa & Hw & Ewa).
  assert (Hcr : exists cr, ctxs ex_periodic_armed !! 0%nat = Some cr /\
                           egh cr = Some UEV_EG_BIT_TIMER)
    by (eexists; split; vm_compute; reflexivity).
  destruct Hcr as (cr & Hcr & Hb).
  assert (Hok : timers_ok ex_periodic_armed [1%nat]).
  { intros k w ->%list_elem_of_singleton Hk _. rewrite Hw in Hk.
    injection Hk as <-. subst wa.
    split; [vm_compute; intuition discriminate | reflexivity]. }
  destruct (periodic_timer_rearmed_and_fired 4294967295 10 1 0 cr
              UEV_EG_BIT_TIMER [1%nat] 1 wa 9%nat 0 2005 ex_periodic_armed
              Hreg Hin (le_n 1) Hcr Hb Hok Hw)
    as (_ & H); try (subst wa; reflexivity).
  specialize (H ltac:(subst wa; reflexivity)).
  apply wp_elim in H as (nd' & s2 & E & t & wa2 & Ht & Ha2 & _ & _ & _ & Hdue & _).
  assert (Htk : ticks s2 = 4%nat)
    by (revert E; vm_compute; intros [= _ <-]; reflexivity).
  destruct Hdue as (Hcalls & Hd).
  { assert (Htk0 : ticks ex_periodic_armed = 2%nat) by (vm_compute; reflexivity).
    assert (Ht' : t = 3%nat \/ t = 4%nat) by lia.
    subst wa. destruct Ht' as [-> | ->]; vm_compute; reflexivity. }
  exists nd', s2, t, wa2.
  assert (Hcl0 : calls_of 1 (calls ex_periodic_armed) = [])
    by (vm_compute; reflexivity).
  assert (Hclk : clock ex_periodic_armed = ex_stall_clock)
    by (vm_compute; reflexivity).
  split; [exact E |].
  split; [rewrite Hcalls, Hcl0, Ewa; reflexivity |].
  split; [exact Ha2 |].
  rewrite Hd, Hclk, Ewa. reflexivity.
Defined.

(** C2.  The code does not deliver the callback of a periodic timer
    with the timeout 0, which the note above [uev_timer_init2] says is
    called as soon as the loop starts.  For the timer that
    [uev_timer_init(ctx, w, cb, 0, 0, 100)] creates, the entry of
    [uev_run] leaves the deadline at 0 and the loop does not call the
    callback: after three iterations, with the clock seven seconds past
    the entry, no call has been made, the deadline is still 0, the timer
    is still active, and the last two iterations waited without a
    deadline. *)
Lemma periodic_timer_zero_timeout_dormant :
  exists nd s',
    uev_run_three 4294967295 10 1 0 0 (ex_periodic_state 0) = Ok nd s' /\
    calls s' = [] /\
    t_deadline <$> uevs s' !! 1%nat = Some 0 /\
    active <$> uevs s' !! 1%nat = Some 1 /\
    waits s' = [0; 4294967295; 4294967295] /\
    now_ms s' = 9000.
Proof.
  do 2 eexists. split; [vm_compute; reflexivity |].
  vm_compute. repeat split.
Qed.

(** ** The next deadline on entry *)

(** C3.  The pass on entry of [uev_run] takes the deadline of a timer
    without testing it against 0.  On a context whose list holds a timer
    with the timeout 0, entered without [UEV_NONBLOCK]: the pass leaves
    the deadline of the timer at 0 and returns [next_deadline = 0], so
    the first wait of the loop is a poll of zero ticks, where the
    [next_deadline] kept at [DEADLINE_MAX] gives [portMAX_DELAY].  The
    sweep of the iteration that follows does test the deadline: on the
    same timer it returns [DEADLINE_MAX]. *)
Theorem uev_run_entry_takes_zero_deadline :
  exists s1,
    uev_run_entry 1 0 0 (ex_periodic_state 0) = Ok 0 s1 /\
    t_deadline <$> uevs s1 !! 1%nat = Some 0 /\
    tickstowait 4294967295 10 (now_ms s1) 0 = 0 /\
    tickstowait 4294967295 10 (now_ms s1) DEADLINE_MAX = 4294967295 /\
    exists s2,
      uev_run_iteration 4294967295 10 1 0 0 s1 = Ok DEADLINE_MAX s2 /\
      waits s2 = [0] /\
      t_deadline <$> uevs s2 !! 1%nat = Some 0.
Proof.
  eexists. split; [vm_compute; reflexivity |].
  split; [vm_compute; reflexivity |].
  split; [vm_compute; reflexivity |].
  split; [vm_compute; reflexivity |].
  eexists. split; [vm_compute; reflexivity |].
  split; vm_compute; reflexivity.
Qed.

(** ** Instances *)

Lemma uev_timer_set_failure_atomic_witness :
  exists s',
    uev_timer_set (Some 1%nat) (-1) 0 ex_oneshot_state = Ok (-1) s' /\
    errno s' = ERANGE /\ uevs s' = uevs ex_oneshot_state.
Proof.
  destruct (uev_timer_set_failure_atomic ex_oneshot_state (Some 1%nat) (-1) 0
              ERANGE) as (s' & H1 & _ & H2 & _ & H3 & _).
  { apply (failure_range _ 1%nat ex_oneshot 0%nat);
      [vm_compute; reflexivity | reflexivity | left; lia]. }
  exists s'. auto.
Defined.

Lemma uev_event_stop_inactive_witness :
  uev_event_stop (Some 1%nat) ex_idle_state = Ok 0 ex_idle_state /\
  uev_event_stop None ex_idle_state = Ok 0 ex_idle_state.
Proof.
  split; apply uev_event_stop_inactive.
  - right. exists 1%nat, (set_active 0 ex_event).
    split; [reflexivity |]. split; [vm_compute; reflexivity | simpl; lia].
  - left. reflexivity.
Defined.

(** * Further properties of the library *)

(** ** The list macros of [private.h] *)

Lemma NoDup_app_remove (pre rest : list nat) a :
  NoDup (pre ++ a :: rest) -> NoDup (pre ++ rest) /\ a ∉ pre ++ rest.
Proof.
  intros Hnd. apply NoDup_app in Hnd as (H1 & H2 & H3).
  inversion H3; subst. split.
  - apply NoDup_app. split; [exact H1 |]. split; [| assumption].
    intros k Hk Hk'. apply (H2 k Hk). now right.
  - intros [H | H]%elem_of_app; [apply (H2 a H); left | contradiction].
Qed.

(** [_UEV_INSERT] on the list of a context, for a node that is not on it. *)
Lemma wp_UEV_INSERT_registry s c cr l a wa :
  registry s c l -> ctxs s !! c = Some cr ->
  uevs s !! a = Some wa -> ctx wa = Some c -> a ∉ l ->
  wp (_UEV_INSERT a c)
     (fun _ s' =>
        same_env s s' /\ same_cores s s' /\
        ctxs s' = <[c := set_watchers (Some a) cr]> (ctxs s) /\
        registry s' c (a :: l)) s.
Proof.
  intros (cr0 & q & Hcr0 & Hd & Hnd & Hown) Hcr Ha Hc Hnin.
  rewrite Hcr in Hcr0. injection Hcr0 as <-.
  eapply wp_mono; [eapply wp_UEV_INSERT; eassumption |].
  cbv beta. intros [] s' (Henv & Hsc & Hctx & q' & Hd').
  split; [exact Henv |]. split; [exact Hsc |]. split; [exact Hctx |].
  exists (set_watchers (Some a) cr), q'.
  split; [rewrite Hctx; apply lookup_insert_eq |].
  split; [exact Hd' |]. split; [constructor; auto |].
  intros k Hk. eapply same_cores_owned; [exact Hsc | | exact Hk].
  intros j [-> | Hj]%elem_of_cons; [eauto | auto].
Qed.

(** [_UEV_REMOVE] on the list of a context, for a node that is on it. *)
Lemma wp_UEV_REMOVE_registry s c cr pre a rest :
  registry s c (pre ++ a :: rest) -> ctxs s !! c = Some cr ->
  wp (_UEV_REMOVE a c)
     (fun _ s' =>
        same_env s s' /\ same_cores s s' /\
        links (uevs s') a = Some (None, None) /\
        (exists cr', ctxs s' = <[c := cr']> (ctxs s) /\
                     running cr' = running cr /\ egh cr' = egh cr) /\
        registry s' c (pre ++ rest)) s.
Proof.
  intros Hreg Hcr.
  pose proof Hreg as (cr0 & q & Hcr0 & Hd & Hnd & Hown).
  rewrite Hcr in Hcr0. injection Hcr0 as <-.
  destruct (Hown a) as (wa & Ha & _); [apply elem_of_app; right; left |].
  eapply wp_mono; [eapply wp_UEV_REMOVE; eassumption |].
  cbv beta. intros [] s'
    (Henv & Hsc & Hla & cr' & q1' & q' & Hctx & Hrun & Hegh & Hd1 & Hd2).
  split; [exact Henv |]. split; [exact Hsc |]. split; [exact Hla |].
  split; [eauto |].
  exists cr', q'. split; [rewrite Hctx; apply lookup_insert_eq |].
  split; [apply dseg_app; eauto |].
  split; [apply (NoDup_app_remove _ _ _ Hnd) |].
  intros k Hk. eapply same_cores_owned; [exact Hsc | exact Hown |].
  apply elem_of_app in Hk as [Hk | Hk]; apply elem_of_app;
    [now left | right; now right].
Qed.

(** A second [_UEV_REMOVE] of a node that is off the list. *)
Lemma UEV_REMOVE_again s c l a :
  registry s c l -> a ∉ l -> links (uevs s) a = Some (None, None) ->
  _UEV_REMOVE a c s = Ok tt s.
Proof.
  intros Hreg Hnin Hla.
  apply links_inv in Hla as (wa & Ha & Hn & Hp).
  pose proof Hreg as (cr & q & Hcr & _).
  eapply UEV_REMOVE_detached; eauto.
  intros Hh. apply Hnin. eapply registry_head_in; eauto.
Qed.

(** X1. [_UEV_INSERT] puts a node that is not on the list of the context
    at its head, and [_UEV_REMOVE] of that node then gives the list
    back: the list is as before, the node has null links, and no watcher
    has changed apart from its place in the list. *)
Theorem UEV_INSERT_REMOVE_round_trip s c cr l a wa :
  registry s c l -> ctxs s !! c = Some cr ->
  uevs s !! a = Some wa -> ctx wa = Some c -> a ∉ l ->
  wp (_UEV_INSERT a c)
     (fun _ s1 =>
        registry s1 c (a :: l) /\
        wp (_UEV_REMOVE a c)
           (fun _ s2 =>
              registry s2 c l /\ links (uevs s2) a = Some (None, None) /\
              same_env s s2 /\ same_cores s s2) s1) s.
Proof.
  intros Hreg Hcr Ha Hc Hnin.
  eapply wp_mono; [eapply wp_UEV_INSERT_registry; eassumption |].
  cbv beta. intros [] s1 (Henv & Hsc & Hctx & Hreg1).
  split; [exact Hreg1 |].
  eapply wp_mono.
  { eapply (wp_UEV_REMOVE_registry s1 c _ [] a l); [exact Hreg1 |].
    rewrite Hctx. apply lookup_insert_eq. }
  cbv beta. intros [] s2 (Henv' & Hsc' & Hla & _ & Hreg2).
  split; [exact Hreg2 |]. split; [exact Hla |].
  split; [eapply same_env_trans; eassumption |].
  eapply same_cores_trans; eassumption.
Qed.

Lemma UEV_INSERT_REMOVE_round_trip_witness :
  exists s1 s2,
    _UEV_INSERT 1 0 ex_stopped_state = Ok tt s1 /\ registry s1 0 [1%nat] /\
    _UEV_REMOVE 1 0 s1 = Ok tt s2 /\ registry s2 0 [].
Proof.
  assert (Hreg : registry ex_stopped_state 0 [])
    by (apply registryb_sound; vm_compute; reflexivity).
  assert (Hcr : ctxs ex_stopped_state !! 0%nat = Some (ex_ctx 0 None))
    by (vm_compute; reflexivity).
  assert (Hw : uevs ex_stopped_state !! 1%nat = Some ex_stopped)
    by (vm_compute; reflexivity).
  pose proof (UEV_INSERT_REMOVE_round_trip ex_stopped_state 0 _ [] 1 ex_stopped
                Hreg Hcr Hw eq_refl (not_elem_of_nil _)) as H.
  apply wp_elim in H as ([] & s1 & E1 & Hreg1 & H).
  apply wp_elim in H as ([] & s2 & E2 & Hreg2 & _).
  exists s1, s2. auto.
Defined.

(** X2. [_UEV_REMOVE] of a node of the list takes out that node only:
    the nodes before it and after it stay, in their order, the node gets
    null links, and the [running] flag and the event group of the
    context stay.  Removing the node a second time changes nothing. *)
Theorem UEV_REMOVE_unlinks_once s c cr pre a rest :
  registry s c (pre ++ a :: rest) -> ctxs s !! c = Some cr ->
  wp (_UEV_REMOVE a c)
     (fun _ s' =>
        registry s' c (pre ++ rest) /\ (a ∉ pre ++ rest) /\
        links (uevs s') a = Some (None, None) /\
        same_env s s' /\ same_cores s s' /\
        (exists cr', ctxs s' !! c = Some cr' /\
                     running cr' = running cr /\ egh cr' = egh cr) /\
        _UEV_REMOVE a c s' = Ok tt s') s.
Proof.
  intros Hreg Hcr.
  assert (Hnin : a ∉ pre ++ rest).
  { destruct Hreg as (? & ? & _ & _ & Hnd & _).
    apply (NoDup_app_remove _ _ _ Hnd). }
  eapply wp_mono; [eapply wp_UEV_REMOVE_registry; eassumption |].
  cbv beta. intros [] s' (Henv & Hsc & Hla & (cr' & Hctx & Hrun & Hegh) & Hreg').
  split; [exact Hreg' |]. split; [exact Hnin |]. split; [exact Hla |].
  split; [exact Henv |]. split; [exact Hsc |].
  split; [exists cr'; rewrite Hctx, lookup_insert_eq; auto |].
  eapply UEV_REMOVE_again; eassumption.
Qed.

Lemma UEV_REMOVE_unlinks_once_witness :
  exists s',
    _UEV_REMOVE 1 0 ex_oneshot_state = Ok tt s' /\ registry s' 0 [] /\
    _UEV_REMOVE 1 0 s' = Ok tt s'.
Proof.
  assert (Hreg : registry ex_oneshot_state 0 ([] ++ 1%nat :: []))
    by (apply registryb_sound; vm_compute; reflexivity).
  assert (Hcr : ctxs ex_oneshot_state !! 0%nat = Some (ex_ctx 0 (Some 1%nat)))
    by (vm_compute; reflexivity).
  pose proof (UEV_REMOVE_unlinks_once ex_oneshot_state 0 _ [] 1 [] Hreg Hcr) as H.
  apply wp_elim in H as ([] & s' & E & Hreg' & _ & _ & _ & _ & _ & E').
  exists s'. auto.
Defined.

(** ** Starting and stopping a watcher *)

Lemma wp_uev_iothread_watcher_add a (Q : unit -> state -> Prop) s :
  Q tt (with_wakes (S (wakes s)) (with_iolist (iolist s ++ [a]) s)) ->
  wp (_uev_iothread_watcher_add a) Q s.
Proof. auto. Qed.

Lemma wp_uev_iothread_watcher_remove a (Q : unit -> state -> Prop) s :
  Q tt (with_wakes (S (wakes s))
          (with_iolist (filter (fun x => x ≠ a) (iolist s)) s)) ->
  wp (_uev_iothread_watcher_remove a) Q s.
Proof. auto. Qed.

Lemma registry_env s s' c l :
  registry s c l -> uevs s' = uevs s -> ctxs s' = ctxs s -> registry s' c l.
Proof.
  intros Hreg Hu Hc. eapply registry_frame; [exact Hreg | exact Hu |].
  intros cr Hcr. exists cr. rewrite Hc. auto.
Qed.

(** [_uev_watcher_start] on a watcher that is not active, not threadsafe
    and not on the list. *)
Lemma wp_uev_watcher_start_fresh s c cr l a wa :
  registry s c l -> ctxs s !! c = Some cr ->
  uevs s !! a = Some wa -> ctx wa = Some c ->
  active wa <= 0 -> type wa <> UEV_TIMER_TS_TYPE ->
  (type wa = UEV_IO_TYPE -> 0 <= fd wa) -> a ∉ l ->
  wp (_uev_watcher_start (Some a))
     (fun rc s' =>
        rc = 0 /\ registry s' c (a :: l) /\
        core <$> uevs s' !! a = Some (core (set_active 1 wa)) /\
        (forall k, k <> a -> core <$> uevs s' !! k = core <$> uevs s !! k) /\
        ctxs s' = <[c := set_watchers (Some a) cr]> (ctxs s) /\
        iolist s' = (if bool_decide (type wa = UEV_IO_TYPE)
                     then iolist s ++ [a] else iolist s) /\
        wakes s' = (if bool_decide (type wa = UEV_IO_TYPE)
                    then S (wakes s) else wakes s) /\
        errno s' = errno s /\ calls s' = calls s /\ waits s' = waits s /\
        clock s' = clock s /\ ticks s' = ticks s) s.
Proof.
  intros Hreg Hcr Ha Hc Hact Hts Hfd Hnin.
  unfold _uev_watcher_start. wp_run. rewrite Hc.
  assert (Hbad : bool_decide (type wa = UEV_IO_TYPE) && (fd wa <? 0) = false).
  { destruct (bool_decide (type wa = UEV_IO_TYPE)) eqn:E; [| reflexivity].
    apply bool_decide_eq_true in E. simpl. apply Z.ltb_ge. auto. }
  rewrite Hbad. wp_run.
  assert ((0 <? active wa) = false) as -> by (apply Z.ltb_ge; lia).
  simpl. wp_run.
  rewrite (bool_decide_eq_false_2 (type wa = UEV_TIMER_TS_TYPE)) by assumption.
  simpl.
  set (s1 := with_uevs (<[a := set_active 1 wa]> (uevs s)) s).
  assert (Hreg1 : registry s1 c l)
    by (apply registry_update with (wa := wa); auto).
  destruct (bool_decide (type wa = UEV_IO_TYPE)) eqn:Hio.
  - unfold when at 1. apply wp_uev_iothread_watcher_add.
    set (s2 := with_wakes _ _).
    assert (Hreg2 : registry s2 c l) by (eapply registry_env; eauto).
    unfold when. wp_prim.
    eapply wp_mono.
    { eapply (wp_UEV_INSERT_registry s2 c cr l a (set_active 1 wa));
        [exact Hreg2 | exact Hcr | apply lookup_insert_eq | exact Hc | exact Hnin]. }
    cbv beta. intros [] s' (Henv & Hsc & Hctx & Hreg'). wp_run.
    destruct Henv as (E1 & E2 & E3 & E4 & E5 & E6 & E7 & _).
    split; [reflexivity |]. split; [exact Hreg' |].
    split; [rewrite Hsc; subst s2 s1; st_simpl; now rewrite lookup_insert_eq |].
    split.
    { intros k Hk. rewrite Hsc. subst s2 s1. st_simpl.
      now rewrite lookup_insert_ne. }
    split; [exact Hctx |].
    repeat split; assumption.
  - unfold when at 1. wp_prim. unfold when. wp_prim.
    eapply wp_mono.
    { eapply (wp_UEV_INSERT_registry s1 c cr l a (set_active 1 wa));
        [exact Hreg1 | exact Hcr | apply lookup_insert_eq | exact Hc | exact Hnin]. }
    cbv beta. intros [] s' (Henv & Hsc & Hctx & Hreg'). wp_run.
    destruct Henv as (E1 & E2 & E3 & E4 & E5 & E6 & E7 & _).
    split; [reflexivity |]. split; [exact Hreg' |].
    split; [rewrite Hsc; subst s1; st_simpl; now rewrite lookup_insert_eq |].
    split.
    { intros k Hk. rewrite Hsc. subst s1. st_simpl.
      now rewrite lookup_insert_ne. }
    split; [exact Hctx |].
    repeat split; assumption.
Qed.

(** [_uev_watcher_stop] on an active watcher that is not threadsafe and is
    on the list. *)
Lemma wp_uev_watcher_stop_listed s c cr pre a rest wa :
  registry s c (pre ++ a :: rest) -> ctxs s !! c = Some cr ->
  uevs s !! a = Some wa -> 0 < active wa -> type wa <> UEV_TIMER_TS_TYPE ->
  wp (_uev_watcher_stop (Some a))
     (fun rc s' =>
        rc = 0 /\ registry s' c (pre ++ rest) /\
        core <$> uevs s' !! a = Some (core (set_active 0 wa)) /\
        links (uevs s') a = Some (None, None) /\
        (forall k, k <> a -> core <$> uevs s' !! k = core <$> uevs s !! k) /\
        (exists cr', ctxs s' = <[c := cr']> (ctxs s) /\
                     running cr' = running cr /\ egh cr' = egh cr) /\
        iolist s' = (if bool_decide (type wa = UEV_IO_TYPE)
                     then filter (fun x => x ≠ a) (iolist s) else iolist s) /\
        wakes s' = (if bool_decide (type wa = UEV_IO_TYPE)
                    then S (wakes s) else wakes s) /\
        errno s' = errno s /\ calls s' = calls s /\ waits s' = waits s /\
        clock s' = clock s /\ ticks s' = ticks s) s.
Proof.
  intros Hreg Hcr Ha Hact Hts.
  assert (Hc : ctx wa = Some c).
  { destruct (registry_lookup _ _ _ a Hreg) as (w & Hw & Hcw);
      [apply elem_of_app; right; left |].
    rewrite Ha in Hw. now injection Hw as <-. }
  unfold _uev_watcher_stop. wp_run.
  assert ((0 <? active wa) = true) as -> by (apply Z.ltb_lt; lia).
  simpl. wp_run.
  change (type (set_active 0 wa)) with (type wa).
  change (ctx (set_active 0 wa)) with (ctx wa).
  rewrite (bool_decide_eq_false_2 (type wa = UEV_TIMER_TS_TYPE)) by assumption.
  rewrite Hc. simpl.
  set (s1 := with_uevs (<[a := set_active 0 wa]> (uevs s)) s).
  assert (Hreg1 : registry s1 c (pre ++ a :: rest))
    by (apply registry_update with (wa := wa); auto).
  destruct (bool_decide (type wa = UEV_IO_TYPE)) eqn:Hio.
  - unfold when at 1. apply wp_uev_iothread_watcher_remove.
    set (s2 := with_wakes _ _).
    assert (Hreg2 : registry s2 c (pre ++ a :: rest))
      by (eapply registry_env; eauto).
    unfold when. wp_run.
    eapply wp_mono.
    { eapply (wp_UEV_REMOVE_registry s2 c cr pre a rest);
        [exact Hreg2 | exact Hcr]. }
    cbv beta. intros [] s' (Henv & Hsc & Hla & Hctx & Hreg'). wp_run.
    destruct Henv as (E1 & E2 & E3 & E4 & E5 & E6 & E7 & _).
    split; [reflexivity |]. split; [exact Hreg' |].
    split; [rewrite Hsc; subst s2 s1; st_simpl; now rewrite lookup_insert_eq |].
    split; [exact Hla |].
    split.
    { intros k Hk. rewrite Hsc. subst s2 s1. st_simpl.
      now rewrite lookup_insert_ne. }
    split; [exact Hctx |].
    repeat split; assumption.
  - unfold when at 1. wp_prim. unfold when. wp_run.
    eapply wp_mono.
    { eapply (wp_UEV_REMOVE_registry s1 c cr pre a rest);
        [exact Hreg1 | exact Hcr]. }
    cbv beta. intros [] s' (Henv & Hsc & Hla & Hctx & Hreg'). wp_run.
    destruct Henv as (E1 & E2 & E3 & E4 & E5 & E6 & E7 & _).
    split; [reflexivity |]. split; [exact Hreg' |].
    split; [rewrite Hsc; subst s1; st_simpl; now rewrite lookup_insert_eq |].
    split; [exact Hla |].
    split.
    { intros k Hk. rewrite Hsc. subst s1. st_simpl.
      now rewrite lookup_insert_ne. }
    split; [exact Hctx |].
    repeat split; assumption.
Qed.

Lemma filter_ne_id (a : nat) (l : list nat) :
  a ∉ l -> filter (fun x => x ≠ a) l = l.
Proof.
  induction l as [| x l IH]; [reflexivity |].
  intros Hn. rewrite filter_cons.
  destruct (decide (x ≠ a)) as [_ | E].
  - f_equal. apply IH. intros H. apply Hn. now right.
  - exfalso. apply Hn. apply dec_stable in E. subst. left.
Qed.

Lemma filter_ne_snoc (a : nat) (l : list nat) :
  a ∉ l -> filter (fun x => x ≠ a) (l ++ [a]) = l.
Proof.
  intros Hn. rewrite filter_app, (filter_ne_id a l Hn), filter_cons.
  destruct (decide (a ≠ a)); [congruence |]. apply app_nil_r.
Qed.

Lemma core_set_active x y w1 w :
  core w1 = core (set_active x w) ->
  core (set_active y w1) = core (set_active y w).
Proof.
  destruct w1, w. unfold core. simpl. intros [=]. subst. reflexivity.
Qed.

(** X3. [_uev_watcher_start] fails with [EINVAL], changing nothing but
    [errno], on a null watcher, on a watcher without a context and on an
    I/O watcher with a negative descriptor, and [_uev_watcher_stop] does
    so on a null watcher.  On a watcher that is already active
    [_uev_watcher_start] returns 0 and changes nothing, and so does
    [_uev_watcher_stop] on a watcher that is not active: no node is
    linked twice or unlinked twice. *)
Theorem uev_watcher_start_stop_edge_cases s a wr :
  uevs s !! a = Some wr ->
  _uev_watcher_start None s = Ok (-1) (with_errno EINVAL s) /\
  _uev_watcher_stop None s = Ok (-1) (with_errno EINVAL s) /\
  (ctx wr = None \/ (type wr = UEV_IO_TYPE /\ fd wr < 0) ->
   _uev_watcher_start (Some a) s = Ok (-1) (with_errno EINVAL s)) /\
  (ctx wr <> None -> ~ (type wr = UEV_IO_TYPE /\ fd wr < 0) ->
   0 < active wr -> _uev_watcher_start (Some a) s = Ok 0 s) /\
  (active wr <= 0 -> _uev_watcher_stop (Some a) s = Ok 0 s).
Proof.
  intros Ha. split; [reflexivity |]. split; [reflexivity |].
  assert (Hwp : forall (m : M Z) rc s0,
             wp m (fun r s' => r = rc /\ s' = s0) s -> m s = Ok rc s0).
  { intros m rc s0 H. apply wp_elim in H as (r & s' & E & -> & ->). exact E. }
  split; [| split].
  - intros Hbad. apply Hwp. unfold _uev_watcher_start. wp_run.
    destruct (ctx wr) as [c |] eqn:Hc; [| wp_run; auto].
    destruct Hbad as [Hc' | (Hty & Hfd)]; [discriminate |].
    rewrite bool_decide_eq_true_2 by assumption.
    assert ((fd wr <? 0) = true) as -> by (apply Z.ltb_lt; lia).
    simpl. wp_run. auto.
  - intros Hc Hok Hact. apply Hwp. unfold _uev_watcher_start. wp_run.
    destruct (ctx wr) as [c |]; [| congruence].
    assert (bool_decide (type wr = UEV_IO_TYPE) && (fd wr <? 0) = false) as ->.
    { destruct (bool_decide _) eqn:E; [| reflexivity].
      apply bool_decide_eq_true in E. simpl. apply Z.ltb_ge.
      destruct (Z.lt_ge_cases (fd wr) 0); [exfalso; auto | lia]. }
    wp_run.
    assert ((0 <? active wr) = true) as -> by (apply Z.ltb_lt; lia).
    simpl. wp_run. auto.
  - intros Hact. apply Hwp. unfold _uev_watcher_stop. wp_run.
    assert ((0 <? active wr) = false) as -> by (apply Z.ltb_ge; lia).
    simpl. wp_run. auto.
Qed.

Lemma uev_watcher_start_stop_edge_cases_witness :
  _uev_watcher_start (Some 1%nat) ex_blank_state =
    Ok (-1) (with_errno EINVAL ex_blank_state) /\
  _uev_watcher_start (Some 1%nat) ex_oneshot_state = Ok 0 ex_oneshot_state /\
  _uev_watcher_stop (Some 1%nat) ex_stopped_state = Ok 0 ex_stopped_state.
Proof.
  assert (H1 : uevs ex_blank_state !! 1%nat = Some ex_blank)
    by (vm_compute; reflexivity).
  assert (H2 : uevs ex_oneshot_state !! 1%nat = Some ex_oneshot)
    by (vm_compute; reflexivity).
  assert (H3 : uevs ex_stopped_state !! 1%nat = Some ex_stopped)
    by (vm_compute; reflexivity).
  split; [| split].
  - apply (uev_watcher_start_stop_edge_cases _ _ _ H1). left. reflexivity.
  - apply (uev_watcher_start_stop_edge_cases _ _ _ H2).
    + discriminate.
    + intros (E & _). discriminate.
    + reflexivity.
  - apply (uev_watcher_start_stop_edge_cases _ _ _ H3). simpl. lia.
Defined.

(** X4. For a watcher that is not threadsafe, not active, not on the list
    of its context and not on the list of the selector (an I/O watcher
    with a descriptor of 0 or more, an event watcher or a timer):
    [_uev_watcher_start] makes it active and links it at the head of the
    list of its context, an I/O watcher also at the tail of the list of
    the selector; [_uev_watcher_stop] then undoes it: both lists are as
    before, the watcher is not active and has null links, and no other
    watcher has changed (places in the list apart).  For an I/O watcher
    each of the two calls wakes the selector. *)
Theorem uev_watcher_start_stop_round_trip s c cr l a wa :
  registry s c l -> ctxs s !! c = Some cr ->
  uevs s !! a = Some wa -> ctx wa = Some c ->
  active wa <= 0 -> type wa <> UEV_TIMER_TS_TYPE ->
  (type wa = UEV_IO_TYPE -> 0 <= fd wa) -> a ∉ l -> a ∉ iolist s ->
  wp (_uev_watcher_start (Some a))
     (fun rc1 s1 =>
        rc1 = 0 /\ registry s1 c (a :: l) /\
        (exists w1, uevs s1 !! a = Some w1 /\ active w1 = 1) /\
        iolist s1 = (if bool_decide (type wa = UEV_IO_TYPE)
                     then iolist s ++ [a] else iolist s) /\
        wp (_uev_watcher_stop (Some a))
           (fun rc2 s2 =>
              rc2 = 0 /\ registry s2 c l /\ iolist s2 = iolist s /\
              core <$> uevs s2 !! a = Some (core (set_active 0 wa)) /\
              links (uevs s2) a = Some (None, None) /\
              (forall k, k <> a ->
                 core <$> uevs s2 !! k = core <$> uevs s !! k) /\
              wakes s2 = (if bool_decide (type wa = UEV_IO_TYPE)
                          then S (S (wakes s)) else wakes s)) s1) s.
Proof.
  intros Hreg Hcr Ha Hc Hact Hts Hfd Hnin Hio.
  eapply wp_mono; [eapply wp_uev_watcher_start_fresh; eassumption |].
  cbv beta. intros rc1 s1
    (-> & Hreg1 & Hcore1 & Hoth1 & Hctx1 & Hiol1 & Hwk1 & _).
  destruct (core_lookup_Some _ _ _ Hcore1) as (w1 & Hw1 & Hc1).
  pose proof (core_fields _ _ Hc1) as (_ & Eact & _ & _ & _ & _ & _ & _ & _ & Ety & _).
  change (active (set_active 1 wa)) with 1 in Eact.
  change (type (set_active 1 wa)) with (type wa) in Ety.
  split; [reflexivity |]. split; [exact Hreg1 |].
  split; [eauto |]. split; [exact Hiol1 |].
  eapply wp_mono.
  { eapply (wp_uev_watcher_stop_listed s1 c _ [] a l w1);
      [exact Hreg1 | rewrite Hctx1; apply lookup_insert_eq | exact Hw1 | lia
      | congruence]. }
  cbv beta. intros rc2 s2
    (-> & Hreg2 & Hcore2 & Hla & Hoth2 & _ & Hiol2 & Hwk2 & _).
  rewrite Ety in Hiol2, Hwk2.
  split; [reflexivity |]. split; [exact Hreg2 |].
  split.
  { rewrite Hiol2, Hiol1.
    destruct (bool_decide (type wa = UEV_IO_TYPE)); [| reflexivity].
    now apply filter_ne_snoc. }
  split; [rewrite Hcore2; f_equal; eapply core_set_active; eassumption |].
  split; [exact Hla |].
  split; [intros k Hk; now rewrite Hoth2, Hoth1 |].
  rewrite Hwk2, Hwk1. now destruct (bool_decide (type wa = UEV_IO_TYPE)).
Qed.

Lemma uev_watcher_start_stop_round_trip_witness :
  exists s1 s2,
    _uev_watcher_start (Some 1%nat) ex_idle_state = Ok 0 s1 /\
    registry s1 0 [1%nat] /\
    _uev_watcher_stop (Some 1%nat) s1 = Ok 0 s2 /\ registry s2 0 [].
Proof.
  assert (Hreg : registry ex_idle_state 0 [])
    by (apply registryb_sound; vm_compute; reflexivity).
  assert (Hcr : ctxs ex_idle_state !! 0%nat = Some (ex_ctx 0 None))
    by (vm_compute; reflexivity).
  assert (Hw : uevs ex_idle_state !! 1%nat = Some (set_active 0 ex_event))
    by (vm_compute; reflexivity).
  pose proof (uev_watcher_start_stop_round_trip ex_idle_state 0 _ [] 1 _
                Hreg Hcr Hw eq_refl) as H.
  apply wp_elim in H as (rc1 & s1 & E1 & -> & Hreg1 & _ & _ & H);
    [| simpl; lia | discriminate | discriminate | apply not_elem_of_nil
     | apply not_elem_of_nil].
  apply wp_elim in H as (rc2 & s2 & E2 & -> & Hreg2 & _).
  exists s1, s2. auto.
Defined.

(** ** Creating an event watcher *)

(** Writing to a watcher that is not on the list leaves the list. *)
Lemma registry_update_off s c l a w' :
  registry s c l -> a ∉ l ->
  registry (with_uevs (<[a := w']> (uevs s)) s) c l.
Proof.
  intros (cr & q & Hcr & Hd & Hnd & Hown) Hnin.
  exists cr, q. st_simpl. split; [exact Hcr |].
  split.
  { eapply dseg_frame; [| exact Hd]. intros k Hk. rewrite links_insert.
    rewrite decide_False; [reflexivity |]. intros ->. contradiction. }
  split; [exact Hnd |].
  intros k Hk. rewrite lookup_insert_ne; [auto |]. intros ->. contradiction.
Qed.

(** X5. [uev_event_init] on a context with a well-formed list and an
    allocated watcher that is not on it returns 0 and leaves an active
    event watcher with the given callback and argument, nothing posted,
    at the head of the list; the other watchers are as before.  With a
    null context or a null watcher it returns -1 with [EINVAL] and
    changes nothing else. *)
Theorem uev_event_init_arms s c cr l a w0 f ar :
  registry s c l -> ctxs s !! c = Some cr ->
  uevs s !! a = Some w0 -> a ∉ l ->
  wp (uev_event_init (Some c) (Some a) f ar)
     (fun rc s' =>
        rc = 0 /\ registry s' c (a :: l) /\
        (exists wa, uevs s' !! a = Some wa /\
           type wa = UEV_EVENT_TYPE /\ active wa = 1 /\ e_posted wa = 0 /\
           cb wa = f /\ arg wa = ar /\ ctx wa = Some c /\
           events wa = UEV_READ /\ iot_events wa = 0) /\
        (forall k, k <> a -> core <$> uevs s' !! k = core <$> uevs s !! k) /\
        calls s' = calls s /\ errno s' = errno s) s /\
  uev_event_init None (Some a) f ar s = Ok (-1) (with_errno EINVAL s) /\
  uev_event_init (Some c) None f ar s = Ok (-1) (with_errno EINVAL s).
Proof.
  intros Hreg Hcr Ha Hnin. split; [| split; reflexivity].
  unfold uev_event_init. wp_run.
  unfold _uev_watcher_init. wp_run.
  rewrite (bool_decide_eq_false_2 (UEV_EVENT_TYPE = UEV_TIMER_TS_TYPE))
    by discriminate.
  wp_run. change (negb (0 =? 0)) with false. cbv iota. wp_prim.
  st_simpl. rewrite !insert_insert_eq.
  set (w1 := mk_uev _ _ _ _ _ _ _ _ _ _ _ _ _ _).
  set (s1 := with_uevs (<[a := w1]> (uevs s)) s).
  assert (Hreg1 : registry s1 c l) by (now apply registry_update_off).
  eapply wp_mono.
  { eapply (wp_uev_watcher_start_fresh s1 c cr l a w1);
      [exact Hreg1 | exact Hcr | apply lookup_insert_eq | reflexivity
      | simpl; lia | discriminate | discriminate | exact Hnin]. }
  cbv beta. intros rc s'
    (-> & Hreg' & Hcore & Hoth & _ & _ & _ & Herr & Hcl & _).
  wp_run. split; [reflexivity |]. split; [exact Hreg' |].
  destruct (core_lookup_Some _ _ _ Hcore) as (wa & Hwa & Hc).
  apply core_fields in Hc.
  destruct Hc as (E1 & E2 & E3 & E4 & E5 & _ & _ & _ & E9 & E10 & _ & E12).
  split; [exists wa; repeat split; assumption |].
  split.
  { intros k Hk. rewrite (Hoth k Hk). subst s1. st_simpl.
    now rewrite lookup_insert_ne. }
  auto.
Qed.

Lemma uev_event_init_arms_witness :
  exists s' wa,
    uev_event_init (Some 0%nat) (Some 1%nat) (Some 9%nat) 7 ex_blank_state =
      Ok 0 s' /\
    registry s' 0 [1%nat] /\ uevs s' !! 1%nat = Some wa /\ active wa = 1.
Proof.
  assert (Hreg : registry ex_blank_state 0 [])
    by (apply registryb_sound; vm_compute; reflexivity).
  assert (Hcr : ctxs ex_blank_state !! 0%nat = Some (ex_ctx 0 None))
    by (vm_compute; reflexivity).
  assert (Hw : uevs ex_blank_state !! 1%nat = Some ex_blank)
    by (vm_compute; reflexivity).
  destruct (uev_event_init_arms ex_blank_state 0 _ [] 1 _ (Some 9%nat) 7
              Hreg Hcr Hw (not_elem_of_nil _)) as (H & _).
  apply wp_elim in H as (rc & s' & E & -> & Hreg' & (wa & Hwa & _ & Hact & _) & _).
  exists s', wa. auto.
Defined.

(** ** The loop *)

Lemma wp_conj {A} (m : M A) (Q1 Q2 : A -> state -> Prop) s :
  wp m Q1 s -> wp m Q2 s -> wp m (fun a s' => Q1 a s' /\ Q2 a s') s.
Proof. unfold wp. destruct (m s); tauto. Qed.

Lemma bits_within_lor_r a b x : bits_within a b -> bits_within a (Z.lor b x).
Proof.
  unfold bits_within. intros H. apply Z.bits_inj'. intros n _.
  apply (f_equal (fun z => Z.testbit z n)) in H.
  rewrite Z.land_spec in H. rewrite Z.land_spec, Z.lor_spec.
  destruct (Z.testbit a n), (Z.testbit b n), (Z.testbit x n);
    simpl in *; congruence.
Qed.

(** The body of the pass on entry, at the node [k] of the list. *)
Lemma wp_uev_run_rearm_pass c pre k rest s0 s wk nd :
  sweep_inv c pre (Some k) (k :: rest) s ->
  uevs s !! k = Some wk ->
  entry_pass c (pre ++ k :: rest) s0 s -> 0 <= nd ->
  wp (uev_run_rearm k nd)
     (fun nd' s' => (entry_pass c (pre ++ k :: rest) s0 s' /\ 0 <= nd' <= nd) /\
                    sweep_next c pre k wk rest s') s.
Proof.
  intros Hinv Hk
    (Hclk & Htk & Hcl & Hwt & Hio & (cr & b & Hcr & Hrun & Hb & Hbits) & Hok &
     Hreg & Hal & Hnt)
    Hnd.
  assert (Hkin : k ∈ pre ++ k :: rest) by (apply elem_of_app; right; left).
  unfold uev_run_rearm. wp_run.
  destruct (is_timer (type wk)) eqn:Hty.
  - destruct (Hok k wk Hkin Hk Hty) as ((Hto & Hpe & Hde) & Hact).
    destruct (registry_lookup _ _ _ _ Hreg Hkin) as (wk0 & Hk0 & Hctx).
    rewrite Hk in Hk0. injection Hk0 as <-.
    assert (Hlk : links_on_start wk = false).
    { unfold links_on_start, is_timer in *.
      destruct (type wk) eqn:E; try discriminate.
      - assert (0 < active wk) by (apply Hact; reflexivity).
        assert ((0 <? active wk) = true) as -> by (apply Z.ltb_lt; lia).
        reflexivity.
      - rewrite bool_decide_eq_true_2 by reflexivity.
        now rewrite andb_false_r. }
    wp_prim.
    eapply wp_mono.
    { eapply (wp_uev_timer_set s c cr b (pre ++ k :: rest) k wk); try eassumption.
      - lia.
      - lia.
      - rewrite Hlk. discriminate. }
    cbv beta. intros rc s'
      (-> & Henv & Hoth & Hcore & _ & (cr' & Hcr' & Hrun' & Hb') & Hreg').
    rewrite Hlk in Hreg'. rewrite Hrun in *.
    destruct (core_lookup_Some _ _ _ Hcore) as (wk' & Hk' & Hck').
    destruct Henv as (_ & Hclk' & Htk' & Hcl' & Hio' & _ & Hwt' & _). st_simpl.
    assert (Hnx : sweep_next c pre k wk rest s').
    { left. pose proof (registry_split _ _ _ _ _ Hreg') as Hinv'.
      rewrite (sweep_inv_next _ _ _ _ _ _ Hinv Hk).
      rewrite <- (sweep_inv_next _ _ _ _ _ _ Hinv' Hk').
      now apply sweep_inv_advance. }
    destruct (timer_set_to_ok (now_ms s) 1 wk) as (Hok1 & Hact1);
      [repeat split; tauto |].
    assert (Hd' : 0 <= t_deadline wk').
    { apply core_deadline in Hck'. rewrite Hck'. apply Hok1. }
    assert (Hinv1 : entry_pass c (pre ++ k :: rest) s0 s').
    { split; [congruence |]. split; [lia |]. split; [congruence |].
      split; [congruence |]. split; [congruence |].
      split.
      { exists cr', (Z.lor b UEV_EG_BIT_TIMER). repeat split; auto.
        intros cr0 b0 Hcr0 Hb0. apply bits_within_lor_r. eauto. }
      split.
      { apply (timers_ok_frame s s' _ k
                 (timer_set_to (now_ms s) 1 (t_timeout wk) (t_period wk) wk));
          eauto. }
      split; [exact Hreg' |].
      split.
      { intros j Hj. apply Hal in Hj as (wj & Hj).
        destruct (decide (j = k)) as [-> | Hne]; [eauto |].
        pose proof (Hoth j Hne) as E. rewrite Hj in E.
        destruct (uevs s' !! j); [eauto | discriminate]. }
      intros j wj Hj Hnt'. destruct (decide (j = k)) as [-> | Hne].
      - exfalso. pose proof (Hnt k wj Hj Hnt') as E. rewrite Hk in E.
        simpl in E. apply (inj Some) in E. apply core_fields in E.
        destruct E as (_&_&_&_&_&_&_&_&_& E &_). congruence.
      - rewrite (Hoth j Hne). auto. }
    wp_run.
    destruct (t_deadline wk' <? nd) eqn:Hlt; wp_run;
      (split; [split; [exact Hinv1 |] | exact Hnx]).
    + apply Z.ltb_lt in Hlt. lia.
    + lia.
  - wp_run. split; [| left; now apply sweep_inv_advance].
    split; [| lia].
    split; [exact Hclk |]. split; [exact Htk |]. split; [exact Hcl |].
    split; [exact Hwt |]. split; [exact Hio |].
    split; [exists cr, b; auto |].
    split; [exact Hok |]. split; [exact Hreg |]. split; [exact Hal | exact Hnt].
Qed.

(** The pass on entry of [uev_run], on any well-formed list whose timers
    hold accepted values: it returns, given fuel for the length of the
    list, with a [next_deadline] that is not above the one it started
    with. *)
Lemma wp_uev_run_entry_pass fuel c cr b l flags s :
  registry s c l -> (length l <= fuel)%nat ->
  ctxs s !! c = Some cr -> egh cr = Some b ->
  timers_ok s l ->
  wp (uev_run_entry fuel c flags)
     (fun nd s' =>
        entry_pass c l s s' /\
        0 <= nd <= (if negb (Z.land flags UEV_NONBLOCK =? 0)
                    then 0 else DEADLINE_MAX)) s.
Proof.
  intros Hreg Hfuel Hc Hb Hok.
  unfold uev_run_entry. cbv zeta. wp_run.
  set (nd0 := if negb (Z.land flags UEV_NONBLOCK =? 0) then 0 else DEADLINE_MAX).
  assert (Hnd0 : 0 <= nd0) by (subst nd0; destruct (negb _); [lia | discriminate]).
  set (s1 := with_ctxs _ s).
  assert (Hreg1 : registry s1 c l).
  { subst s1. apply registry_ctx_update with (cr := cr); auto. }
  destruct (registry_sweep_inv _ _ _ Hreg1) as (cr1 & Hc1 & Hinv).
  assert (cr1 = set_running 1 cr) as ->.
  { subst s1. st_simpl. rewrite lookup_insert_eq in Hc1. congruence. }
  eapply wp_mono.
  { apply (wp_UEV_FOREACH uev_run_rearm
             (fun rest nd s' => entry_pass c l s s' /\ 0 <= nd <= nd0) c)
      with (pre := []) (rest := l); auto.
    - intros pre k rest acc s' wk Hinv' Hk (HI & Hacc).
      assert (Hl : l = pre ++ k :: rest).
      { apply (registry_unique s' c); [apply HI |].
        now apply sweep_inv_registry_app in Hinv'. }
      rewrite Hl in *.
      eapply wp_mono;
        [eapply wp_uev_run_rearm_pass; [eassumption .. | lia] |].
      cbv beta. intros nd' s2 ((H1 & H2) & H3).
      split; [split; [exact H1 | lia] | exact H3].
    - split; [| lia].
      split; [reflexivity |]. split; [subst s1; st_simpl; lia |].
      split; [reflexivity |]. split; [reflexivity |]. split; [reflexivity |].
      split.
      { exists (set_running 1 cr), b. subst s1. st_simpl.
        rewrite lookup_insert_eq. repeat split; auto.
        intros cr0 b0 Hcr0 Hb0. rewrite Hc in Hcr0. injection Hcr0 as <-.
        rewrite Hb in Hb0. injection Hb0 as <-. apply Z.land_diag. }
      split; [exact Hok |]. split; [exact Hreg1 |]. split; [auto |].
      intros k wk Hk _. subst s1. st_simpl. now rewrite Hk. }
  cbv beta. intros nd s' ((HI & Hnd) & _). auto.
Qed.

(** ** The next deadline of an iteration *)

Lemma watcher_swept_active_timer bits now w :
  active w <> 0 -> is_timer (type w) = true ->
  watcher_swept bits now w = timer_swept now w.
Proof.
  intros Hact Hty. unfold watcher_swept.
  assert ((active w =? 0) = false) as -> by (now apply Z.eqb_neq).
  unfold is_timer in Hty. destruct (type w); try discriminate; reflexivity.
Qed.

Lemma swept_deadline_cases now w nd :
  swept_deadline now w nd <= nd /\
  (swept_deadline now w nd = nd \/
   (swept_deadline now w nd = t_deadline (watcher_swept 0 now w) /\
    swept_deadline now w nd <> 0 /\ is_timer (type w) = true)) /\
  (active w <> 0 -> is_timer (type w) = true ->
   t_deadline (watcher_swept 0 now w) <> 0 ->
   swept_deadline now w nd <= t_deadline (watcher_swept 0 now w)).
Proof.
  unfold swept_deadline.
  destruct (active w =? 0) eqn:Hact; simpl.
  { apply Z.eqb_eq in Hact. split; [lia |]. split; [now left |]. congruence. }
  apply Z.eqb_neq in Hact.
  destruct (is_timer (type w)) eqn:Hty; simpl.
  2:{ split; [lia |]. split; [now left |]. discriminate. }
  rewrite (watcher_swept_active_timer 0 now w Hact Hty).
  destruct (negb (t_deadline (timer_swept now w) =? 0)) eqn:Hnz; simpl.
  - apply negb_true_iff, Z.eqb_neq in Hnz.
    destruct (t_deadline (timer_swept now w) <? nd) eqn:Hlt.
    + apply Z.ltb_lt in Hlt. split; [lia |]. split; [right; auto |]. lia.
    + apply Z.ltb_ge in Hlt. split; [lia |]. split; [now left |]. lia.
  - apply negb_false_iff, Z.eqb_eq in Hnz.
    split; [lia |]. split; [now left |]. intros. congruence.
Qed.

Lemma watcher_swept_timer bits now w :
  is_timer (type w) = true ->
  t_deadline (watcher_swept bits now w) = t_deadline (watcher_swept 0 now w) /\
  type (watcher_swept bits now w) = type w.
Proof.
  intros Hty. destruct (Z.eq_dec (active w) 0) as [E | E].
  - unfold watcher_swept. apply Z.eqb_eq in E. rewrite E. auto.
  - rewrite !(watcher_swept_active_timer _ now w E Hty).
    split; [reflexivity |]. apply timer_swept_fields.
Qed.

(** The body of the sweep keeps [sweep_deadline]. *)
Lemma sweep_deadline_step c bits l pre k rest s0 s wk nd :
  sweep_inv c pre (Some k) (k :: rest) s ->
  uevs s !! k = Some wk -> k ∈ l ->
  sweep_progress c bits l (k :: rest) s0 s ->
  sweep_deadline l (k :: rest) s0 nd s ->
  wp (uev_run_watcher bits k nd)
     (fun nd' s' =>
        (sweep_progress c bits l rest s0 s' /\ sweep_deadline l rest s0 nd' s') /\
        sweep_next c pre k wk rest s') s.
Proof.
  intros Hinv Hk Hkl Hprog (Hnz & Hfrom & Hmin).
  destruct (sweep_inv_cons _ _ _ _ _ _ Hinv) as (_ & _ & _ & Hkrest).
  eapply wp_mono.
  { apply wp_conj.
    - eapply sweep_progress_step; eassumption.
    - eapply (wp_uev_run_watcher c pre k rest s wk bits nd); eassumption. }
  cbv beta. intros nd' s' ((Hprog' & Hnx) & (-> & Hcore & _ & Hfr & _)).
  split; [split; [exact Hprog' |] | exact Hnx].
  destruct Hfr as (Hoth & _).
  destruct (swept_deadline_cases (now_ms s) wk nd) as (Hle & Hcase & Hk_min).
  destruct (core_lookup_Some _ _ _ Hcore) as (wk' & Hk' & Hck').
  pose proof (core_fields _ _ Hck') as (_ & _ & _ & _ & _ & _ & _ & Ede & _ & Ety & _).
  (* the watcher as the sweep started *)
  assert (Hk0 : forall wa, uevs s0 !! k = Some wa -> core wk = core wa).
  { intros wa Hwa. destruct Hprog as (_ & _ & _ & _ & Hall).
    destruct (Hall k wa Hwa) as (Hsame & _).
    destruct Hsame as (E & _); [right; left |].
    rewrite Hk in E. simpl in E. congruence. }
  split; [| split].
  - destruct Hcase as [-> | (_ & H & _)]; assumption.
  - destruct Hcase as [-> | (E & Hn0 & Hty)].
    + destruct Hfrom as [-> | (a & w & Hal & Har & Haw & Hty & Hd)]; [now left |].
      right.
      assert (Hne : a <> k) by (intros ->; apply Har; left).
      pose proof (Hoth a Hne) as Ec. rewrite Haw in Ec. simpl in Ec.
      apply core_lookup_Some in Ec as (w' & Hw' & Hc').
      apply core_fields in Hc'.
      destruct Hc' as (_ & _ & _ & _ & _ & _ & _ & Ed' & _ & Et' & _).
      exists a, w'. split; [exact Hal |].
      split; [intros H; apply Har; now right |].
      split; [exact Hw' |]. split; [congruence | congruence].
    + right. exists k, wk'. split; [exact Hkl |]. split; [exact Hkrest |].
      split; [exact Hk' |].
      destruct (watcher_swept_timer bits (now_ms s) wk Hty) as (Ed & Et).
      split; [congruence | congruence].
  - intros a wa w Hal Har Hwa Hact Hty Hw Hd.
    destruct (decide (a = k)) as [-> | Hne].
    + rewrite Hk' in Hw. injection Hw as <-.
      pose proof (Hk0 wa Hwa) as Hc0. apply core_fields in Hc0.
      destruct Hc0 as (_ & Ea & _ & _ & _ & _ & _ & _ & _ & Et & _).
      assert (Hty' : is_timer (type wk) = true) by congruence.
      destruct (watcher_swept_timer bits (now_ms s) wk Hty') as (Ed & _).
      rewrite Ede, Ed in *. apply Hk_min; congruence.
    + pose proof (Hoth a Hne) as Ec. rewrite Hw in Ec. simpl in Ec.
      symmetry in Ec. apply core_lookup_Some in Ec as (w0 & Hw0 & Hc0).
      apply core_fields in Hc0.
      destruct Hc0 as (_ & _ & _ & _ & _ & _ & _ & Ed0 & _).
      assert (nd <= t_deadline w0); [| lia].
      apply (Hmin a wa w0); auto; [| congruence].
      intros [-> | H]%elem_of_cons; contradiction.
Qed.

Section NextDeadline.

Variables portMAX_DELAY portTICK_PERIOD_MS : Z.

(** X8. The [next_deadline] that an iteration of the loop computes is
    never 0: it is [DEADLINE_MAX] or the deadline of a timer of the
    list; and it is not later than the deadline, if that is not 0, that
    any timer of the list that was active has after the iteration.  So
    the wait of the next iteration ends by the earliest deadline. *)
Theorem uev_run_iteration_next_deadline fuel c cr b l nd s :
  registry s c l -> (length l <= fuel)%nat ->
  ctxs s !! c = Some cr -> egh cr = Some b ->
  wp (uev_run_iteration portMAX_DELAY portTICK_PERIOD_MS fuel c nd)
     (fun nd' s' =>
        nd' <> 0 /\
        (nd' = DEADLINE_MAX \/
         exists a w, a ∈ l /\ uevs s' !! a = Some w /\
                     is_timer (type w) = true /\ t_deadline w = nd') /\
        forall a wa w, a ∈ l ->
          uevs s !! a = Some wa -> active wa <> 0 ->
          is_timer (type wa) = true ->
          uevs s' !! a = Some w -> t_deadline w <> 0 ->
          nd' <= t_deadline w) s.
Proof.
  intros Hreg Hfuel Hc Hb.
  unfold uev_run_iteration. wp_run.
  eapply wp_xEventGroupWaitBits; [wp_lookup | exact Hb |].
  wp_run.
  set (s1 := with_waits _ _).
  assert (Hreg1 : registry s1 c l).
  { eapply registry_frame; [exact Hreg | reflexivity |].
    intros cr0 Hcr0. rewrite Hc in Hcr0. injection Hcr0 as <-.
    eexists. split; [subst s1; st_simpl; apply lookup_insert_eq |].
    reflexivity. }
  destruct (registry_sweep_inv _ _ _ Hreg1) as (cr1 & Hc1 & Hinv).
  assert (cr1 = set_egh (Some (Z.ldiff b UEV_EG_MASK)) cr) as ->.
  { subst s1. st_simpl. rewrite lookup_insert_eq in Hc1. congruence. }
  eapply wp_mono.
  { apply (wp_UEV_FOREACH (uev_run_watcher b)
             (fun rest nd' s' =>
                (exists pre, l = pre ++ rest) /\
                sweep_progress c b l rest s1 s' /\
                sweep_deadline l rest s1 nd' s') c)
      with (pre := []) (rest := l); auto.
    - intros pre k rest acc s' wk Hinv' Hk ((pre0 & Hl) & Hprog & Hdl).
      assert (Hkl : k ∈ l) by (rewrite Hl; apply elem_of_app; right; left).
      eapply wp_mono; [eapply sweep_deadline_step; eassumption |].
      cbv beta. intros nd' s2 ((H1 & H2) & H3).
      split; [| exact H3]. split; [| auto].
      exists (pre0 ++ [k]). now rewrite <- app_assoc.
    - split; [exists []; reflexivity |].
      split; [apply sweep_progress_start |].
      split; [discriminate |]. split; [now left |].
      intros a wa w Hal Har. contradiction. }
  cbv beta. intros nd' s' ((_ & _ & Hdl) & _).
  destruct Hdl as (Hnz & Hfrom & Hmin).
  split; [exact Hnz |]. split.
  - destruct Hfrom as [-> | (a & w & Hal & _ & Haw & Hty & Hd)]; [now left |].
    right. exists a, w. auto.
  - intros a wa w Hal Hwa. apply (Hmin a wa w Hal); [apply not_elem_of_nil |].
    exact Hwa.
Qed.

End NextDeadline.

Lemma uev_run_iteration_next_deadline_witness :
  exists nd' s',
    uev_run_iteration 4294967295 10 1 0 DEADLINE_MAX ex_periodic_armed =
      Ok nd' s' /\ nd' <> 0.
Proof.
  assert (Hreg : registry ex_periodic_armed 0 [1%nat])
    by (apply registryb_sound; vm_compute; reflexivity).
  assert (Hcr : exists cr, ctxs ex_periodic_armed !! 0%nat = Some cr /\
                           egh cr = Some UEV_EG_BIT_TIMER)
    by (eexists; split; vm_compute; reflexivity).
  destruct Hcr as (cr & Hcr & Hb).
  pose proof (uev_run_iteration_next_deadline 4294967295 10 1 0 cr _ [1%nat]
                DEADLINE_MAX ex_periodic_armed Hreg (le_n 1) Hcr Hb) as H.
  apply wp_elim in H as (nd' & s' & E & Hnz & _).
  exists nd', s'. auto.
Defined.

(** ** The wait of an iteration *)

(** X7. The wait that an iteration asks for, with a tick period greater
    than 0: it is [portMAX_DELAY] when no deadline is known
    ([next_deadline = DEADLINE_MAX]), 0 ticks when the deadline is not
    in the future, and otherwise a number of ticks that does not last
    beyond the deadline; when that number fits the 32 bits of a tick
    count, it falls short of the deadline by less than one tick. *)
Theorem tickstowait_bound (portMAX_DELAY portTICK_PERIOD_MS : Z) now nd :
  0 < portTICK_PERIOD_MS -> 0 <= now ->
  let tw := tickstowait portMAX_DELAY portTICK_PERIOD_MS now nd in
  (nd = DEADLINE_MAX -> tw = portMAX_DELAY) /\
  (nd <> DEADLINE_MAX -> nd <= now -> tw = 0) /\
  (nd <> DEADLINE_MAX -> now < nd ->
   0 <= tw /\ tw * portTICK_PERIOD_MS <= nd - now /\
   ((nd - now) / portTICK_PERIOD_MS < 2 ^ 32 ->
    nd - now < (tw + 1) * portTICK_PERIOD_MS)).
Proof.
  intros Hpt Hnow. cbv zeta. unfold tickstowait.
  split; [intros ->; reflexivity |].
  split.
  - intros Hne Hle.
    assert ((nd =? DEADLINE_MAX) = false) as -> by (now apply Z.eqb_neq).
    assert ((nd <=? now) = true) as -> by (now apply Z.leb_le).
    reflexivity.
  - intros Hne Hlt.
    assert ((nd =? DEADLINE_MAX) = false) as -> by (now apply Z.eqb_neq).
    assert ((nd <=? now) = false) as -> by (apply Z.leb_gt; lia).
    assert ((nd =? 0) = false) as -> by (apply Z.eqb_neq; lia).
    simpl. unfold wrap32.
    set (d := nd - now). set (q := d / portTICK_PERIOD_MS).
    assert (Hq : 0 <= q) by (apply Z.div_pos; subst d; lia).
    assert (Hqd : q * portTICK_PERIOD_MS <= d).
    { subst q. rewrite Z.mul_comm. apply Z.mul_div_le. lia. }
    assert (Hm : 0 <= q mod 2 ^ 32 <= q).
    { split; [apply Z.mod_pos_bound; lia | apply Z.mod_le; lia]. }
    split; [lia |]. split; [nia |].
    intros Hfit. rewrite Z.mod_small by lia.
    subst q. pose proof (Z.mul_succ_div_gt d portTICK_PERIOD_MS Hpt). lia.
Qed.

Lemma tickstowait_bound_witness :
  tickstowait 4294967295 10 3000 3100 = 10.
Proof.
  destruct (tickstowait_bound 4294967295 10 3000 3100) as (_ & _ & H);
    [lia | lia |].
  destruct H as (H0 & H1 & H2); [discriminate | lia |].
  specialize (H2 ltac:(vm_compute; reflexivity)). lia.
Defined.

(** ** Running the loop once *)


(** X6. [uev_run] on a null context, or on a context whose event group
    does not exist, returns -1 with [EINVAL] and changes nothing else:
    the [running] flag is not set and no timer is touched. *)
Theorem uev_run_invalid (portMAX_DELAY portTICK_PERIOD_MS : Z)
        iters fuel flags c cr s :
  ctxs s !! c = Some cr -> egh cr = None ->
  uev_run portMAX_DELAY portTICK_PERIOD_MS iters fuel None flags s =
    Ok (-1) (with_errno EINVAL s) /\
  uev_run portMAX_DELAY portTICK_PERIOD_MS iters fuel (Some c) flags s =
    Ok (-1) (with_errno EINVAL s).
Proof.
  intros Hc He. split; [reflexivity |].
  unfold uev_run, mbind, M_bind, bind, load_ctx. rewrite Hc, He. reflexivity.
Qed.

Section Once.

Variables portMAX_DELAY portTICK_PERIOD_MS : Z.


(** X10. With [UEV_NONBLOCK] the pass on entry of [uev_run] returns the
    [next_deadline] 0 whatever timers are on the list, so the first wait
    of the loop is a poll of 0 ticks; the pass calls no callback. *)
Theorem uev_run_entry_nonblock fuel c cr b l flags s :
  registry s c l -> (length l <= fuel)%nat ->
  ctxs s !! c = Some cr -> egh cr = Some b ->
  timers_ok s l -> Z.land flags UEV_NONBLOCK <> 0 ->
  wp (uev_run_entry fuel c flags)
     (fun nd s' =>
        nd = 0 /\
        tickstowait portMAX_DELAY portTICK_PERIOD_MS (now_ms s') nd = 0 /\
        calls s' = calls s /\ waits s' = waits s /\ registry s' c l) s.
Proof.
  intros Hreg Hfuel Hc Hb Hok Hnb.
  eapply wp_mono; [eapply wp_uev_run_entry_pass; eassumption |].
  cbv beta. intros nd s1 ((_ & _ & Hcl & Hwt & _ & _ & _ & Hreg1 & _) & Hnd).
  assert ((Z.land flags UEV_NONBLOCK =? 0) = false) as E by (now apply Z.eqb_neq).
  rewrite E in Hnd. simpl in Hnd.
  assert (nd = 0) as -> by lia.
  split; [reflexivity |]. split; [| auto].
  unfold tickstowait. change (0 =? DEADLINE_MAX) with false. cbv iota.
  destruct (0 <=? now_ms s1); reflexivity.
Qed.

End Once.

Lemma uev_run_invalid_witness :
  uev_run 4294967295 10 1 1 (Some 0%nat) 0
    (with_ctxs {[ 0%nat := mk_ctx 0 None None 0 ]} ex_blank_state) =
  Ok (-1) (with_errno EINVAL
             (with_ctxs {[ 0%nat := mk_ctx 0 None None 0 ]} ex_blank_state)).
Proof.
  apply (uev_run_invalid 4294967295 10 1 1 0 0 (mk_ctx 0 None None 0));
    [vm_compute; reflexivity | reflexivity].
Defined.


Lemma uev_run_entry_nonblock_witness :
  exists s',
    uev_run_entry 1 0 UEV_NONBLOCK (ex_periodic_state 5) = Ok 0 s' /\
    calls s' = [].
Proof.
  assert (Hreg : registry (ex_periodic_state 5) 0 [1%nat])
    by (apply registryb_sound; vm_compute; reflexivity).
  assert (Hcr : exists cr, ctxs (ex_periodic_state 5) !! 0%nat = Some cr /\
                           egh cr = Some UEV_EG_BIT_TIMER)
    by (eexists; split; vm_compute; reflexivity).
  destruct Hcr as (cr & Hcr & Hb).
  assert (Hw : uevs (ex_periodic_state 5) !! 1%nat = Some (ex_periodic 5))
    by (vm_compute; reflexivity).
  assert (Hok : timers_ok (ex_periodic_state 5) [1%nat]).
  { intros k w ->%list_elem_of_singleton Hk _. rewrite Hw in Hk.
    injection Hk as <-.
    split; [vm_compute; intuition discriminate | reflexivity]. }
  pose proof (uev_run_entry_nonblock 4294967295 10 1 0 cr _ [1%nat] UEV_NONBLOCK
                (ex_periodic_state 5) Hreg (le_n 1) Hcr Hb Hok) as H.
  apply wp_elim in H as (nd & s' & E & -> & _ & Hcl & _); [| discriminate].
  exists s'. split; [exact E |]. rewrite Hcl. vm_compute. reflexivity.
Defined.

(** ** The first pass of the selector *)

Lemma polled_nil s ev fd_ : ~ polled [] s ev fd_.
Proof. intros (k & wr & Hk & _). now apply elem_of_nil in Hk. Qed.

Lemma polled_snoc l k s ev fd_ :
  polled (l ++ [k]) s ev fd_ <-> polled l s ev fd_ \/ polled [k] s ev fd_.
Proof.
  split.
  - intros (j & wr & Hj & H). apply elem_of_app in Hj as [Hj | Hj].
    + left. exists j, wr. auto.
    + right. exists j, wr. auto.
  - intros [(j & wr & Hj & H) | (j & wr & Hj & H)]; exists j, wr;
      (split; [apply elem_of_app; auto | exact H]).
Qed.

Lemma polled_one k wk s ev fd_ :
  uevs s !! k = Some wk ->
  polled [k] s ev fd_ <->
  0 < active wk /\ fd wk = fd_ /\ 0 <= fd_ /\ iot_events wk = 0 /\
  Z.land (events wk) ev <> 0.
Proof.
  intros Hk. split.
  - intros (j & wr & ->%list_elem_of_singleton & Hj & H).
    rewrite Hk in Hj. now injection Hj as <-.
  - intros H. exists k, wk. split; [left | auto].
Qed.

(** The body of the first pass at the watcher [k]. *)
Lemma wp_task_fn_request_watcher fd_local l k wk rq s :
  uevs s !! k = Some wk -> request_of fd_local l s rq ->
  wp (task_fn_request_watcher k rq)
     (fun rq' s' => s' = s /\ request_of fd_local (l ++ [k]) s rq') s.
Proof.
  intros Hk (Hr & Hw & He & Hloc & Hmax).
  assert (Hskip : ~ (0 < active wk /\ 0 <= fd wk /\ iot_events wk = 0) ->
                  request_of fd_local (l ++ [k]) s rq).
  { intros Hno.
    assert (Hnone : forall ev fd_, ~ polled [k] s ev fd_).
    { intros ev fd_ H. apply (polled_one k wk s ev fd_ Hk) in H.
      apply Hno. destruct H as (? & <- & ? & ? & _). auto. }
    split; [| split; [| split; [| split]]].
    - intros fd_. rewrite Hr, polled_snoc. specialize (Hnone UEV_READ fd_). tauto.
    - intros fd_. rewrite Hw, polled_snoc. specialize (Hnone UEV_WRITE fd_). tauto.
    - intros fd_. rewrite He, polled_snoc. specialize (Hnone UEV_ERROR fd_). tauto.
    - exact Hloc.
    - intros ev fd_ [H | H]%polled_snoc; [eauto | now apply Hnone in H]. }
  unfold task_fn_request_watcher. wp_run.
  destruct (0 <? active wk) eqn:Hact; simpl.
  2:{ wp_run. split; [reflexivity |]. apply Hskip. apply Z.ltb_ge in Hact. lia. }
  apply Z.ltb_lt in Hact. wp_run.
  destruct (fd wk <? 0) eqn:Hfd.
  { wp_run. split; [reflexivity |]. apply Hskip. apply Z.ltb_lt in Hfd. lia. }
  apply Z.ltb_ge in Hfd.
  destruct (iot_events wk =? 0) eqn:Hio; simpl.
  2:{ wp_run. split; [reflexivity |]. apply Hskip. apply Z.eqb_neq in Hio. lia. }
  apply Z.eqb_eq in Hio. wp_run. split; [reflexivity |].
  assert (Hone : forall ev fd_,
             polled [k] s ev fd_ <-> fd_ = fd wk /\ Z.land (events wk) ev <> 0).
  { intros ev fd_. rewrite (polled_one k wk s ev fd_ Hk).
    split; [intros (_ & <- & _ & _ & H); auto |].
    intros (-> & H). auto. }
  assert (Hset : forall ev (set : gset Z) fd_,
             (forall x, x ∈ set <-> polled l s ev x) ->
             fd_ ∈ (if negb (Z.land (events wk) ev =? 0)
                    then {[ fd wk ]} ∪ set else set) <->
             polled (l ++ [k]) s ev fd_).
  { intros ev set fd_ Hs. rewrite polled_snoc, Hone.
    destruct (Z.land (events wk) ev =? 0) eqn:E; simpl.
    - apply Z.eqb_eq in E. rewrite Hs. tauto.
    - apply Z.eqb_neq in E. rewrite elem_of_union, elem_of_singleton, Hs. tauto. }
  split; [| split; [| split; [| split]]]; simpl.
  - intros fd_. rewrite polled_snoc, Hone.
    destruct (Z.land (events wk) UEV_READ =? 0) eqn:E; simpl.
    + apply Z.eqb_eq in E. rewrite Hr. tauto.
    + apply Z.eqb_neq in E. rewrite elem_of_union, elem_of_singleton, Hr. tauto.
  - intros fd_. apply Hset. exact Hw.
  - intros fd_. apply Hset. exact He.
  - destruct (req_maxfd rq <? fd wk) eqn:E; [apply Z.ltb_lt in E |]; lia.
  - intros ev fd_ [H | H]%polled_snoc.
    + apply Hmax in H.
      destruct (req_maxfd rq <? fd wk) eqn:E; [apply Z.ltb_lt in E |]; lia.
    + apply Hone in H as (-> & _).
      destruct (req_maxfd rq <? fd wk) eqn:E; [| apply Z.ltb_ge in E]; lia.
Qed.

Lemma wp_task_fn_request_pass fd_local l : forall pre rq s,
  (forall k, k ∈ l -> is_Some (uevs s !! k)) ->
  request_of fd_local pre s rq ->
  wp (list_for_every_entry_acc l task_fn_request_watcher rq)
     (fun rq' s' => s' = s /\ request_of fd_local (pre ++ l) s rq') s.
Proof.
  induction l as [| k l IH]; intros pre rq s Hal Hrq; simpl.
  - apply wp_ret. rewrite app_nil_r. auto.
  - destruct (Hal k) as (wk & Hk); [left |].
    wp_prim. eapply wp_mono; [eapply wp_task_fn_request_watcher; eassumption |].
    cbv beta. intros rq1 s1 (-> & Hrq1).
    eapply wp_mono.
    + apply (IH (pre ++ [k])); [| exact Hrq1]. intros j Hj. apply Hal. now right.
    + cbv beta. intros rq' s' (-> & H). rewrite <- app_assoc in H. auto.
Qed.

(** X11. The first pass of the selector task changes nothing, and the
    request that it builds for [select] is exact: apart from the wake-up
    socket in [readfds], a descriptor is in a set just when an active
    watcher of the list has it, has no pending events and asks for the
    event of that set; so a watcher whose events have not been delivered
    yet is not asked about again.  [maxfd] is at least the wake-up socket
    and every descriptor in the sets. *)
Theorem task_fn_request_exact fd_local s :
  (forall k, k ∈ iolist s -> is_Some (uevs s !! k)) ->
  wp (task_fn_request fd_local)
     (fun rq s' =>
        s' = s /\
        (forall fd_, fd_ ∈ req_read rq <->
                     fd_ = fd_local \/ polled (iolist s) s UEV_READ fd_) /\
        (forall fd_, fd_ ∈ req_write rq <-> polled (iolist s) s UEV_WRITE fd_) /\
        (forall fd_, fd_ ∈ req_except rq <-> polled (iolist s) s UEV_ERROR fd_) /\
        fd_local <= req_maxfd rq /\
        (forall fd_, fd_ ∈ req_read rq ∪ req_write rq ∪ req_except rq ->
                     fd_ <= req_maxfd rq)) s.
Proof.
  intros Hal. unfold task_fn_request. cbv zeta. wp_run.
  eapply wp_mono.
  { apply (wp_task_fn_request_pass fd_local (iolist s) []); [exact Hal |].
    split; [| split; [| split; [| split]]]; simpl.
    - intros fd_. rewrite elem_of_singleton. pose proof (polled_nil s UEV_READ fd_).
      tauto.
    - intros fd_. pose proof (polled_nil s UEV_WRITE fd_).
      rewrite elem_of_empty. tauto.
    - intros fd_. pose proof (polled_nil s UEV_ERROR fd_).
      rewrite elem_of_empty. tauto.
    - lia.
    - intros ev fd_ H. now apply polled_nil in H. }
  cbv beta. intros rq s' (-> & Hr & Hw & He & Hloc & Hmax). simpl in *.
  wp_run. split; [reflexivity |].
  split; [exact Hr |]. split; [exact Hw |]. split; [exact He |].
  split; [exact Hloc |].
  intros fd_ [[H | H]%elem_of_union | H]%elem_of_union.
  - apply Hr in H as [-> | H]; [exact Hloc | eauto].
  - apply Hw in H. eauto.
  - apply He in H. eauto.
Qed.

Lemma task_fn_request_exact_witness :
  exists rq,
    task_fn_request 5 ex_io_state = Ok rq ex_io_state /\
    (3 ∈ req_read rq) /\ (3 ∉ req_write rq) /\ 5 <= req_maxfd rq.
Proof.
  assert (Hal : forall k, k ∈ iolist ex_io_state ->
                          is_Some (uevs ex_io_state !! k)).
  { intros k ->%list_elem_of_singleton. vm_compute. eauto. }
  pose proof (task_fn_request_exact 5 ex_io_state Hal) as H.
  apply wp_elim in H as (rq & s' & E & -> & Hr & Hw & _ & Hm & _).
  assert (Hio : uevs ex_io_state !! 1%nat = Some ex_io)
    by (vm_compute; reflexivity).
  exists rq. split; [exact E |]. split; [| split; [| exact Hm]].
  - apply Hr. right. exists 1%nat, ex_io.
    split; [left |]. split; [exact Hio |].
    repeat split; (reflexivity || discriminate).
  - intros (k & wr & ->%list_elem_of_singleton & Hk & _ & _ & _ & _ & Hev)%Hw.
    rewrite Hio in Hk. injection Hk as <-. apply Hev. reflexivity.
Defined.

(** ** The second pass of the selector, exactly *)












(** ** Leaving the loop *)

Lemma wp_UEV_REMOVE_again s c l a (Q : unit -> state -> Prop) :
  registry s c l -> a ∉ l -> links (uevs s) a = Some (None, None) ->
  Q tt s -> wp (_UEV_REMOVE a c) Q s.
Proof.
  intros Hreg Hnin Hla HQ. unfold wp.
  now rewrite (UEV_REMOVE_again s c l a Hreg Hnin Hla).
Qed.

(** [_uev_watcher_stop] on an active watcher that has been unlinked
    already: only the active flag changes. *)
Lemma wp_uev_watcher_stop_unlinked s c l a wa :
  registry s c l -> a ∉ l -> uevs s !! a = Some wa ->
  next wa = None -> prev wa = None -> ctx wa = Some c ->
  0 < active wa -> type wa <> UEV_IO_TYPE ->
  wp (_uev_watcher_stop (Some a))
     (fun rc s' =>
        rc = 0 /\ s' = with_uevs (<[a := set_active 0 wa]> (uevs s)) s) s.
Proof.
  intros Hreg Hnin Ha Hn Hp Hc Hact Hio.
  unfold _uev_watcher_stop. wp_run.
  assert ((0 <? active wa) = true) as -> by (apply Z.ltb_lt; lia).
  simpl. wp_run.
  change (type (set_active 0 wa)) with (type wa).
  change (ctx (set_active 0 wa)) with (ctx wa).
  rewrite (bool_decide_eq_false_2 (type wa = UEV_IO_TYPE)) by assumption.
  wp_prim. rewrite Hc.
  set (s1 := with_uevs _ s).
  assert (Hreg1 : registry s1 c l) by (now apply registry_update_off).
  destruct (bool_decide (type wa = UEV_TIMER_TS_TYPE)); simpl.
  - wp_run. auto.
  - unfold when. wp_run.
    eapply wp_UEV_REMOVE_again; [exact Hreg1 | exact Hnin | |].
    + subst s1. st_simpl. rewrite links_insert, decide_True by reflexivity.
      simpl. now rewrite Hn, Hp.
    + wp_run. auto.
Qed.

Section ExitWalk.

Variable uev_io_stop : ptr -> M Z.

(** The body of the walk of [uev_exit], at the node [k] of the list. *)
Lemma wp_uev_exit_watcher c l pre k rest s0 s wk :
  sweep_inv c pre (Some k) (k :: rest) s ->
  uevs s !! k = Some wk -> k ∈ l ->
  (forall j wj, j ∈ l -> uevs s0 !! j = Some wj ->
                type wj = UEV_IO_TYPE -> active wj <= 0) ->
  (forall j, j ∈ l -> is_Some (uevs s0 !! j)) ->
  exit_progress c l (k :: rest) s0 s ->
  wp (uev_exit_watcher uev_io_stop c k tt)
     (fun _ s' => exit_progress c l rest s0 s' /\
                  sweep_next c pre k wk rest s') s.
Proof.
  intros Hinv Hk Hkl Hnoio Hal (Hcl & Herr & Hiol & Hoc & Hctx & Hall).
  destruct (sweep_inv_cons _ _ _ _ _ _ Hinv) as (_ & _ & _ & Hkrest).
  destruct (sweep_inv_whole _ _ _ _ _ Hinv)
    as (cr & q & wk1 & Hcr & Hk1 & Hck & Hnd & Hd).
  rewrite Hk in Hk1. injection Hk1 as <-.
  destruct (NoDup_app_remove _ _ _ Hnd) as (Hnd' & Hnin).
  (* the watcher as the walk started *)
  destruct (Hal k Hkl) as (wk0 & Hk0).
  assert (Hc0 : core wk = core wk0).
  { pose proof (Hall k wk0 Hk0) as E. rewrite Hk in E. simpl in E.
    rewrite (bool_decide_eq_true_2 (k ∈ k :: rest)) in E by (left).
    rewrite andb_false_r in E. simpl in E. congruence. }
  pose proof (core_fields _ _ Hc0) as (_ & Eact & _ & _ & _ & _ & _ & _ & _ & Ety & _).
  unfold uev_exit_watcher. wp_prim.
  eapply wp_mono; [eapply wp_UEV_REMOVE; eassumption |].
  cbv beta. intros [] s1 Hrem.
  pose proof (sweep_inv_removed _ _ _ _ _ _ _ _ Hinv Hcr Hk Hrem) as Hinv1.
  pose proof (sweep_inv_registry_app _ _ _ _ _ Hinv1) as Hreg1.
  destruct Hrem as (Henv & Hsc & Hla & cr' & q1' & q' & Hctx1 & _ & Hegh1 & _).
  destruct Henv as (E1 & _ & _ & E4 & E5 & _).
  apply links_inv in Hla as (w1 & Hw1 & Hn1 & Hp1).
  assert (Hc1 : core w1 = core wk).
  { pose proof (Hsc k) as E. rewrite Hw1, Hk in E. simpl in E. congruence. }
  pose proof (core_fields _ _ Hc1)
    as (_ & Eact1 & _ & _ & _ & _ & _ & _ & _ & Ety1 & _ & Ectx1).
  (* what is kept for the other watchers, and for the contexts *)
  assert (Hkeep : forall s',
             calls s' = calls s1 -> errno s' = errno s1 ->
             iolist s' = iolist s1 -> ctxs s' = ctxs s1 ->
             (forall j, j <> k -> uevs s' !! j = uevs s1 !! j) ->
             core <$> uevs s' !! k =
               Some (core (if 0 <? active wk0 then set_active 0 wk0 else wk0)) ->
             exit_progress c l rest s0 s').
  { intros s' F1 F2 F3 F4 F5 F6.
    split; [congruence |]. split; [congruence |]. split; [congruence |].
    split.
    { intros c' Hne. rewrite F4, Hctx1, lookup_insert_ne by congruence. auto. }
    split.
    { intros cr0 Hcr0. destruct (Hctx cr0 Hcr0) as (cr1 & Hcr1 & He1).
      rewrite Hcr in Hcr1. injection Hcr1 as <-.
      exists cr'. rewrite F4, Hctx1, lookup_insert_eq. split; [reflexivity |].
      congruence. }
    intros j wj Hj. destruct (decide (j = k)) as [-> | Hne].
    - rewrite Hk0 in Hj. injection Hj as <-.
      rewrite (bool_decide_eq_true_2 (k ∈ l)) by assumption.
      rewrite (bool_decide_eq_false_2 (k ∈ rest)) by assumption.
      exact F6.
    - rewrite (F5 j Hne), (Hsc j), (Hall j wj Hj).
      assert (bool_decide (j ∈ k :: rest) = bool_decide (j ∈ rest)) as ->;
        [| reflexivity].
      apply bool_decide_ext. rewrite elem_of_cons. tauto. }
  wp_run. rewrite Eact1, Eact.
  destruct (0 <? active wk0) eqn:Hact; simpl.
  2:{ wp_run. split.
      - apply Hkeep; auto. rewrite Hw1. simpl. congruence.
      - right. split; [exact Hinv1 |].
        rewrite (links_Some _ _ _ Hw1). now rewrite Hn1, Hp1. }
  apply Z.ltb_lt in Hact. wp_run.
  assert (Hnio : type w1 <> UEV_IO_TYPE).
  { intros E. assert (active wk0 <= 0); [| lia].
    apply (Hnoio k wk0 Hkl Hk0). congruence. }
  assert (Hstop : wp (_uev_watcher_stop (Some k))
                     (fun rc s' =>
                        rc = 0 /\
                        s' = with_uevs (<[k := set_active 0 w1]> (uevs s1)) s1) s1).
  { eapply (wp_uev_watcher_stop_unlinked s1 c (pre ++ rest) k w1);
      (eassumption || congruence || lia). }
  set (s2 := with_uevs (<[k := set_active 0 w1]> (uevs s1)) s1) in *.
  assert (Hprog2 : exit_progress c l rest s0 s2).
  { apply Hkeep; try reflexivity.
    - intros j Hne. subst s2. st_simpl. now rewrite lookup_insert_ne.
    - subst s2. st_simpl. rewrite lookup_insert_eq. simpl. f_equal.
      eapply core_set_active with (x := active wk0).
      rewrite Hc1, Hc0. now destruct wk0. }
  assert (Hnx2 : sweep_next c pre k wk rest s2).
  { right. split.
    - subst s2. eapply sweep_inv_update; [exact Hinv1 | exact Hw1 | | |];
        reflexivity.
    - subst s2. st_simpl. rewrite links_insert, decide_True by reflexivity.
      simpl. now rewrite Hn1, Hp1. }
  assert (Hreg2 : registry s2 c (pre ++ rest))
    by (subst s2; now apply registry_update_off).
  assert (Hk2 : uevs s2 !! k = Some (set_active 0 w1))
    by (subst s2; st_simpl; apply lookup_insert_eq).
  destruct (type w1) eqn:Hty; try congruence.
  - (* a timer *)
    wp_prim. unfold uev_timer_stop, _uev_timer_stop. wp_run.
    assert ((0 <? active w1) = true) as -> by (apply Z.ltb_lt; lia).
    simpl. wp_prim. eapply wp_mono; [exact Hstop |].
    cbv beta. intros rc s' (-> & ->).
    change (negb (0 =? 0)) with false. cbv iota. wp_run.
    change (negb (0 =? 0)) with false. cbv iota. wp_run.
    change (ctx (set_active 0 w1)) with (ctx w1). rewrite Ectx1, Hck. wp_run.
    eapply wp_UEV_REMOVE_again; [exact Hreg2 | exact Hnin | |].
    { destruct Hnx2 as [_ | (_ & H)]; [| exact H].
      subst s2. st_simpl. rewrite links_insert, decide_True by reflexivity.
      simpl. now rewrite Hn1, Hp1. }
    wp_run. auto.
  - (* a threadsafe timer *)
    wp_prim. unfold uev_timer_stop, _uev_timer_stop. wp_run.
    assert ((0 <? active w1) = true) as -> by (apply Z.ltb_lt; lia).
    simpl. wp_prim. eapply wp_mono; [exact Hstop |].
    cbv beta. intros rc s' (-> & ->).
    change (negb (0 =? 0)) with false. cbv iota. wp_run.
    change (negb (0 =? 0)) with false. cbv iota. wp_run.
    change (ctx (set_active 0 w1)) with (ctx w1). rewrite Ectx1, Hck. wp_run.
    eapply wp_UEV_REMOVE_again; [exact Hreg2 | exact Hnin | |].
    { destruct Hnx2 as [_ | (_ & H)]; [| exact H].
      subst s2. st_simpl. rewrite links_insert, decide_True by reflexivity.
      simpl. now rewrite Hn1, Hp1. }
    wp_run. auto.
  - (* an event watcher *)
    wp_prim. unfold uev_event_stop. wp_run.
    assert ((0 <? active w1) = true) as -> by (apply Z.ltb_lt; lia).
    simpl. wp_prim. eapply wp_mono; [exact Hstop |].
    cbv beta. intros rc s' (-> & ->).
    change (negb (0 =? 0)) with false. cbv iota. wp_run. auto.
Qed.

(** X13. [uev_exit] on a context with a well-formed list on which no I/O
    watcher is active returns 0 given fuel for the length of the list:
    the list of the context is empty and its [running] flag is 0, every
    watcher that was on the list and active is stopped, every other
    watcher is as it was (places in the list apart), and no callback has
    run.  On a null context it returns -1 with [EINVAL] and changes
    nothing else. *)
Theorem uev_exit_stops_all fuel c cr b l s :
  registry s c l -> (length l <= fuel)%nat ->
  ctxs s !! c = Some cr -> egh cr = Some b ->
  (forall j wj, j ∈ l -> uevs s !! j = Some wj ->
                type wj = UEV_IO_TYPE -> active wj <= 0) ->
  wp (uev_exit uev_io_stop fuel (Some c))
     (fun rc s' =>
        rc = 0 /\ registry s' c [] /\
        (exists cr', ctxs s' !! c = Some cr' /\
                     running cr' = 0 /\ watchers cr' = None) /\
        (forall k wk, uevs s !! k = Some wk ->
           core <$> uevs s' !! k =
             Some (core (if bool_decide (k ∈ l) && (0 <? active wk)
                         then set_active 0 wk else wk))) /\
        calls s' = calls s) s /\
  uev_exit uev_io_stop fuel None s = Ok (-1) (with_errno EINVAL s).
Proof.
  intros Hreg Hfuel Hc Hb Hnoio. split; [| reflexivity].
  assert (Hal : forall j, j ∈ l -> is_Some (uevs s !! j)).
  { intros j Hj. destruct (registry_lookup _ _ _ _ Hreg Hj) as (w & Hw & _).
    eauto. }
  unfold uev_exit. wp_run.
  destruct (registry_sweep_inv _ _ _ Hreg) as (cr1 & Hc1 & Hinv).
  rewrite Hc in Hc1. injection Hc1 as <-.
  eapply wp_mono.
  { apply (wp_UEV_FOREACH (uev_exit_watcher uev_io_stop c)
             (fun rest _ s' => (forall x, x ∈ rest -> x ∈ l) /\
                               exit_progress c l rest s s') c)
      with (pre := []) (rest := l); auto.
    - intros pre k rest [] s' wk Hinv' Hk (Hsub & Hprog).
      eapply wp_mono.
      { eapply (wp_uev_exit_watcher c l pre k rest s s' wk); auto.
        apply Hsub. left. }
      cbv beta. intros _ s2 (H1 & H2). split; [| exact H2].
      split; [| exact H1]. intros x Hx. apply Hsub. now right.
    - split; [auto |].
      split; [reflexivity |]. split; [reflexivity |]. split; [reflexivity |].
      split; [auto |]. split; [eauto |].
      intros k wk Hk. rewrite Hk. simpl.
      destruct (bool_decide (k ∈ l)); reflexivity. }
  cbv beta. intros [] s1 ((_ & Hcl & _ & _ & _ & Hctx & Hall) & _).
  destruct (Hctx cr Hc) as (cr1 & Hcr1 & He1).
  wp_run. unfold vEventGroupDelete. wp_run.
  change (egh (set_running 0 (set_watchers None cr1))) with (egh cr1).
  rewrite He1, Hb. wp_run.
  split; [reflexivity |].
  split.
  { exists (set_running 0 (set_watchers None cr1)), None. st_simpl.
    split; [apply lookup_insert_eq |].
    split; [split; reflexivity |]. split; [constructor |].
    intros a Ha. now apply elem_of_nil in Ha. }
  split.
  { eexists. st_simpl. split; [apply lookup_insert_eq |]. auto. }
  split; [| exact Hcl].
  intros k wk Hk. st_simpl. rewrite (Hall k wk Hk).
  rewrite (bool_decide_eq_false_2 (k ∈ [])) by apply not_elem_of_nil.
  simpl. now rewrite andb_true_r.
Qed.

End ExitWalk.

Lemma uev_exit_stops_all_witness :
  exists s' wa,
    uev_exit (fun _ => fault) 1 (Some 0%nat) ex_event_state = Ok 0 s' /\
    registry s' 0 [] /\ uevs s' !! 1%nat = Some wa /\ active wa = 0.
Proof.
  assert (Hreg : registry ex_event_state 0 [1%nat])
    by (apply registryb_sound; vm_compute; reflexivity).
  assert (Hcr : ctxs ex_event_state !! 0%nat = Some (ex_ctx 0 (Some 1%nat)))
    by (vm_compute; reflexivity).
  assert (Hw : uevs ex_event_state !! 1%nat = Some ex_event)
    by (vm_compute; reflexivity).
  destruct (uev_exit_stops_all (fun _ => fault) 1 0 _ 0 [1%nat] ex_event_state
              Hreg (le_n 1) Hcr eq_refl) as (H & _).
  { intros j wj ->%list_elem_of_singleton Hj Hty. rewrite Hw in Hj.
    injection Hj as <-. discriminate. }
  apply wp_elim in H as (rc & s' & E & -> & Hreg' & _ & Hall & _).
  pose proof (Hall 1%nat ex_event Hw) as Hc.
  apply core_lookup_Some in Hc as (wa & Hwa & Hcore).
  exists s', wa. split; [exact E |]. split; [exact Hreg' |].
  split; [exact Hwa |].
  apply core_fields in Hcore. destruct Hcore as (_ & -> & _). reflexivity.
Defined.

(** ** A one-shot timer that fires *)

(** [_uev_timer_stop] on an active timer of the list: the list afterwards. *)
Lemma wp_uev_timer_stop_registry s c cr pre a rest wa :
  registry s c (pre ++ a :: rest) -> ctxs s !! c = Some cr ->
  uevs s !! a = Some wa -> is_timer (type wa) = true -> 0 < active wa ->
  wp (_uev_timer_stop (Some a))
     (fun _ s' =>
        registry s' c (if bool_decide (type wa = UEV_TIMER_TS_TYPE)
                       then pre ++ a :: rest else pre ++ rest) /\
        exists w', uevs s' !! a = Some w' /\ type w' = type wa) s.
Proof.
  intros Hreg Hcr Ha Hty Hact.
  assert (Hnio : type wa <> UEV_IO_TYPE).
  { intros E. rewrite E in Hty. discriminate. }
  unfold _uev_timer_stop. wp_run.
  assert ((0 <? active wa) = true) as Hlt by (apply Z.ltb_lt; lia).
  rewrite Hlt. simpl. wp_prim.
  destruct (bool_decide (type wa = UEV_TIMER_TS_TYPE)) eqn:Hts.
  - unfold _uev_watcher_stop. wp_run. rewrite Hlt. simpl. wp_run.
    change (type (set_active 0 wa)) with (type wa).
    rewrite Hts, (bool_decide_eq_false_2 (type wa = UEV_IO_TYPE)) by assumption.
    simpl. wp_run. simpl. wp_run.
    split; [apply registry_update with (wa := wa); auto |].
    eexists. st_simpl. split; [apply lookup_insert_eq | reflexivity].
  - apply bool_decide_eq_false in Hts.
    eapply wp_mono; [eapply wp_uev_watcher_stop_listed; eassumption |].
    cbv beta. intros rc s' (-> & Hreg' & Hcore & _).
    simpl. wp_run. split; [exact Hreg' |].
    apply core_lookup_Some in Hcore as (w' & Hw' & Hc').
    exists w'. split; [exact Hw' |]. now apply core_fields in Hc'.
Qed.

(** The list after the sweep has handled a one-shot timer that is due. *)
Lemma wp_uev_run_watcher_one_shot s c cr pre a rest wa bits nd :
  registry s c (pre ++ a :: rest) -> ctxs s !! c = Some cr ->
  uevs s !! a = Some wa -> is_timer (type wa) = true -> 0 < active wa ->
  t_period wa = 0 -> timer_due (now_ms s) wa = true ->
  wp (uev_run_watcher bits a nd)
     (fun _ s' =>
        registry s' c (if bool_decide (type wa = UEV_TIMER_TS_TYPE)
                       then pre ++ a :: rest else pre ++ rest)) s.
Proof.
  intros Hreg Hcr Ha Hty Hact Hpe Hdue.
  assert (Hnio : type wa <> UEV_IO_TYPE).
  { intros E. rewrite E in Hty. discriminate. }
  assert (Hbody :
    wp ('(runcb, ev, nd0) ← uev_run_timer a nd;
        uev_run_deliver a runcb ev;; mret nd0)
       (fun _ s' =>
          registry s' c (if bool_decide (type wa = UEV_TIMER_TS_TYPE)
                         then pre ++ a :: rest else pre ++ rest)) s).
  { unfold uev_run_timer. wp_run. cbv zeta. wp_run.
    change (now_us s / 1000) with (now_ms s).
    change ((0 <? now_ms s) && negb (t_deadline wa =? 0) &&
            (t_deadline wa <? now_ms s)) with (timer_due (now_ms s) wa).
    rewrite Hdue, Hpe. change (0 =? 0) with true. unfold when at 1.
    wp_run. change (t_timeout (set_timeout 0 wa) =? 0) with true. cbv iota.
    set (s1 := with_uevs _ _).
    assert (Hreg1 : registry s1 c (pre ++ a :: rest)).
    { subst s1. eapply registry_env;
        [apply (registry_update s c _ a wa (set_timeout 0 wa)); auto
        | reflexivity | reflexivity]. }
    wp_prim.
    eapply wp_mono.
    { eapply (wp_uev_timer_stop_registry s1 c cr pre a rest (set_timeout 0 wa));
        [exact Hreg1 | exact Hcr | apply lookup_insert_eq | exact Hty
        | exact Hact]. }
    cbv beta. intros rc s2 (Hreg2 & w2 & Ha2 & Hty2).
    change (type (set_timeout 0 wa)) with (type wa) in Hreg2, Hty2.
    wp_run.
    eapply wp_mono; [eapply (wp_uev_run_deliver a w2); [wp_lookup | congruence] |].
    cbv beta. intros [] s3 ->. wp_run.
    eapply registry_env; [exact Hreg2 | reflexivity | reflexivity]. }
  unfold uev_run_watcher. wp_run.
  assert ((active wa =? 0) = false) as -> by (apply Z.eqb_neq; lia).
  unfold is_timer in Hty.
  destruct (type wa) eqn:E; try discriminate; exact Hbody.
Qed.

(** X14. When the sweep handles an active one-shot timer (period 0)
    that is due, it calls the callback once with [UEV_READ], zeroes the
    timeout and stops the timer; a timer that is not threadsafe is also
    taken off the list of the context, the other nodes staying in their
    order, so that later sweeps do not visit it, while a threadsafe timer
    stays on the list, not active. *)
Theorem uev_run_watcher_one_shot s c cr pre a rest wa f bits nd :
  registry s c (pre ++ a :: rest) -> ctxs s !! c = Some cr ->
  uevs s !! a = Some wa -> is_timer (type wa) = true -> 0 < active wa ->
  t_period wa = 0 -> cb wa = Some f ->
  0 < t_deadline wa -> t_deadline wa < now_ms s ->
  wp (uev_run_watcher bits a nd)
     (fun _ s' =>
        registry s' c (if bool_decide (type wa = UEV_TIMER_TS_TYPE)
                       then pre ++ a :: rest else pre ++ rest) /\
        calls s' = calls s ++ [mk_call f a (arg wa) UEV_READ] /\
        exists w', uevs s' !! a = Some w' /\
                   active w' = 0 /\ t_timeout w' = 0) s.
Proof.
  intros Hreg Hcr Ha Hty Hact Hpe Hcb Hd0 Hd.
  assert (Hdue : timer_due (now_ms s) wa = true).
  { apply timer_due_true; lia. }
  eapply wp_mono.
  { apply wp_conj.
    - eapply wp_uev_run_watcher_one_shot; eassumption.
    - eapply (wp_uev_run_watcher c pre a rest s wa bits nd);
        [now apply registry_split | exact Ha]. }
  cbv beta. intros nd' s' (Hreg' & _ & Hcore & Hcalls & _).
  split; [exact Hreg' |].
  assert (Hne : active wa <> 0) by lia.
  rewrite (watcher_swept_active_timer bits _ wa Hne Hty) in Hcore.
  assert (Hcl : sweep_calls bits (now_ms s) a wa = [mk_call f a (arg wa) UEV_READ]).
  { unfold sweep_calls, sweep_decision. rewrite Hcb.
    assert ((active wa =? 0) = false) as -> by (now apply Z.eqb_neq).
    unfold is_timer in Hty.
    destruct (type wa); try discriminate; rewrite Hdue; reflexivity. }
  split; [now rewrite Hcalls, Hcl |].
  destruct (core_lookup_Some _ _ _ Hcore) as (w' & Hw' & Hc').
  exists w'. split; [exact Hw' |].
  apply core_fields in Hc'. destruct Hc' as (_ & -> & _ & _ & _ & -> & _).
  unfold timer_swept. rewrite Hdue, Hpe. change (0 =? 0) with true. cbv iota.
  change (t_timeout (set_timeout 0 wa) =? 0) with true. cbv iota.
  change (active (set_timeout 0 wa)) with (active wa).
  assert ((0 <? active wa) = true) as -> by (apply Z.ltb_lt; lia).
  split; reflexivity.
Qed.

Lemma uev_run_watcher_one_shot_witness :
  exists nd s',
    uev_run_watcher 0 1 DEADLINE_MAX ex_oneshot_state = Ok nd s' /\
    registry s' 0 [].
Proof.
  assert (Hreg : registry ex_oneshot_state 0 ([] ++ 1%nat :: []))
    by (apply registryb_sound; vm_compute; reflexivity).
  assert (Hcr : ctxs ex_oneshot_state !! 0%nat = Some (ex_ctx 0 (Some 1%nat)))
    by (vm_compute; reflexivity).
  assert (Hw : uevs ex_oneshot_state !! 1%nat = Some ex_oneshot)
    by (vm_compute; reflexivity).
  pose proof (uev_run_watcher_one_shot ex_oneshot_state 0 _ [] 1 [] ex_oneshot
                9%nat 0 DEADLINE_MAX Hreg Hcr Hw eq_refl) as H.
  apply wp_elim in H as (nd & s' & E & Hreg' & _);
    try reflexivity.
  exists nd, s'. auto.
Defined.

(** ** Creating and restarting a timer *)

(** [uev_timer_init2] with accepted values, with what [uev_timer_set]
    leaves in the timer. *)
Lemma wp_uev_timer_init2_set s c cr b l a w0 f ar timeout period threadsafe :
  registry s c l -> ctxs s !! c = Some cr -> egh cr = Some b ->
  uevs s !! a = Some w0 -> a ∉ l ->
  0 <= timeout -> 0 <= period ->
  wp (uev_timer_init2 (Some c) (Some a) f ar timeout period threadsafe)
     (fun rc s' =>
        rc = 0 /\ calls s' = calls s /\
        exists wa, uevs s' !! a = Some wa /\
          cb wa = f /\ arg wa = ar /\
          t_deadline wa = (if negb (running cr =? 0) && negb (timeout =? 0)
                           then wrap64 (now_ms s + timeout) else 0)) s.
Proof.
  intros Hreg Hcr Hb Ha Hnin Hto Hpe.
  unfold uev_timer_init2.
  assert (((timeout <? 0) || (period <? 0)) = false) as ->.
  { apply orb_false_iff. split; apply Z.ltb_ge; lia. }
  unfold _uev_lock_init. wp_run.
  set (ty := if threadsafe =? 0 then UEV_TIMER_TYPE else UEV_TIMER_TS_TYPE).
  assert (Hty : is_timer ty = true) by (subst ty; now destruct (threadsafe =? 0)).
  unfold _uev_watcher_init. wp_run.
  set (w1 := mk_uev (next w0) (prev w0) 0 0 UEV_READ f ar (t_timeout w0)
                    (t_period w0) (t_deadline w0) (e_posted w0) ty (-1) (Some c)).
  set (s1 := with_uevs (<[a := w1]> (uevs s)) s).
  assert (Hreg1 : registry s1 c l) by (now apply registry_update_off).
  assert (Hmid : wp (when (bool_decide (ty = UEV_TIMER_TS_TYPE)) (_UEV_INSERT a c))
                    (fun _ s2 =>
                       same_env s1 s2 /\
                       registry s2 c (if bool_decide (ty = UEV_TIMER_TS_TYPE)
                                      then a :: l else l) /\
                       (exists w2, uevs s2 !! a = Some w2 /\ core w2 = core w1) /\
                       exists cr2, ctxs s2 !! c = Some cr2 /\ egh cr2 = Some b /\
                                   running cr2 = running cr) s1).
  { destruct (bool_decide (ty = UEV_TIMER_TS_TYPE)) eqn:Hts; simpl.
    - eapply wp_mono.
      { eapply (wp_UEV_INSERT_registry s1 c cr l a w1);
          [exact Hreg1 | exact Hcr | apply lookup_insert_eq | reflexivity
          | exact Hnin]. }
      cbv beta. intros [] s2 (Henv & Hsc & Hctx & Hreg2).
      split; [exact Henv |]. split; [exact Hreg2 |].
      split; [apply (core_lookup _ _ _ _ (Hsc a)); apply lookup_insert_eq |].
      eexists. rewrite Hctx, lookup_insert_eq. split; [reflexivity |]. auto.
    - apply wp_ret. split; [apply same_env_refl |]. split; [exact Hreg1 |].
      split; [eexists; split; [apply lookup_insert_eq | reflexivity] |].
      exists cr. auto. }
  eapply wp_mono; [exact Hmid |].
  cbv beta. intros [] s2
    (Henv & Hreg2 & (w2 & Hw2 & Hc2) & cr2 & Hcr2 & Hb2 & Hrun2).
  wp_run. simpl. wp_prim.
  pose proof (core_fields _ _ Hc2)
    as (_ & Hact2 & _ & Hcb2 & Harg2 & _ & _ & _ & _ & Hty2 & Hfd2 & Hctx2).
  simpl in Hact2, Hty2, Hfd2, Hctx2, Hcb2, Harg2.
  eapply wp_mono.
  { eapply wp_uev_timer_set with (wa := w2); try eassumption.
    - now rewrite Hty2.
    - unfold links_on_start. rewrite Hact2, Hty2. simpl.
      destruct (bool_decide (ty = UEV_TIMER_TS_TYPE)); [discriminate | auto]. }
  cbv beta. intros rc s3 (-> & Henv3 & _ & Hcore & _).
  simpl. wp_run.
  split; [reflexivity |].
  destruct Henv as (_ & Hclk & Htk & Hcl & _).
  destruct Henv3 as (_ & _ & _ & Hcl3 & _). st_simpl.
  split; [subst s1; st_simpl; congruence |].
  destruct (core_lookup_Some _ _ _ Hcore) as (w3 & Hw3 & Hc3).
  exists w3. split; [exact Hw3 |].
  apply core_fields in Hc3.
  destruct Hc3 as (_ & _ & _ & Hcb3 & Harg3 & _ & _ & Hde3 & _).
  destruct (timer_set_to_fields (now_ms s2) (running cr2) timeout period w2)
    as (_ & _ & F3 & _ & _ & F6 & F7).
  rewrite Hcb3, Harg3, Hde3, F3, F6, F7, Hrun2.
  assert (now_ms s2 = now_ms s) as ->.
  { unfold now_ms. subst s1. st_simpl. now rewrite Hclk, Htk. }
  auto.
Qed.

(** X15. [uev_timer_init2] with a timeout and a period that are not
    negative, on a context with a well-formed list and an allocated
    watcher that is not on it, returns 0 and leaves an active timer with
    the given callback, argument, timeout and period at the head of the
    list.  The timer is armed at once, with the deadline [now_ms +
    timeout], only when the loop is running and the timeout is not 0;
    otherwise its deadline is 0 and it is on hold.  No callback runs. *)
Theorem uev_timer_init2_on_hold s c cr b l a w0 f ar timeout period threadsafe :
  registry s c l -> ctxs s !! c = Some cr -> egh cr = Some b ->
  uevs s !! a = Some w0 -> a ∉ l ->
  0 <= timeout < 2 ^ 31 -> 0 <= period < 2 ^ 31 ->
  wp (uev_timer_init2 (Some c) (Some a) f ar timeout period threadsafe)
     (fun rc s' =>
        rc = 0 /\ registry s' c (a :: l) /\ calls s' = calls s /\
        exists wa, uevs s' !! a = Some wa /\
          type wa = (if threadsafe =? 0 then UEV_TIMER_TYPE
                     else UEV_TIMER_TS_TYPE) /\
          active wa = 1 /\ cb wa = f /\ arg wa = ar /\
          t_timeout wa = timeout /\ t_period wa = period /\
          t_deadline wa = (if negb (running cr =? 0) && negb (timeout =? 0)
                           then now_ms s + timeout else 0)) s.
Proof.
  intros Hreg Hcr Hb Ha Hnin Hto Hpe.
  eapply wp_mono.
  { apply wp_conj.
    - eapply (wp_uev_timer_init2 s c cr b l a w0 f ar timeout period threadsafe);
        (eassumption || lia).
    - eapply (wp_uev_timer_init2_set s c cr b l a w0 f ar timeout period
                threadsafe); (eassumption || lia). }
  cbv beta. intros rc s'
    ((-> & Hreg' & wa & cr' & b' & Hwa & Hty & _ & Hact & _ & Hto' & Hpe' & _)
     & (_ & Hcl & wa' & Hwa' & Hcb & Harg & Hde)).
  rewrite Hwa in Hwa'. injection Hwa' as <-.
  split; [reflexivity |]. split; [exact Hreg' |]. split; [exact Hcl |].
  exists wa. repeat (split; [assumption |]).
  rewrite Hde. destruct (negb (running cr =? 0) && negb (timeout =? 0));
    [| reflexivity].
  apply wrap64_small. pose proof (ms_at_range (clock s) (ticks s)).
  unfold now_ms. lia.
Qed.

Lemma uev_timer_init2_on_hold_witness :
  exists s' wa,
    uev_timer_init2 (Some 0%nat) (Some 1%nat) (Some 9%nat) 0 50 0 0
      ex_fresh_state = Ok 0 s' /\
    uevs s' !! 1%nat = Some wa /\ active wa = 1 /\ t_deadline wa = 0.
Proof.
  assert (Hreg : registry ex_fresh_state 0 [])
    by (apply registryb_sound; vm_compute; reflexivity).
  assert (Hcr : ctxs ex_fresh_state !! 0%nat = Some (mk_ctx 0 (Some 0) None 0))
    by (vm_compute; reflexivity).
  assert (Hw : uevs ex_fresh_state !! 1%nat = Some ex_blank)
    by (vm_compute; reflexivity).
  pose proof (uev_timer_init2_on_hold ex_fresh_state 0 _ 0 [] 1 _ (Some 9%nat)
                0 50 0 0 Hreg Hcr eq_refl Hw (not_elem_of_nil _)) as H.
  apply wp_elim in H as (rc & s' & E & -> & _ & _ & wa & Hwa & _ & Hact & _ & _ & _ & _ & Hde);
    [| lia | lia].
  exists s', wa. auto.
Defined.

(** X16. [uev_timer_init2], and [uev_timer_init] with it, given a
    negative timeout or period returns -1 with [ERANGE] before it uses
    the context or the watcher: whatever the two pointers are, null or
    not allocated included, [errno] is the only thing written. *)
Theorem uev_timer_init2_out_of_range s c w f ar timeout period threadsafe :
  timeout < 0 \/ period < 0 ->
  uev_timer_init2 c w f ar timeout period threadsafe s =
    Ok (-1) (with_errno ERANGE s) /\
  uev_timer_init c w f ar timeout period s = Ok (-1) (with_errno ERANGE s).
Proof.
  intros Hneg. unfold uev_timer_init, uev_timer_init2.
  assert (((timeout <? 0) || (period <? 0)) = true) as ->.
  { apply orb_true_iff. destruct Hneg; [left | right]; now apply Z.ltb_lt. }
  split; reflexivity.
Qed.

Lemma uev_timer_init2_out_of_range_witness :
  uev_timer_init2 None None (Some 9%nat) 0 (-1) 0 1 ex_blank_state =
    Ok (-1) (with_errno ERANGE ex_blank_state) /\
  uev_timer_init (Some 0%nat) (Some 1%nat) (Some 9%nat) 0 5 (-100)
    ex_blank_state = Ok (-1) (with_errno ERANGE ex_blank_state).
Proof.
  split.
  - apply (uev_timer_init2_out_of_range ex_blank_state None None (Some 9%nat)
             0 (-1) 0 1). left. lia.
  - apply (uev_timer_init2_out_of_range ex_blank_state (Some 0%nat)
             (Some 1%nat) (Some 9%nat) 0 5 (-100) 0). right. lia.
Defined.

(** X17. [_uev_timer_now] never returns a negative time: it returns the
    reading of the clock when that is a positive [int64_t], and 0 when the
    reading is 0 or negative; the result is below [2 ^ 63]. *)
Theorem uev_timer_now_range s :
  exists us,
    _uev_timer_now s = Ok us (with_ticks (S (ticks s)) s) /\
    0 <= us < 2 ^ 63 /\
    (0 < clock s (ticks s) < 2 ^ 63 -> us = clock s (ticks s)) /\
    (- 2 ^ 63 <= clock s (ticks s) <= 0 -> us = 0).
Proof.
  exists (now_us s). split.
  - pose proof (wp_uev_timer_now
                  (fun r s' => r = now_us s /\ s' = with_ticks (S (ticks s)) s) s
                  (conj eq_refl eq_refl)) as H.
    apply wp_elim in H as (r & s' & E & -> & ->). exact E.
  - unfold now_us, us_at, sint64. cbv zeta.
    set (x := clock s (ticks s)).
    assert (Hm : 0 <= (x + 2 ^ 63) mod 2 ^ 64 < 2 ^ 64)
      by (apply Z.mod_pos_bound; lia).
    split; [| split].
    + destruct (_ <=? 0) eqn:E; [lia |]. apply Z.leb_gt in E. lia.
    + intros Hx. rewrite Z.mod_small by lia.
      replace (x + 2 ^ 63 - 2 ^ 63) with x by lia.
      destruct (x <=? 0) eqn:E; [apply Z.leb_le in E; lia | reflexivity].
    + intros Hx. rewrite Z.mod_small by lia.
      replace (x + 2 ^ 63 - 2 ^ 63) with x by lia.
      destruct (x <=? 0) eqn:E; [reflexivity | apply Z.leb_gt in E; lia].
Qed.

(** X18. [uev_timer_start] on a null watcher returns -1 with [EINVAL].
    On a timer of a context with a well-formed list it sets the timer
    again with the timeout and the period that the timer holds: the timer
    is active afterwards, and its deadline is [now_ms + timeout] when the
    loop is running and the timeout it holds is not 0, and 0 otherwise.
    So a one-shot timer that has fired, whose timeout the sweep has
    zeroed, is active again after [uev_timer_start] but not armed. *)
Theorem uev_timer_start_rearms s c cr b l a wa :
  registry s c l -> ctxs s !! c = Some cr -> egh cr = Some b ->
  uevs s !! a = Some wa -> ctx wa = Some c -> is_timer (type wa) = true ->
  fd wa = -1 -> timer_ok wa ->
  (active wa <= 0 -> type wa = UEV_TIMER_TYPE -> a ∉ l) ->
  uev_timer_start None s = Ok (-1) (with_errno EINVAL s) /\
  wp (uev_timer_start (Some a))
     (fun rc s' =>
        rc = 0 /\
        exists wa', uevs s' !! a = Some wa' /\ 0 < active wa' /\
          t_timeout wa' = t_timeout wa /\ t_period wa' = t_period wa /\
          t_deadline wa' =
            (if negb (running cr =? 0) && negb (t_timeout wa =? 0)
             then now_ms s + t_timeout wa else 0)) s.
Proof.
  intros Hreg Hcr Hb Ha Hc Hty Hfd (Hto & Hpe & Hde) Hfresh.
  split; [reflexivity |].
  eapply wp_uev_timer_start; [exact Ha | exact Hfd |].
  eapply wp_mono.
  { eapply (wp_uev_timer_set s c cr b l a wa); try eassumption; try lia.
    unfold links_on_start. intros H. apply andb_true_iff in H as (H1 & H2).
    apply negb_true_iff, Z.ltb_ge in H1.
    apply negb_true_iff, bool_decide_eq_false in H2.
    apply Hfresh; [lia |].
    unfold is_timer in Hty. destruct (type wa); try discriminate; congruence. }
  cbv beta. intros rc s' (-> & _ & _ & Hcore & _).
  split; [reflexivity |].
  destruct (core_lookup_Some _ _ _ Hcore) as (wa' & Hwa' & Hc').
  exists wa'. split; [exact Hwa' |].
  apply core_fields in Hc'.
  destruct Hc' as (_ & Eact & _ & _ & _ & Eto & Epe & Ede & _).
  destruct (timer_set_to_fields (now_ms s) (running cr) (t_timeout wa)
              (t_period wa) wa) as (F1 & F2 & F3 & F4 & _).
  rewrite Eact, Eto, Epe, Ede, F1, F2, F3, F4.
  split; [destruct (0 <? active wa) eqn:E; [now apply Z.ltb_lt in E | lia] |].
  split; [reflexivity |]. split; [reflexivity |].
  destruct (negb (running cr =? 0) && negb (t_timeout wa =? 0)); [| reflexivity].
  apply wrap64_small. pose proof (ms_at_range (clock s) (ticks s)).
  unfold now_ms. lia.
Qed.

Lemma uev_timer_start_rearms_witness :
  exists s' wa',
    uev_timer_start (Some 1%nat) ex_stopped_state = Ok 0 s' /\
    uevs s' !! 1%nat = Some wa' /\ 0 < active wa' /\ t_deadline wa' = 0.
Proof.
  assert (Hreg : registry ex_stopped_state 0 [])
    by (apply registryb_sound; vm_compute; reflexivity).
  assert (Hcr : ctxs ex_stopped_state !! 0%nat = Some (ex_ctx 0 None))
    by (vm_compute; reflexivity).
  assert (Hw : uevs ex_stopped_state !! 1%nat = Some ex_stopped)
    by (vm_compute; reflexivity).
  destruct (uev_timer_start_rearms ex_stopped_state 0 _ 0 [] 1 ex_stopped
              Hreg Hcr eq_refl Hw eq_refl eq_refl eq_refl) as (_ & H).
  { vm_compute. intuition discriminate. }
  { intros _ _. apply not_elem_of_nil. }
  apply wp_elim in H as (rc & s' & E & -> & wa' & Hwa' & Hact & _ & _ & Hde).
  exists s', wa'. auto.
Defined.

(** ** A post and the loop *)

Lemma event_bit_within b b' :
  bits_within (Z.lor b UEV_EG_BIT_EVENT) b' -> Z.land b' UEV_EG_BIT_EVENT <> 0.
Proof.
  unfold bits_within. intros H E.
  apply (f_equal (fun z => Z.testbit z 1)) in H.
  apply (f_equal (fun z => Z.testbit z 1)) in E.
  rewrite Z.land_spec, Z.lor_spec in H. rewrite Z.land_spec in E.
  simpl in H, E. rewrite orb_true_r in H. simpl in H.
  rewrite andb_true_r in E. rewrite E in H. discriminate.
Qed.

Lemma timers_ok_posted a c wa cr b l s :
  timers_ok s l -> uevs s !! a = Some wa ->
  timers_ok (posted a c wa cr b s) l.
Proof.
  intros Hok Ha k w Hk Hw Hty. unfold posted in Hw. st_simpl.
  rewrite lookup_insert in Hw. destruct (decide (a = k)) as [<- | Hne].
  - injection Hw as <-. apply (Hok a wa Hk Ha Hty).
  - apply (Hok k w Hk Hw Hty).
Qed.

Section PostAndRun.

Variables portMAX_DELAY portTICK_PERIOD_MS : Z.

(** X19. A post to an active event watcher of the list, followed by
    [uev_run] with [UEV_ONCE] on its context (the list well formed, its
    timers holding accepted values): [uev_run] returns 0 and has called
    the callback of the watcher exactly once, with [UEV_READ], whatever
    else is on the list, and the posted-flag is 0 again. *)
Theorem uev_event_post_then_run_once iters fuel c cr b l a wa f flags s :
  registry s c l -> a ∈ l -> (length l <= fuel)%nat ->
  ctxs s !! c = Some cr -> egh cr = Some b -> timers_ok s l ->
  uevs s !! a = Some wa -> type wa = UEV_EVENT_TYPE -> 0 < active wa ->
  cb wa = Some f -> Z.land flags UEV_ONCE <> 0 ->
  wp (_ ← uev_event_post (Some a);
      uev_run portMAX_DELAY portTICK_PERIOD_MS (S iters) fuel (Some c) flags)
     (fun rc s' =>
        rc = 0 /\
        calls_of a (calls s') =
          calls_of a (calls s) ++ [mk_call f a (arg wa) UEV_READ] /\
        exists wa', uevs s' !! a = Some wa' /\ e_posted wa' = 0) s.
Proof.
  intros Hreg Hin Hfuel Hc Hb Hok Ha Hty Hact Hcb Honce.
  destruct (registry_lookup _ _ _ _ Hreg Hin) as (wa0 & Ha0 & Hctx).
  rewrite Ha in Ha0. injection Ha0 as <-.
  wp_prim.
  apply wp_intro with (a := 0) (s' := posted a c wa cr b s);
    [now apply uev_event_post_eq |].
  set (s1 := posted a c wa cr b s).
  assert (Hreg1 : registry s1 c l) by (now apply registry_posted).
  assert (Hok1 : timers_ok s1 l) by (now apply timers_ok_posted).
  assert (Hc1 : ctxs s1 !! c =
                Some (set_egh (Some (Z.lor b UEV_EG_BIT_EVENT)) cr))
    by (subst s1; unfold posted; st_simpl; apply lookup_insert_eq).
  assert (Ha1 : uevs s1 !! a = Some (set_posted 1 wa))
    by (subst s1; unfold posted; st_simpl; apply lookup_insert_eq).
  assert (Hcl1 : calls s1 = calls s) by reflexivity.
  unfold uev_run. wp_run. simpl. wp_prim.
  eapply wp_mono.
  { eapply (wp_uev_run_entry_pass fuel c _ (Z.lor b UEV_EG_BIT_EVENT) l flags s1);
      [exact Hreg1 | exact Hfuel | exact Hc1 | reflexivity | exact Hok1]. }
  cbv beta. intros nd s2
    ((_ & _ & Hcl2 & _ & _ & (cr2 & b2 & Hcr2 & Hrun2 & Hb2 & Hbits) & _ &
      Hreg2 & _ & Hnt) & _).
  pose proof (Hnt a _ Ha1 ltac:(simpl; rewrite Hty; reflexivity)) as Hcore2.
  apply core_lookup_Some in Hcore2 as (wa2 & Ha2 & Hc2).
  apply core_fields in Hc2.
  destruct Hc2 as (_ & Eact & _ & Ecb & Earg & _ & _ & _ & Epo & Ety & _).
  simpl in Eact, Ecb, Earg, Epo, Ety.
  pose proof (event_bit_within b b2 (Hbits _ _ Hc1 eq_refl)) as Hbit.
  wp_prim. simpl. wp_run. rewrite Hrun2. change (1 =? 0) with false. cbv iota.
  wp_prim.
  eapply wp_mono.
  { eapply (event_iteration portMAX_DELAY portTICK_PERIOD_MS fuel c cr2 b2 l a
              wa2 nd s2); (eassumption || congruence || lia). }
  cbv beta. intros nd' s3 (Hcalls & wa3 & Ha3 & Hpo3).
  assert ((Z.land flags UEV_ONCE =? 0) = false) as -> by (now apply Z.eqb_neq).
  simpl. wp_run.
  assert (Hz : (Z.land b2 UEV_EG_BIT_EVENT =? 0) = false) by (now apply Z.eqb_neq).
  rewrite Hz in Hcalls, Hpo3. rewrite Epo, Ecb, Earg, Hcb in Hcalls.
  simpl in Hcalls.
  split; [reflexivity |].
  split; [rewrite Hcalls, Hcl2, Hcl1; reflexivity |].
  exists wa3. auto.
Qed.

End PostAndRun.

Lemma uev_event_post_then_run_once_witness :
  exists s',
    (_ ← uev_event_post (Some 1%nat);
     uev_run 4294967295 10 1 1 (Some 0%nat) UEV_ONCE) ex_event_state = Ok 0 s' /\
    calls_of 1 (calls s') = [mk_call 9 1 0 UEV_READ].
Proof.
  assert (Hreg : registry ex_event_state 0 [1%nat])
    by (apply registryb_sound; vm_compute; reflexivity).
  assert (Hcr : ctxs ex_event_state !! 0%nat = Some (ex_ctx 0 (Some 1%nat)))
    by (vm_compute; reflexivity).
  assert (Hw : uevs ex_event_state !! 1%nat = Some ex_event)
    by (vm_compute; reflexivity).
  assert (Hok : timers_ok ex_event_state [1%nat]).
  { intros k w ->%list_elem_of_singleton Hk Hty. rewrite Hw in Hk.
    injection Hk as <-. discriminate. }
  pose proof (uev_event_post_then_run_once 4294967295 10 0 1 0 _ 0 [1%nat] 1
                ex_event 9%nat UEV_ONCE ex_event_state Hreg
                ltac:(left) (le_n 1) Hcr eq_refl Hok Hw eq_refl) as H.
  apply wp_elim in H as (rc & s' & E & -> & Hcalls & _);
    [| reflexivity | reflexivity | discriminate].
  exists s'. split; [exact E |]. rewrite Hcalls. reflexivity.
Defined.

(** ** The delivery of I/O events *)

(** [x & ~x] on an [unsigned int]. *)
Lemma land_lnot_wrap32 x :
  0 <= x < 2 ^ 32 -> Z.land x (wrap32 (Z.lnot (wrap32 x))) = 0.
Proof.
  intros Hx. unfold wrap32. rewrite (Z.mod_small x) by lia.
  apply Z.bits_inj'. intros n Hn. rewrite Z.land_spec, Z.bits_0.
  destruct (Z.lt_ge_cases n 32) as [Hlt | Hge].
  - rewrite Z.mod_pow2_bits_low by lia. rewrite Z.lnot_spec by lia.
    apply andb_negb_r.
  - rewrite Z.mod_pow2_bits_high by lia. apply andb_false_r.
Qed.

Section IoDelivery.

Variables portMAX_DELAY portTICK_PERIOD_MS : Z.

(** X20. An iteration of the loop that wakes with the IO bit, for an
    active I/O watcher of the list with pending events: if the watcher
    has a callback, the callback is called once with the pending events
    cut to {ERROR, READ, WRITE}, and the pending events are cleared, so
    that the selector asks about the descriptor again; if it has no
    callback, no call is made and the pending events stay. *)
Theorem uev_run_iteration_io_delivery fuel c cr b l a wa nd s :
  registry s c l -> a ∈ l -> (length l <= fuel)%nat ->
  ctxs s !! c = Some cr -> egh cr = Some b ->
  Z.land b UEV_EG_BIT_IO <> 0 ->
  uevs s !! a = Some wa -> type wa = UEV_IO_TYPE -> active wa <> 0 ->
  0 < iot_events wa < 2 ^ 32 ->
  wp (uev_run_iteration portMAX_DELAY portTICK_PERIOD_MS fuel c nd)
     (fun _ s' =>
        exists wa', uevs s' !! a = Some wa' /\
          match cb wa with
          | Some f =>
              calls_of a (calls s') =
                calls_of a (calls s) ++
                [mk_call f a (arg wa) (Z.land (iot_events wa) UEV_EVENT_MASK)] /\
              iot_events wa' = 0
          | None =>
              calls_of a (calls s') = calls_of a (calls s) /\
              iot_events wa' = iot_events wa
          end) s.
Proof.
  intros Hreg Hin Hfuel Hc Hb Hbit Ha Hty Hact Hio.
  eapply wp_mono; [eapply wp_uev_run_iteration; eassumption |].
  cbv beta zeta. intros _ s' ((_ & _ & _ & _ & Hall) & _).
  destruct (Hall a wa Ha) as (_ & Hdone).
  destruct Hdone as (t & _ & Hcore & Hcalls); [exact Hin | apply not_elem_of_nil |].
  unfold after_wait in Hcalls. st_simpl.
  destruct (core_lookup_Some _ _ _ Hcore) as (wa' & Ha' & Hc').
  exists wa'. split; [exact Ha' |].
  apply core_fields in Hc'. destruct Hc' as (Eio & _).
  rewrite Eio, Hcalls.
  unfold watcher_swept, sweep_calls, sweep_decision.
  assert ((active wa =? 0) = false) as -> by (now apply Z.eqb_neq).
  assert ((Z.land b UEV_EG_BIT_IO =? 0) = false) as -> by (now apply Z.eqb_neq).
  assert ((iot_events wa =? 0) = false) as -> by (apply Z.eqb_neq; lia).
  rewrite Hty. simpl.
  destruct (cb wa) as [f |].
  - split; [reflexivity |]. simpl. rewrite Z.lor_0_l. apply land_lnot_wrap32. lia.
  - split; [apply app_nil_r | reflexivity].
Qed.

End IoDelivery.

Lemma uev_run_iteration_io_delivery_witness :
  exists nd s' wa',
    uev_run_iteration 0 10 1 0 DEADLINE_MAX ex_io_selected = Ok nd s' /\
    uevs s' !! 1%nat = Some wa' /\ iot_events wa' = 0.
Proof.
  assert (Hreg : registry ex_io_selected 0 [1%nat])
    by (apply registryb_sound; vm_compute; reflexivity).
  assert (Hcr : exists cr, ctxs ex_io_selected !! 0%nat = Some cr /\
                           egh cr = Some UEV_EG_BIT_IO)
    by (eexists; split; vm_compute; reflexivity).
  destruct Hcr as (cr & Hcr & Hb).
  assert (Hw : uevs ex_io_selected !! 1%nat = Some (set_iot_events UEV_READ ex_io))
    by (vm_compute; reflexivity).
  pose proof (uev_run_iteration_io_delivery 0 10 1 0 cr _ [1%nat] 1 _
                DEADLINE_MAX ex_io_selected Hreg ltac:(left) (le_n 1) Hcr Hb
                ltac:(discriminate) Hw eq_refl ltac:(discriminate)
                ltac:(vm_compute; split; reflexivity)) as H.
  apply wp_elim in H as (nd & s' & E & wa' & Hwa' & _ & Hz).
  exists nd, s', wa'. auto.
Defined.
